(** * pyaraucaria.coordinates: sexagesimal / decimal angle conversion

    A shallow embedding of [pyaraucaria/coordinates.py].

    - Python [str] values are lists of characters ([list ascii]): the
      model covers text of the code points 0 to 255 (ASCII, and Latin-1
      above 127), where [\d] is the class [0-9].
    - Python [float] values are IEEE-754 binary64 numbers, embedded as
      [spec_float] with precision 53 and maximal exponent 1024; every
      arithmetic operator is the correctly rounded one of the standard
      library's [SpecFloat].
    - Python [int] values are [Z].
    - A raised exception is the [Raise] case of [result].
    - Statements about accuracy compare floats through [F2R], the real
      number that a finite float stands for, with the real numbers of
      the standard library.
    - Texts and precisions are of ordinary size. Two limits of CPython
      that show only from 10^9 characters on are not modelled: [float]
      refuses a numeral of more than 10^9 digits, and fixed-point
      formatting is not reliable for a precision within two of
      [INT_MAX]. What is stated holds for texts and precisions below
      10^9. *)

From Stdlib Require Import Reals Lra.
From Stdlib Require Import String Ascii ZArith Zpower List Bool Lia.
From Stdlib Require Import Floats.SpecFloat.
Import ListNotations.

Local Open Scope list_scope.
Local Open Scope Z_scope.

(** ** Text *)

Definition str := list ascii.

Definition lit (s : string) : str := list_ascii_of_string s.

Coercion lit : string >-> str.

(** ** Exceptions and results *)

Inductive exn : Type :=
| ValueError (msg : str)
| OverflowError (msg : str)
| IndexError (msg : str)
| TypeError (msg : str)
| ZeroDivisionError (msg : str).

Inductive result (A : Type) : Type :=
| Ok (a : A)
| Raise (e : exn).

Arguments Ok {A} a.
Arguments Raise {A} e.

Definition bind {A B : Type} (r : result A) (k : A -> result B) : result B :=
  match r with
  | Ok a => k a
  | Raise e => Raise e
  end.

Notation "x <- r ;; k" := (bind r (fun x => k))
  (at level 61, r at next level, right associativity).
Notation "' p <- r ;; k" := (bind r (fun x => let p := x in k))
  (at level 61, p pattern, r at next level, right associativity).

(** [try: body except ValueError: handler]. Only [ValueError] is caught. *)
Definition try_except_ValueError {A : Type} (body handler : result A) : result A :=
  match body with
  | Raise (ValueError _) => handler
  | other => other
  end.

(** ** Characters *)

Definition is_digit (c : ascii) : bool :=
  let n := N_of_ascii c in (48 <=? n)%N && (n <=? 57)%N.

Definition digit_val (c : ascii) : Z := Z.of_N (N_of_ascii c) - 48.

Definition digit_char (d : Z) : ascii := ascii_of_N (Z.to_N (d + 48)).

Definition lower (c : ascii) : ascii :=
  let n := N_of_ascii c in
  if (65 <=? n)%N && (n <=? 90)%N then ascii_of_N (n + 32) else c.

(** The characters that [float] drops around a numeral: TAB, LF, VT, FF,
    CR and the space, and, of the code points above 127, the two blanks
    U+0085 and U+00A0, which [float] turns into spaces first. The
    separators FS, GS, RS and US (codes 28 to 31) are kept, so [float]
    refuses a text that has one of them. *)
Definition is_space (c : ascii) : bool :=
  let n := N_of_ascii c in
  ((9 <=? n)%N && (n <=? 13)%N) || (n =? 32)%N
  || (n =? 133)%N || (n =? 160)%N.

Fixpoint str_eqb (a b : str) : bool :=
  match a, b with
  | [], [] => true
  | x :: a', y :: b' => Ascii.eqb x y && str_eqb a' b'
  | _, _ => false
  end.

(** ** Binary64 floating point *)

Module Float.

Definition prec : Z := 53.
Definition emax : Z := 1024.

Definition float := spec_float.

Definition mul : float -> float -> float := SFmul prec emax.
Definition add : float -> float -> float := SFadd prec emax.
Definition div : float -> float -> float := SFdiv prec emax.
Definition opp : float -> float := SFopp.
Definition ltb : float -> float -> bool := SFltb.

Definition nan : float := S754_nan.
Definition inf (s : bool) : float := S754_infinity s.

(** [float(n)] for a Python integer: the nearest binary64 number. *)
Definition of_Z (n : Z) : float := binary_normalize prec emax n 0 false.

Definition is_finite (x : float) : bool :=
  match x with
  | S754_zero _ | S754_finite _ _ _ => true
  | _ => false
  end.

Definition sign_bit (x : float) : bool :=
  match x with
  | S754_zero s | S754_infinity s | S754_finite s _ _ => s
  | S754_nan => false
  end.

(** The number [(-1)^s * n * 10^e10] rounded to the nearest binary64
    value, ties to even: what [strtod] returns for a decimal numeral. *)
Definition of_decimal (s : bool) (n : N) (e10 : Z) : float :=
  match n with
  | N0 => S754_zero s
  | Npos p =>
      if 0 <=? e10
      then binary_normalize prec emax
             (cond_Zopp s (Zpos p * 10 ^ e10)) 0 false
      else SFdiv prec emax (S754_finite s p 0)
             (S754_finite false (Z.to_pos (10 ^ (- e10))) 0)
  end.

(** [n / d] rounded to an integer, ties to even ([d > 0], [n >= 0]). *)
Definition div_half_even (n d : Z) : Z :=
  let q := n / d in
  let r := n mod d in
  match 2 * r ?= d with
  | Lt => q
  | Gt => q + 1
  | Eq => if Z.even q then q else q + 1
  end.

(** [|x| * 10^p] rounded to an integer, ties to even, for finite [x]. *)
Definition scaled_round (x : float) (p : Z) : Z :=
  match x with
  | S754_finite _ m e =>
      if 0 <=? e
      then Zpos m * 2 ^ e * 10 ^ p
      else div_half_even (Zpos m * 10 ^ p) (2 ^ (- e))
  | _ => 0
  end.

End Float.

Definition float : Type := Float.float.

(** ** Python built-ins used by the module *)

Definition char_0 : ascii := "0"%char.

(** Decimal digits of a non-negative integer, most significant first. *)
Fixpoint digits_aux (fuel : nat) (n : Z) (acc : str) : str :=
  match fuel with
  | O => acc
  | S k =>
      let acc' := digit_char (n mod 10) :: acc in
      if n <? 10 then acc' else digits_aux k (n / 10) acc'
  end.

Definition digits (n : Z) : str :=
  digits_aux (S (Z.to_nat (Z.log2 n))) n [].

(** The value of a run of decimal digits. *)
Definition digits_value (s : str) : Z :=
  fold_left (fun acc c => 10 * acc + digit_val c) s 0.

(** [s.zfill(w)] for a text without sign. *)
Definition zfill (w : nat) (s : str) : str :=
  repeat char_0 (w - length s) ++ s.

Fixpoint drop_while (p : ascii -> bool) (s : str) : str :=
  match s with
  | c :: s' => if p c then drop_while p s' else s
  | [] => []
  end.

(** The longest prefix of characters in [p], and what follows it. *)
Fixpoint span (p : ascii -> bool) (s : str) : str * str :=
  match s with
  | c :: s' =>
      if p c then let (a, b) := span p s' in (c :: a, b) else ([], s)
  | [] => ([], [])
  end.

Definition strip (s : str) : str :=
  rev (drop_while is_space (rev (drop_while is_space s))).

(** [int(s)] on the text of a capture group: decimal digits only. *)
Definition py_int_of_str (s : str) : result Z :=
  match s with
  | [] => Raise (ValueError (lit "invalid literal for int() with base 10: "))
  | _ =>
      if forallb is_digit s then Ok (digits_value s)
      else Raise (ValueError
             (lit "invalid literal for int() with base 10: " ++ s))
  end.

(** [int(x)] on a float: truncation towards zero. *)
Definition py_int_of_float (x : float) : result Z :=
  match x with
  | S754_nan =>
      Raise (ValueError (lit "cannot convert float NaN to integer"))
  | S754_infinity _ =>
      Raise (OverflowError (lit "cannot convert float infinity to integer"))
  | S754_zero _ => Ok 0
  | S754_finite s m e =>
      Ok (cond_Zopp s (if 0 <=? e then Zpos m * 2 ^ e else Zpos m / 2 ^ (- e)))
  end.

(** C [fmod]: the remainder has the sign of the dividend and is exact. *)
Definition fmod (x y : float) : float :=
  match x, y with
  | S754_nan, _ | _, S754_nan => S754_nan
  | S754_infinity _, _ => S754_nan
  | _, S754_zero _ => S754_nan
  | S754_zero _, _ => x
  | S754_finite _ _ _, S754_infinity _ => x
  | S754_finite sx mx ex, S754_finite _ my ey =>
      let e := Z.min ex ey in
      let r := (Zpos mx * 2 ^ (ex - e)) mod (Zpos my * 2 ^ (ey - e)) in
      binary_normalize Float.prec Float.emax (cond_Zopp sx r) e sx
  end.

(** [x % y] on floats, as [float_rem] of CPython does it. *)
Definition py_mod (x y : float) : result float :=
  match y with
  | S754_zero _ => Raise (ZeroDivisionError (lit "float modulo"))
  | _ =>
      let r := fmod x y in
      match r with
      | S754_zero _ => Ok (S754_zero (Float.sign_bit y))
      | _ =>
          if Bool.eqb (Float.ltb y (Float.of_Z 0)) (Float.ltb r (Float.of_Z 0))
          then Ok r
          else Ok (Float.add r y)
      end
  end.

(** [round(x, ndigits)] for [ndigits >= 0]: the float nearest to the
    decimal rounding (ties to even) of the exact value of [x]. Beyond 323
    digits CPython returns [x] itself. *)
Definition py_round (x : float) (ndigits : Z) : float :=
  match x with
  | S754_finite s _ _ =>
      if 323 <? ndigits then x
      else Float.of_decimal s (Z.to_N (Float.scaled_round x ndigits)) (- ndigits)
  | _ => x
  end.

(** [sep[i]] on text. *)
Definition getitem (s : str) (i : nat) : result str :=
  match nth_error s i with
  | Some c => Ok [c]
  | None => Raise (IndexError (lit "string index out of range"))
  end.

(** ['{:02d}'.format(n)]: sign-aware zero padding to width 2. *)
Definition format_02d (n : Z) : str :=
  if n <? 0 then "-"%char :: zfill 1 (digits (- n)) else zfill 2 (digits n).

(** The digits of ['%.<p>f' % abs(x)] for finite [x]. *)
Definition fixed_digits (x : float) (p : Z) : str :=
  let ds := zfill (S (Z.to_nat p)) (digits (Float.scaled_round x p)) in
  let k := (length ds - Z.to_nat p)%nat in
  if p =? 0 then ds else firstn k ds ++ "."%char :: skipn k ds.

(** The largest precision that [str.format] takes, [INT_MAX], and the
    largest number that a format string may hold, [PY_SSIZE_T_MAX] (of a
    64-bit build). *)
Definition INT_MAX : Z := 2147483647.
Definition PY_SSIZE_T_MAX : Z := 9223372036854775807.

(** ['{:06.<p>f}'.format(x)]: fixed-point notation with [p] fractional
    digits, zero-padded after the sign to a total width of 6. A negative
    [p] leaves the format string without precision; a [p] above
    [PY_SSIZE_T_MAX] is refused when the format string is read, and one
    above [INT_MAX] when the float is formatted. *)
Definition format_06f (x : float) (p : Z) : result str :=
  if p <? 0
  then Raise (ValueError (lit "Format specifier missing precision"))
  else if PY_SSIZE_T_MAX <? p
  then Raise (ValueError (lit "Too many decimal digits in format string"))
  else if INT_MAX <? p
  then Raise (ValueError (lit "precision too big"))
  else
    let body :=
      match x with
      | S754_nan => lit "nan"
      | S754_infinity _ => lit "inf"
      | _ => fixed_digits x p
      end in
    Ok (if Float.sign_bit x
        then "-"%char :: zfill 5 body
        else zfill 6 body).

(** *** [float(s)] on text

    The grammar of the language reference: blanks around the numeral are
    dropped, underscores may separate digits, the sign is optional, then
    either [inf], [infinity] or [nan] in any letter case, or a decimal
    numeral with an optional exponent. *)

Definition underscore : ascii := "_"%char.

(** Underscores are allowed only between two digits; they are removed. *)
Fixpoint remove_underscores (prev : ascii) (s : str) : option str :=
  match s with
  | [] => if Ascii.eqb prev underscore then None else Some []
  | c :: s' =>
      if Ascii.eqb c underscore
      then if is_digit prev then remove_underscores c s' else None
      else if Ascii.eqb prev underscore && negb (is_digit c) then None
      else option_map (cons c) (remove_underscores c s')
  end.

Definition split_sign (s : str) : bool * str :=
  match s with
  | c :: s' =>
      if Ascii.eqb c "-"%char then (true, s')
      else if Ascii.eqb c "+"%char then (false, s')
      else (false, s)
  | [] => (false, [])
  end.

Definition is_exp_mark (c : ascii) : bool :=
  Ascii.eqb c "e"%char || Ascii.eqb c "E"%char.

Definition is_nil (s : str) : bool :=
  match s with [] => true | _ => false end.

(** The numeral proper, after blanks and underscores are gone. *)
Definition float_of_numeral (s : str) : option float :=
  let (neg, body) := split_sign s in
  let low := map lower body in
  if str_eqb low (lit "inf") || str_eqb low (lit "infinity")
  then Some (Float.inf neg)
  else if str_eqb low (lit "nan") then Some Float.nan
  else
    let (ip, r1) := span is_digit body in
    let (fp, r2) :=
      match r1 with
      | c :: t => if Ascii.eqb c "."%char then span is_digit t else ([], r1)
      | [] => ([], r1)
      end in
    if is_nil ip && is_nil fp then None
    else
      let n := Z.to_N (digits_value (ip ++ fp)) in
      let scale := - Z.of_nat (length fp) in
      match r2 with
      | [] => Some (Float.of_decimal neg n scale)
      | c :: t =>
          if is_exp_mark c
          then
            let (eneg, t1) := split_sign t in
            let (ed, t2) := span is_digit t1 in
            if is_nil ed || negb (is_nil t2) then None
            else Some (Float.of_decimal neg n
                         (cond_Zopp eneg (digits_value ed) + scale))
          else None
      end.

Definition py_float_of_str (s : str) : result float :=
  let failure :=
    Raise (ValueError (lit "could not convert string to float: " ++ s)) in
  match remove_underscores Ascii.zero s with
  | None => failure
  | Some s1 =>
      match float_of_numeral (strip s1) with
      | Some x => Ok x
      | None => failure
      end
  end.

(** ** Regular expressions: the fragment of [re] that the module uses

    [run r s] lists every way [r] can match a prefix of [s], in the order
    in which the backtracking matcher of [re] tries them, so the head of
    the list is the match that [re.match] reports. Each way carries the
    matched text, the rest of the subject and the named groups met. *)

Inductive cls : Type :=
| Digit                         (* \d *)
| OneOf (chars : str).          (* [...] *)

Definition cls_mem (k : cls) (c : ascii) : bool :=
  match k with
  | Digit => is_digit c
  | OneOf chars => existsb (Ascii.eqb c) chars
  end.

Inductive regex : Type :=
| Chr (k : cls)                        (* one character of a class *)
| Cat (r1 r2 : regex)                  (* r1 r2 *)
| Opt (r : regex)                      (* r?  greedy *)
| Star (k : cls)                       (* k*  greedy *)
| Group (name : string) (r : regex).   (* (?P<name>r) *)

Definition captures := list (string * str).

Definition way : Type := str * str * captures.

Fixpoint run_star (k : cls) (s : str) : list (str * str) :=
  match s with
  | c :: s' =>
      if cls_mem k c
      then map (fun w => (c :: fst w, snd w)) (run_star k s') ++ [([], s)]
      else [([], s)]
  | [] => [([], [])]
  end.

Fixpoint run (r : regex) (s : str) : list way :=
  match r with
  | Chr k =>
      match s with
      | c :: s' => if cls_mem k c then [([c], s', [])] else []
      | [] => []
      end
  | Cat r1 r2 =>
      flat_map
        (fun w1 : way =>
           let '(t1, rest1, g1) := w1 in
           map (fun w2 : way =>
                  let '(t2, rest2, g2) := w2 in (t1 ++ t2, rest2, g1 ++ g2))
               (run r2 rest1))
        (run r1 s)
  | Opt r1 => run r1 s ++ [([], s, [])]
  | Star k => map (fun w => (fst w, snd w, [])) (run_star k s)
  | Group name r1 =>
      map (fun w : way =>
             let '(t, rest, g) := w in (t, rest, (name, t) :: g))
          (run r1 s)
  end.

(** [pattern.match(s)]: anchored at the start of [s]. *)
Definition re_match (r : regex) (s : str) : option captures :=
  match run r s with
  | (_, _, g) :: _ => Some g
  | [] => None
  end.

(** [m.groupdict()[name]]: [None] when the group took no part. *)
Fixpoint group (g : captures) (name : string) : option str :=
  match g with
  | (n, t) :: g' => if String.eqb n name then Some t else group g' name
  | [] => None
  end.

Definition int_of_group (v : option str) : result Z :=
  match v with
  | Some t => py_int_of_str t
  | None => Raise (TypeError (lit "int() argument must be a string or a number"))
  end.

Definition float_of_group (v : option str) : result float :=
  match v with
  | Some t => py_float_of_str t
  | None => Raise (TypeError (lit "float() argument must be a string or a number"))
  end.

Definition group_is (v : option str) (t : str) : bool :=
  match v with
  | Some u => str_eqb u t
  | None => false
  end.

(** ** The module [pyaraucaria.coordinates] *)

Declare Scope float_scope.
Notation "x * y" := (Float.mul x y) : float_scope.
Notation "x / y" := (Float.div x y) : float_scope.
Notation "x + y" := (Float.add x y) : float_scope.
Delimit Scope float_scope with float.

(** An integer operand of a float operator is converted first. *)
Definition i2f (n : Z) : float := Float.of_Z n.

(** The compiled pattern, group by group:
    [(?P<sign>[+\-])?]  [(?P<A>\d\d?)]  [[ :\-hH]]  [(?P<B>\d\d?)]
    [[ :\-mM]]  and the group [C], which is [\d\d?] followed by an
    optional non-capturing group made of a dot and [\d] starred. *)
(** The character classes [[+\-]], [[ :\-hH]], [[ :\-mM]] and [\.]. *)
Definition sign_chars : cls := OneOf (lit "+-").
Definition sep1_chars : cls := OneOf (lit " :-hH").
Definition sep2_chars : cls := OneOf (lit " :-mM").
Definition dot_chars : cls := OneOf (lit ".").
Definition dot : ascii := "."%char.

Definition digits12_re : regex := Cat (Chr Digit) (Opt (Chr Digit)).

Definition seconds_re : regex :=
  Cat (Chr Digit)
      (Cat (Opt (Chr Digit)) (Opt (Cat (Chr dot_chars) (Star Digit)))).

Definition _sexagesimal_parser : regex :=
  Cat (Opt (Group "sign" (Chr sign_chars)))
 (Cat (Group "A" digits12_re)
 (Cat (Chr sep1_chars)
 (Cat (Group "B" digits12_re)
 (Cat (Chr sep2_chars)
      (Group "C" seconds_re))))).

Definition quadruple : Type := Z * Z * Z * float.

(** Returns quadruple: (sign, dec/h, min, sec) *)
Definition parse_sexagesimal (sexagesimal : str) : result quadruple :=
  match re_match _sexagesimal_parser sexagesimal with
  | None =>
      Raise (ValueError
               (sexagesimal ++
                lit " can not be converted to decimal representation"))
  | Some v =>
      let sign := if group_is (group v "sign") (lit "-") then -1 else 1 in
      a <- int_of_group (group v "A") ;;
      b <- int_of_group (group v "B") ;;
      c <- float_of_group (group v "C") ;;
      Ok (sign, a, b, c)
  end.

Definition hourangle_to_decimal_deg (hms : str) : result float :=
  val <- try_except_ValueError
           (py_float_of_str hms)
           ('(sign, h, m, s) <- parse_sexagesimal hms ;;
            Ok (i2f sign * ((((s / i2f 60) + i2f m) / i2f 60) + i2f h)
                / i2f 24 * i2f 360)%float) ;;
  Ok (py_round val 6).

Definition deg_to_decimal_deg (dms : str) : result float :=
  val <- try_except_ValueError
           (py_float_of_str dms)
           ('(sign, d, m, s) <- parse_sexagesimal dms ;;
            Ok (i2f sign * ((((s / i2f 60) + i2f m) / i2f 60) + i2f d))%float) ;;
  Ok (py_round val 6).

Definition format_sexagesimal (deg multiplier : float) (sign : bool)
    (sep : str) (precision : Z) : result str :=
  let sep := if Nat.eqb (length sep) 1 then sep ++ sep else sep in
  let sig := if Float.ltb (i2f 0) deg then 1 else -1 in
  let h := (i2f sig * multiplier * deg)%float in
  m <- py_mod (h * i2f 60)%float (i2f 60) ;;
  s <- py_mod (m * i2f 60)%float (i2f 60) ;;
  let f0 := if sign then (if 0 <? sig then lit "+" else lit "-") else [] in
  f1 <- py_int_of_float h ;;
  f2 <- getitem sep 0 ;;
  f3 <- py_int_of_float m ;;
  f4 <- getitem sep 1 ;;
  f6 <- (if Nat.eqb (length sep) 3 then getitem sep 2 else Ok []) ;;
  f5 <- format_06f s precision ;;
  Ok (f0 ++ format_02d f1 ++ f2 ++ format_02d f3 ++ f4 ++ f5 ++ f6).

Definition to_hourangle_sexagesimal (deg : float) (sep : str) (sign : bool)
    (precision : Z) : result str :=
  format_sexagesimal deg (i2f 24 / i2f 360)%float sign sep precision.

(** The multiplier is the integer [1]; [sig * 1 * deg] multiplies [deg]
    by the float of [sig * 1], which is what [i2f sig * i2f 1] is. *)
Definition to_degminsec_sexagesimal (deg : float) (sep : str) (sign : bool)
    (precision : Z) : result str :=
  format_sexagesimal deg (i2f 1) sign sep precision.

Definition ra_to_decimal (hms : str) : result float :=
  hourangle_to_decimal_deg hms.

Definition dec_to_decimal (dms : str) : result float :=
  deg_to_decimal_deg dms.

Definition ra_to_sexagesimal (deg : float) (sep : str) (precision : Z)
  : result str :=
  to_hourangle_sexagesimal deg sep false precision.

Definition dec_to_sexagesimal (deg : float) (sep : str) (precision : Z)
  : result str :=
  to_degminsec_sexagesimal deg sep true precision.

(** The default arguments [sep=':'] and [precision=3]. *)
Definition default_sep : str := lit ":".
Definition default_precision : Z := 3.

(** * Verification *)

(** ** Characters *)

Ltac by_ascii c :=
  destruct c as [[|] [|] [|] [|] [|] [|] [|] [|]];
  try reflexivity; try discriminate.


Lemma digit_not_sign c : is_digit c = true -> cls_mem sign_chars c = false.
Proof. by_ascii c. Qed.

Lemma digit_not_sep1 c : is_digit c = true -> cls_mem sep1_chars c = false.
Proof. by_ascii c. Qed.

Lemma digit_not_sep2 c : is_digit c = true -> cls_mem sep2_chars c = false.
Proof. by_ascii c. Qed.

Lemma digit_not_dot c : is_digit c = true -> cls_mem dot_chars c = false.
Proof. by_ascii c. Qed.

Lemma sign_not_digit c : cls_mem sign_chars c = true -> is_digit c = false.
Proof. by_ascii c. Qed.

Lemma dot_chars_spec c : cls_mem dot_chars c = Ascii.eqb c dot.
Proof. by_ascii c. Qed.

Lemma digit_not_space c : is_digit c = true -> is_space c = false.
Proof. by_ascii c. Qed.

Lemma digit_not_underscore c : is_digit c = true -> Ascii.eqb c underscore = false.
Proof. by_ascii c. Qed.

Lemma digit_val_range c : is_digit c = true -> 0 <= digit_val c <= 9.
Proof. by_ascii c; intros _; vm_compute; split; discriminate. Qed.

Lemma digit_char_is_digit d : 0 <= d <= 9 -> is_digit (digit_char d) = true.
Proof.
  intros H.
  assert (d = 0 \/ d = 1 \/ d = 2 \/ d = 3 \/ d = 4 \/ d = 5 \/ d = 6 \/
          d = 7 \/ d = 8 \/ d = 9) as Hd by lia.
  repeat (destruct Hd as [-> | Hd]; [reflexivity |]); subst; reflexivity.
Qed.

Arguments is_digit : simpl never.
Arguments is_space : simpl never.
Arguments lower : simpl never.
Arguments Ascii.eqb : simpl never.
Arguments cls_mem : simpl never.
Arguments digit_val : simpl never.

Lemma cls_mem_digit c : cls_mem Digit c = is_digit c.
Proof. reflexivity. Qed.

(** ** The matcher on the pattern of the module

    The pattern never gains from backtracking: a sign, a digit and a
    separator exclude one another, so the first alternative of each field
    is the only one that can be continued. [scan] is that deterministic
    reading; [re_match_scan] shows that [re.match] computes it. *)

Definition take_sign (s : str) : str * str :=
  match s with
  | c :: s' => if cls_mem sign_chars c then ([c], s') else ([], s)
  | [] => ([], [])
  end.

(** One digit, and a second one when it is there. *)
Definition take_digits12 (s : str) : option (str * str) :=
  match s with
  | d1 :: s1 =>
      if is_digit d1
      then match s1 with
           | d2 :: s2 =>
               if is_digit d2 then Some ([d1; d2], s2) else Some ([d1], s1)
           | [] => Some ([d1], [])
           end
      else None
  | [] => None
  end.

Definition take_chr (k : cls) (s : str) : option str :=
  match s with
  | c :: s' => if cls_mem k c then Some s' else None
  | [] => None
  end.

(** The optional fraction: a dot and the digits after it. *)
Definition take_fraction (s : str) : str * str :=
  match s with
  | c :: t =>
      if Ascii.eqb c dot
      then let (fp, r) := span is_digit t in (c :: fp, r)
      else ([], s)
  | [] => ([], [])
  end.

Definition take_seconds (s : str) : option (str * str) :=
  match take_digits12 s with
  | Some (ip, r) => let (fr, r') := take_fraction r in Some (ip ++ fr, r')
  | None => None
  end.

Definition scan (s : str) : option (str * str * str * str) :=
  let (sg, s0) := take_sign s in
  match take_digits12 s0 with
  | Some (a, s1) =>
      match take_chr sep1_chars s1 with
      | Some s2 =>
          match take_digits12 s2 with
          | Some (b, s3) =>
              match take_chr sep2_chars s3 with
              | Some s4 =>
                  match take_seconds s4 with
                  | Some (c, _) => Some (sg, a, b, c)
                  | None => None
                  end
              | None => None
              end
          | None => None
          end
      | None => None
      end
  | None => None
  end.

Definition sign_group (sg : str) : captures :=
  match sg with
  | [] => []
  | _ => [("sign"%string, sg)]
  end.

Definition scan_captures (f : str * str * str * str) : captures :=
  let '(sg, a, b, c) := f in
  sign_group sg ++ [("A"%string, a); ("B"%string, b); ("C"%string, c)].

Lemma run_star_head k s :
  exists l, run_star k s = span (cls_mem k) s :: l.
Proof.
  induction s as [|c s IH]; simpl.
  - now exists [].
  - destruct (cls_mem k c).
    + destruct IH as [l ->]. destruct (span (cls_mem k) s) as [a b].
      simpl. now eexists.
    + now exists [].
Qed.

Definition groups_of (r : regex) (s : str) : list captures :=
  map snd (run r s).

Lemma re_match_groups r s : re_match r s = hd_error (groups_of r s).
Proof.
  unfold re_match, groups_of.
  destruct (run r s) as [|[[t rest] g] l]; reflexivity.
Qed.

Lemma groups_of_cat_map (f : captures -> captures) (t0 : str) (g0 : captures)
    (l : list way) :
  map snd (map (fun w : way =>
                  let '(t2, rest2, g2) := w in (t0 ++ t2, rest2, g0 ++ g2)) l)
  = map (app g0) (map snd l).
Proof.
  rewrite !map_map. apply map_ext. intros [[t rest] g]. reflexivity.
Qed.

(** When a separator follows, the field reads as [take_digits12] says. *)
Lemma groups_digits12_then name k r s :
  (forall c, is_digit c = true -> cls_mem k c = false) ->
  groups_of (Cat (Group name digits12_re) (Cat (Chr k) r)) s =
  match take_digits12 s with
  | Some (a, s1) =>
      match take_chr k s1 with
      | Some s2 => map (cons (name, a)) (groups_of r s2)
      | None => []
      end
  | None => []
  end.
Proof.
  intros Hk. unfold groups_of.
  destruct s as [|d1 s1]; [reflexivity|].
  simpl. rewrite cls_mem_digit. destruct (is_digit d1) eqn:H1; [|reflexivity].
  destruct s1 as [|d2 s2]; [reflexivity|].
  simpl. rewrite cls_mem_digit. destruct (is_digit d2) eqn:H2; simpl.
  - rewrite (Hk d2 H2). simpl. repeat rewrite app_nil_r.
    destruct s2 as [|c s3]; [reflexivity|]. simpl.
    destruct (cls_mem k c); simpl; [|reflexivity].
    repeat rewrite app_nil_r. repeat rewrite map_map.
    apply map_ext. intros [[t rest] g]. reflexivity.
  - destruct (cls_mem k d2); simpl; [|reflexivity].
    repeat rewrite app_nil_r. repeat rewrite map_map.
    apply map_ext. intros [[t rest] g]. reflexivity.
Qed.

Lemma span_digit_cls s : span (cls_mem Digit) s = span is_digit s.
Proof. reflexivity. Qed.

(** The seconds field is last, so its first way is the greedy one. *)
Lemma groups_seconds name s :
  hd_error (groups_of (Group name seconds_re) s) =
  match take_seconds s with
  | Some (c, _) => Some [(name, c)]
  | None => None
  end.
Proof.
  unfold groups_of, take_seconds.
  destruct s as [|d1 s1]; [reflexivity|].
  simpl. rewrite cls_mem_digit. destruct (is_digit d1) eqn:H1; [|reflexivity].
  destruct s1 as [|d2 s2]; [reflexivity|].
  simpl. rewrite cls_mem_digit. destruct (is_digit d2) eqn:H2; simpl.
  - destruct s2 as [|c s3]; [reflexivity|]. simpl.
    rewrite dot_chars_spec.
    destruct (Ascii.eqb c dot) eqn:Hc; simpl; [|reflexivity].
    destruct (run_star_head Digit s3) as [l ->].
    rewrite span_digit_cls. destruct (span is_digit s3) as [fp r].
    reflexivity.
  - rewrite dot_chars_spec.
    destruct (Ascii.eqb d2 dot) eqn:Hc; simpl; [|reflexivity].
    destruct (run_star_head Digit s2) as [l ->].
    rewrite span_digit_cls. destruct (span is_digit s2) as [fp r].
    reflexivity.
Qed.

Lemma hd_error_map_ {A B : Type} (f : A -> B) (l : list A) :
  hd_error (map f l) = option_map f (hd_error l).
Proof. destruct l; reflexivity. Qed.

Definition after_sign_re : regex :=
  Cat (Group "A" digits12_re)
 (Cat (Chr sep1_chars)
 (Cat (Group "B" digits12_re)
 (Cat (Chr sep2_chars)
      (Group "C" seconds_re)))).

Lemma groups_after_sign_no_digit c s :
  is_digit c = false -> groups_of after_sign_re (c :: s) = [].
Proof.
  intros Hc. unfold after_sign_re.
  rewrite (groups_digits12_then _ _ _ _ digit_not_sep1).
  simpl. now rewrite Hc.
Qed.

Lemma groups_opt_sign r s :
  (forall c s', cls_mem sign_chars c = true -> groups_of r (c :: s') = []) ->
  groups_of (Cat (Opt (Group "sign" (Chr sign_chars))) r) s =
  let (sg, s0) := take_sign s in
  map (app (sign_group sg)) (groups_of r s0).
Proof.
  intros Hr. destruct s as [|c s].
  - unfold groups_of. simpl. repeat rewrite app_nil_r. repeat rewrite map_map.
    apply map_ext. intros [[t rest] g]. reflexivity.
  - unfold take_sign. unfold groups_of at 1. simpl.
    destruct (cls_mem sign_chars c) eqn:Hc; simpl.
    + generalize (Hr c s Hc). unfold groups_of at 1. intros E.
      apply map_eq_nil in E. rewrite E. simpl.
      repeat rewrite app_nil_r. unfold groups_of. repeat rewrite map_map.
      apply map_ext. intros [[t rest] g]. reflexivity.
    + repeat rewrite app_nil_r. unfold groups_of. repeat rewrite map_map.
      apply map_ext. intros [[t rest] g]. reflexivity.
Qed.

Lemma groups_pattern s :
  groups_of _sexagesimal_parser s =
  let (sg, s0) := take_sign s in
  map (app (sign_group sg)) (groups_of after_sign_re s0).
Proof.
  change _sexagesimal_parser
    with (Cat (Opt (Group "sign" (Chr sign_chars))) after_sign_re).
  apply groups_opt_sign. intros c s' Hc.
  apply groups_after_sign_no_digit, sign_not_digit, Hc.
Qed.

(** [re.match] on the pattern of the module is the deterministic scan. *)
Theorem re_match_scan s :
  re_match _sexagesimal_parser s = option_map scan_captures (scan s).
Proof.
  rewrite re_match_groups, groups_pattern. unfold scan.
  destruct (take_sign s) as [sg s0].
  rewrite hd_error_map_. unfold after_sign_re.
  rewrite (groups_digits12_then _ _ _ _ digit_not_sep1).
  destruct (take_digits12 s0) as [[a s1]|]; [|reflexivity].
  destruct (take_chr sep1_chars s1) as [s2|]; [|reflexivity].
  rewrite hd_error_map_.
  rewrite (groups_digits12_then _ _ _ _ digit_not_sep2).
  destruct (take_digits12 s2) as [[b s3]|]; [|reflexivity].
  destruct (take_chr sep2_chars s3) as [s4|]; [|reflexivity].
  rewrite hd_error_map_, groups_seconds.
  destruct (take_seconds s4) as [[c r]|]; reflexivity.
Qed.

(** ** What the scan reads *)

(** A field of one or two digits. *)
Definition field12 (a : str) : Prop :=
  forallb is_digit a = true /\ (length a = 1 \/ length a = 2)%nat.

Lemma take_digits12_spec s a r :
  take_digits12 s = Some (a, r) -> s = a ++ r /\ field12 a.
Proof.
  unfold take_digits12, field12.
  destruct s as [|d1 s1]; [discriminate|].
  destruct (is_digit d1) eqn:H1; [|discriminate].
  destruct s1 as [|d2 s2].
  - intros [= <- <-]. simpl. rewrite H1. auto.
  - destruct (is_digit d2) eqn:H2; intros [= <- <-]; simpl;
      rewrite H1, ?H2; auto.
Qed.

Lemma take_digits12_none s :
  take_digits12 s = None ->
  match s with c :: _ => is_digit c = false | [] => True end.
Proof.
  unfold take_digits12. destruct s as [|d1 s1]; [trivial|].
  destruct (is_digit d1); [|trivial].
  destruct s1 as [|d2 s2]; [discriminate|].
  destruct (is_digit d2); discriminate.
Qed.

(** A field followed by a character that is not a digit is read whole. *)
Lemma take_digits12_app a p r :
  field12 a -> is_digit p = false ->
  take_digits12 (a ++ p :: r) = Some (a, p :: r).
Proof.
  intros [Hd Hl] Hp.
  destruct a as [|d1 [|d2 [|d3 a]]]; simpl in Hl;
    try (destruct Hl; discriminate); simpl in Hd |- *.
  - rewrite andb_true_r in Hd. now rewrite Hd, Hp.
  - apply andb_true_iff in Hd as [H1 Hd].
    rewrite andb_true_r in Hd. now rewrite H1, Hd.
Qed.

Lemma take_chr_spec k s r :
  take_chr k s = Some r -> exists c, s = c :: r /\ cls_mem k c = true.
Proof.
  destruct s as [|c s]; simpl; [discriminate|].
  destruct (cls_mem k c) eqn:Hc; [|discriminate].
  intros [= <-]. eauto.
Qed.

Lemma span_spec p s a r :
  span p s = (a, r) ->
  s = a ++ r /\ forallb p a = true /\
  match r with c :: _ => p c = false | [] => True end.
Proof.
  revert a r. induction s as [|c s IH]; simpl; intros a r.
  - intros [= <- <-]. auto.
  - destruct (p c) eqn:Hc.
    + destruct (span p s) as [a' r'] eqn:E. intros [= <- <-].
      destruct (IH _ _ eq_refl) as (-> & Ha & Hr).
      simpl. rewrite Hc. auto.
    + intros [= <- <-]. simpl. auto.
Qed.

Lemma span_app p a r :
  forallb p a = true ->
  match r with c :: _ => p c = false | [] => True end ->
  span p (a ++ r) = (a, r).
Proof.
  intros Ha Hr. induction a as [|c a IH]; simpl in *.
  - destruct r as [|c r]; [reflexivity|]. simpl. now rewrite Hr.
  - apply andb_true_iff in Ha as [Hc Ha]. rewrite Hc, (IH Ha). reflexivity.
Qed.

(** The optional fraction: nothing, or a dot and digits. *)
Definition fraction (fr fp : str) : Prop :=
  forallb is_digit fp = true /\ ((fr = [] /\ fp = []) \/ fr = dot :: fp).

Lemma take_fraction_spec s fr r :
  take_fraction s = (fr, r) ->
  s = fr ++ r /\ exists fp, fraction fr fp.
Proof.
  unfold take_fraction, fraction. destruct s as [|c t].
  - intros [= <- <-]. split; [reflexivity|]. exists []. auto.
  - destruct (Ascii.eqb c dot) eqn:Hc.
    + destruct (span is_digit t) as [fp r'] eqn:E. intros [= <- <-].
      destruct (span_spec _ _ _ _ E) as (-> & Hfp & _).
      apply Ascii.eqb_eq in Hc. subst c.
      split; [reflexivity|]. exists fp. auto.
    + intros [= <- <-]. split; [reflexivity|]. exists []. auto.
Qed.

Lemma take_seconds_spec s c r :
  take_seconds s = Some (c, r) ->
  s = c ++ r /\
  exists ip fr fp, c = ip ++ fr /\ field12 ip /\ fraction fr fp.
Proof.
  unfold take_seconds.
  destruct (take_digits12 s) as [[ip r0]|] eqn:E; [|discriminate].
  destruct (take_fraction r0) as [fr r'] eqn:F. intros [= <- <-].
  destruct (take_digits12_spec _ _ _ E) as (-> & Hip).
  destruct (take_fraction_spec _ _ _ F) as (-> & fp & Hfr).
  split; [now rewrite app_assoc|]. exists ip, fr, fp. auto.
Qed.

(** ** The integer and float conversions of the captured fields *)

Lemma field12_value a : field12 a -> 0 <= digits_value a <= 99.
Proof.
  intros [Hd Hl].
  destruct a as [|d1 [|d2 [|d3 a]]]; simpl in Hl;
    try (destruct Hl; discriminate); simpl in Hd;
    unfold digits_value; cbn [fold_left].
  - rewrite andb_true_r in Hd. pose proof (digit_val_range _ Hd). lia.
  - apply andb_true_iff in Hd as [H1 Hd]. rewrite andb_true_r in Hd.
    pose proof (digit_val_range _ H1). pose proof (digit_val_range _ Hd). lia.
Qed.

Lemma field12_int a : field12 a -> py_int_of_str a = Ok (digits_value a).
Proof.
  intros [Hd Hl]. unfold py_int_of_str. rewrite Hd.
  destruct a; [destruct Hl; discriminate | reflexivity].
Qed.

(** A character of a plain numeral: a digit or the dot. *)
Definition plain (c : ascii) : bool := is_digit c || Ascii.eqb c dot.

Lemma plain_not_underscore c : plain c = true -> Ascii.eqb c underscore = false.
Proof. by_ascii c. Qed.

Lemma plain_not_space c : plain c = true -> is_space c = false.
Proof. by_ascii c. Qed.

Lemma digit_plain c : is_digit c = true -> plain c = true.
Proof. unfold plain. now intros ->. Qed.

Lemma digit_not_sign_char c :
  is_digit c = true ->
  Ascii.eqb c "-"%char = false /\ Ascii.eqb c "+"%char = false.
Proof. by_ascii c; auto. Qed.

Lemma digit_not_letter c :
  is_digit c = true ->
  Ascii.eqb (lower c) "i"%char = false /\ Ascii.eqb (lower c) "n"%char = false.
Proof. by_ascii c; auto. Qed.

Lemma digit_not_dot_char c : is_digit c = true -> Ascii.eqb c dot = false.
Proof. by_ascii c. Qed.

Lemma forallb_impl_ {A : Type} (p q : A -> bool) (l : list A) :
  (forall x, p x = true -> q x = true) ->
  forallb p l = true -> forallb q l = true.
Proof.
  intros H. induction l as [|x l IH]; simpl; [trivial|].
  intros E. apply andb_true_iff in E as [Hx Hl].
  now rewrite (H x Hx), (IH Hl).
Qed.

Lemma remove_underscores_plain prev s :
  Ascii.eqb prev underscore = false ->
  forallb plain s = true ->
  remove_underscores prev s = Some s.
Proof.
  revert prev. induction s as [|c s IH]; simpl; intros prev Hp Hs.
  - now rewrite Hp.
  - apply andb_true_iff in Hs as [Hc Hs].
    pose proof (plain_not_underscore c Hc) as Hu.
    rewrite Hu, Hp. simpl. now rewrite (IH c Hu Hs).
Qed.

Lemma drop_while_head p s :
  match s with c :: _ => p c = false | [] => True end -> drop_while p s = s.
Proof. destruct s as [|c s]; simpl; [trivial|]. now intros ->. Qed.

Lemma forallb_head_false (p q : ascii -> bool) s :
  (forall x, q x = true -> p x = false) ->
  forallb q s = true ->
  match s with c :: _ => p c = false | [] => True end.
Proof.
  intros H. destruct s as [|c s]; simpl; [trivial|].
  intros E. apply andb_true_iff in E as [Hc _]. auto.
Qed.

Lemma forallb_rev_ {A : Type} (p : A -> bool) (l : list A) :
  forallb p l = true -> forallb p (rev l) = true.
Proof.
  intros H. apply forallb_forall. intros x Hx.
  apply in_rev in Hx. rewrite forallb_forall in H. auto.
Qed.

Lemma strip_plain s : forallb plain s = true -> strip s = s.
Proof.
  intros H. unfold strip.
  rewrite (drop_while_head is_space s)
    by (apply (forallb_head_false _ plain); auto using plain_not_space).
  rewrite (drop_while_head is_space (rev s))
    by (apply (forallb_head_false _ plain);
        auto using plain_not_space, forallb_rev_).
  apply rev_involutive.
Qed.

(** The float that a plain numeral [ip.fp] denotes. *)
Definition numeral_value (ip fp : str) : float :=
  Float.of_decimal false (Z.to_N (digits_value (ip ++ fp)))
    (- Z.of_nat (length fp)).

Lemma fraction_plain fr fp : fraction fr fp -> forallb plain fr = true.
Proof.
  intros [Hfp [[-> ->] | ->]]; [reflexivity|].
  simpl. apply (forallb_impl_ is_digit plain); auto using digit_plain.
Qed.

Lemma float_of_numeral_plain ip fr fp :
  field12 ip -> fraction fr fp ->
  float_of_numeral (ip ++ fr) = Some (numeral_value ip fp).
Proof.
  intros [Hd Hl] [Hfp Hfr]. unfold float_of_numeral.
  destruct ip as [|d ip]; [destruct Hl; discriminate|].
  simpl in Hd. apply andb_true_iff in Hd as [H1 Hd].
  destruct (digit_not_sign_char d H1) as [Hm Hp].
  destruct (digit_not_letter d H1) as [Hi Hn].
  cbn [app split_sign]. rewrite Hm, Hp.
  cbn [map str_eqb lit list_ascii_of_string]. rewrite Hi, Hn.
  cbn [andb orb].
  assert (Hspan : span is_digit ((d :: ip) ++ fr) = (d :: ip, fr)).
  { apply span_app; [simpl; now rewrite H1|].
    destruct Hfr as [[-> _] | ->]; [trivial|]. reflexivity. }
  cbn [app] in Hspan. rewrite Hspan.
  unfold numeral_value.
  destruct Hfr as [[-> ->] | ->].
  - cbn [is_nil andb]. rewrite !app_nil_r. reflexivity.
  - replace (Ascii.eqb dot "."%char) with true by reflexivity.
    rewrite <- (app_nil_r fp) at 1. rewrite (span_app is_digit fp []) by auto.
    cbn [is_nil andb]. reflexivity.
Qed.

Lemma py_float_of_seconds ip fr fp :
  field12 ip -> fraction fr fp ->
  py_float_of_str (ip ++ fr) = Ok (numeral_value ip fp).
Proof.
  intros Hip Hfr. unfold py_float_of_str.
  assert (Hplain : forallb plain (ip ++ fr) = true).
  { rewrite forallb_app. rewrite (fraction_plain _ _ Hfr).
    destruct Hip as [Hd _].
    now rewrite (forallb_impl_ is_digit plain _ digit_plain Hd). }
  rewrite remove_underscores_plain by (auto; reflexivity).
  rewrite strip_plain by auto.
  now rewrite (float_of_numeral_plain _ _ _ Hip Hfr).
Qed.

(** ** The grammar of sexagesimal text

    [[sign]? A{1,2} [ :-hH] B{1,2} [ :-mM] C{1,2}[.C*]?] *)

Definition sign_opt (sg : str) : Prop :=
  sg = [] \/ exists c, sg = [c] /\ cls_mem sign_chars c = true.

Definition sexagesimal_grammar (u : str) : Prop :=
  exists sg a p1 b p2 ip fr fp,
    u = sg ++ a ++ p1 :: b ++ p2 :: ip ++ fr /\
    sign_opt sg /\ field12 a /\ cls_mem sep1_chars p1 = true /\
    field12 b /\ cls_mem sep2_chars p2 = true /\
    field12 ip /\ fraction fr fp.

(** The match is anchored at the start and may stop before the end. *)
Definition matches_grammar (s : str) : Prop :=
  exists u t, s = u ++ t /\ sexagesimal_grammar u.

Lemma take_sign_spec s sg r :
  take_sign s = (sg, r) -> s = sg ++ r /\ sign_opt sg.
Proof.
  unfold take_sign, sign_opt. destruct s as [|c s].
  - intros [= <- <-]. auto.
  - destruct (cls_mem sign_chars c) eqn:Hc; intros [= <- <-]; eauto.
Qed.

Lemma field12_head a :
  field12 a -> exists d a', a = d :: a' /\ is_digit d = true.
Proof.
  intros [Hd Hl]. destruct a as [|d a']; [destruct Hl; discriminate|].
  simpl in Hd. apply andb_true_iff in Hd as [H1 _]. eauto.
Qed.

Lemma take_sign_app sg a r :
  sign_opt sg -> field12 a -> take_sign (sg ++ a ++ r) = (sg, a ++ r).
Proof.
  intros Hsg Ha. destruct (field12_head a Ha) as (d & a' & -> & Hd).
  destruct Hsg as [-> | (c & -> & Hc)]; simpl.
  - now rewrite (digit_not_sign d Hd).
  - now rewrite Hc.
Qed.

Lemma not_digit_of_class k c :
  (forall d, is_digit d = true -> cls_mem k d = false) ->
  cls_mem k c = true -> is_digit c = false.
Proof.
  intros Hk Hc. destruct (is_digit c) eqn:E; [|reflexivity].
  rewrite (Hk c E) in Hc. discriminate.
Qed.

Lemma take_digits12_some a r :
  field12 a -> exists b r', take_digits12 (a ++ r) = Some (b, r').
Proof.
  intros Ha. destruct (field12_head a Ha) as (d & a' & -> & Hd).
  simpl. rewrite Hd.
  destruct (a' ++ r) as [|d2 s2]; [eauto|].
  destruct (is_digit d2); eauto.
Qed.

Lemma take_seconds_some ip r :
  field12 ip -> exists c r', take_seconds (ip ++ r) = Some (c, r').
Proof.
  intros Hip. unfold take_seconds.
  destruct (take_digits12_some ip r Hip) as (b & r0 & ->).
  destruct (take_fraction r0). eauto.
Qed.

Lemma scan_spec s sg a b c :
  scan s = Some (sg, a, b, c) ->
  exists p1 p2 ip fr fp r,
    s = sg ++ a ++ p1 :: b ++ p2 :: c ++ r /\ c = ip ++ fr /\
    sign_opt sg /\ field12 a /\ cls_mem sep1_chars p1 = true /\
    field12 b /\ cls_mem sep2_chars p2 = true /\
    field12 ip /\ fraction fr fp.
Proof.
  unfold scan.
  destruct (take_sign s) as [sg0 s0] eqn:E0.
  destruct (take_digits12 s0) as [[a0 s1]|] eqn:E1; [|discriminate].
  destruct (take_chr sep1_chars s1) as [s2|] eqn:E2; [|discriminate].
  destruct (take_digits12 s2) as [[b0 s3]|] eqn:E3; [|discriminate].
  destruct (take_chr sep2_chars s3) as [s4|] eqn:E4; [|discriminate].
  destruct (take_seconds s4) as [[c0 r]|] eqn:E5; [|discriminate].
  intros [= <- <- <- <-].
  destruct (take_sign_spec _ _ _ E0) as (-> & Hsg).
  destruct (take_digits12_spec _ _ _ E1) as (-> & Ha).
  destruct (take_chr_spec _ _ _ E2) as (p1 & -> & Hp1).
  destruct (take_digits12_spec _ _ _ E3) as (-> & Hb).
  destruct (take_chr_spec _ _ _ E4) as (p2 & -> & Hp2).
  destruct (take_seconds_spec _ _ _ E5) as (-> & ip & fr & fp & -> & Hip & Hfr).
  exists p1, p2, ip, fr, fp, r.
  repeat (split; [solve [auto] |]). exact Hfr.
Qed.

Lemma scan_sound s f : scan s = Some f -> matches_grammar s.
Proof.
  destruct f as [[[sg a] b] c]. intros H.
  destruct (scan_spec _ _ _ _ _ H)
    as (p1 & p2 & ip & fr & fp & r & -> & -> & Hsg & Ha & Hp1 & Hb & Hp2 & Hip & Hfr).
  exists (sg ++ a ++ p1 :: b ++ p2 :: ip ++ fr), r. split.
  - repeat (rewrite <- ?app_assoc; cbn [app]). reflexivity.
  - exists sg, a, p1, b, p2, ip, fr, fp.
    repeat (split; [solve [auto] |]). exact Hfr.
Qed.

Lemma scan_complete s : matches_grammar s -> exists f, scan s = Some f.
Proof.
  intros (u & t & -> & sg & a & p1 & b & p2 & ip & fr & fp &
          -> & Hsg & Ha & Hp1 & Hb & Hp2 & Hip & Hfr).
  unfold scan.
  repeat (rewrite <- ?app_assoc; cbn [app]).
  rewrite (take_sign_app sg a _ Hsg Ha).
  rewrite (take_digits12_app a p1 _ Ha
             (not_digit_of_class _ _ digit_not_sep1 Hp1)).
  cbn [take_chr]. rewrite Hp1.
  rewrite (take_digits12_app b p2 _ Hb
             (not_digit_of_class _ _ digit_not_sep2 Hp2)).
  cbn [take_chr]. rewrite Hp2.
  destruct (take_seconds_some ip (fr ++ t) Hip) as (c & r' & ->).
  eauto.
Qed.

(** ** [parse_sexagesimal] in terms of the scan *)

Definition parse_error (s : str) : exn :=
  ValueError (s ++ lit " can not be converted to decimal representation").

Definition sign_of (sg : str) : Z := if str_eqb sg (lit "-") then -1 else 1.

Lemma parse_sexagesimal_none s :
  scan s = None -> parse_sexagesimal s = Raise (parse_error s).
Proof.
  intros H. unfold parse_sexagesimal. now rewrite re_match_scan, H.
Qed.

Lemma parse_sexagesimal_some s sg a b ip fr fp :
  scan s = Some (sg, a, b, ip ++ fr) ->
  sign_opt sg -> field12 a -> field12 b -> field12 ip -> fraction fr fp ->
  parse_sexagesimal s =
  Ok (sign_of sg, digits_value a, digits_value b, numeral_value ip fp).
Proof.
  intros H Hsg Ha Hb Hip Hfr.
  unfold parse_sexagesimal. rewrite re_match_scan, H.
  pose proof (field12_int a Ha) as Ea.
  pose proof (field12_int b Hb) as Eb.
  pose proof (py_float_of_seconds ip fr fp Hip Hfr) as Ec.
  destruct Hsg as [-> | (x & -> & Hx)];
    cbv [option_map scan_captures sign_group app group String.eqb Ascii.eqb
         Bool.eqb group_is int_of_group float_of_group];
    fold (@app ascii); rewrite Ea, Eb, Ec; reflexivity.
Qed.

Lemma scan_none s : ~ matches_grammar s -> scan s = None.
Proof.
  intros H. destruct (scan s) as [f|] eqn:E; [|reflexivity].
  elim H. exact (scan_sound s f E).
Qed.

(** Once sign, fields and separators are read, only the seconds remain. *)
Lemma scan_fields sg a p1 b p2 rest :
  sign_opt sg -> field12 a -> cls_mem sep1_chars p1 = true ->
  field12 b -> cls_mem sep2_chars p2 = true ->
  scan (sg ++ a ++ p1 :: b ++ p2 :: rest) =
  match take_seconds rest with
  | Some (c, _) => Some (sg, a, b, c)
  | None => None
  end.
Proof.
  intros Hsg Ha Hp1 Hb Hp2. unfold scan.
  rewrite (take_sign_app sg a _ Hsg Ha).
  rewrite (take_digits12_app a p1 _ Ha
             (not_digit_of_class _ _ digit_not_sep1 Hp1)).
  cbn [take_chr]. rewrite Hp1.
  rewrite (take_digits12_app b p2 _ Hb
             (not_digit_of_class _ _ digit_not_sep2 Hp2)).
  cbn [take_chr]. rewrite Hp2. reflexivity.
Qed.

(** ** Text appended after a match *)

(** [t] cannot extend a numeral: it is empty or starts with a character
    that is neither a digit nor the dot. *)
Definition no_numeral_head (t : str) : Prop :=
  match t with
  | c :: _ => plain c = false
  | [] => True
  end.

Lemma no_numeral_head_digit t :
  no_numeral_head t ->
  match t with c :: _ => is_digit c = false | [] => True end.
Proof.
  destruct t as [|c t]; simpl; [trivial|].
  unfold plain. intros H. now apply orb_false_iff in H.
Qed.

Lemma no_numeral_head_dot t :
  no_numeral_head t ->
  match t with c :: _ => Ascii.eqb c dot = false | [] => True end.
Proof.
  destruct t as [|c t]; simpl; [trivial|].
  unfold plain. intros H. now apply orb_false_iff in H.
Qed.

Lemma span_append p s a r t :
  span p s = (a, r) ->
  match t with c :: _ => p c = false | [] => True end ->
  span p (s ++ t) = (a, r ++ t).
Proof.
  intros H Ht. destruct (span_spec _ _ _ _ H) as (-> & Ha & Hr).
  rewrite <- app_assoc. apply span_app; [exact Ha|].
  destruct r as [|c r]; [exact Ht | exact Hr].
Qed.

Lemma take_digits12_append s a r t :
  take_digits12 s = Some (a, r) ->
  match t with c :: _ => is_digit c = false | [] => True end ->
  take_digits12 (s ++ t) = Some (a, r ++ t).
Proof.
  unfold take_digits12. destruct s as [|d1 s1]; [discriminate|].
  cbn [app]. destruct (is_digit d1); [|discriminate].
  destruct s1 as [|d2 s2].
  - intros [= <- <-] Ht. destruct t as [|c t]; [reflexivity|].
    cbn [app]. now rewrite Ht.
  - cbn [app]. destruct (is_digit d2); intros [= <- <-] _; reflexivity.
Qed.

Lemma take_fraction_append s fr r t :
  take_fraction s = (fr, r) -> no_numeral_head t ->
  take_fraction (s ++ t) = (fr, r ++ t).
Proof.
  intros H Ht. unfold take_fraction in *. destruct s as [|c s].
  - injection H as <- <-. cbn [app].
    destruct t as [|c t]; [reflexivity|].
    now rewrite (no_numeral_head_dot _ Ht).
  - cbn [app]. destruct (Ascii.eqb c dot).
    + destruct (span is_digit s) as [fp r'] eqn:E. injection H as <- <-.
      now rewrite (span_append _ _ _ _ t E (no_numeral_head_digit _ Ht)).
    + injection H as <- <-. reflexivity.
Qed.

Lemma take_seconds_append s c r t :
  take_seconds s = Some (c, r) -> no_numeral_head t ->
  take_seconds (s ++ t) = Some (c, r ++ t).
Proof.
  unfold take_seconds. intros H Ht.
  destruct (take_digits12 s) as [[ip r0]|] eqn:E; [|discriminate].
  destruct (take_fraction r0) as [fr r'] eqn:F. injection H as <- <-.
  rewrite (take_digits12_append _ _ _ t E (no_numeral_head_digit _ Ht)).
  now rewrite (take_fraction_append _ _ _ t F Ht).
Qed.

(** A match survives any appended text, with the same sign, [A] and [B];
    the seconds are the same too when the text cannot extend them. *)
Lemma scan_append s sg a b c t :
  scan s = Some (sg, a, b, c) ->
  exists c', scan (s ++ t) = Some (sg, a, b, c') /\
             (no_numeral_head t -> c' = c).
Proof.
  intros H.
  destruct (scan_spec _ _ _ _ _ H)
    as (p1 & p2 & ip & fr & fp & r & Es & Ec & Hsg & Ha & Hp1 & Hb & Hp2 & Hip & Hfr).
  assert (Hc : take_seconds (c ++ r) = Some (c, r)).
  { rewrite Es in H. rewrite (scan_fields _ _ _ _ _ _ Hsg Ha Hp1 Hb Hp2) in H.
    destruct (take_seconds (c ++ r)) as [[c0 r0]|] eqn:E; [|discriminate].
    injection H as ->.
    destruct (take_seconds_spec _ _ _ E) as (E' & _).
    apply app_inv_head in E'. now subst r0. }
  subst s. repeat (rewrite <- ?app_assoc; cbn [app]).
  rewrite (scan_fields _ _ _ _ _ _ Hsg Ha Hp1 Hb Hp2).
  subst c. rewrite <- app_assoc in Hc |- *.
  destruct (take_seconds_some ip (fr ++ r ++ t) Hip) as (c' & r' & E').
  rewrite E'. exists c'. split; [reflexivity|].
  intros Ht. pose proof (take_seconds_append _ _ _ t Hc Ht) as E2.
  rewrite <- !app_assoc in E2. rewrite E2 in E'. now injection E' as <- _.
Qed.

Lemma parse_sexagesimal_ok s sg a b c :
  scan s = Some (sg, a, b, c) ->
  exists ip fr fp,
    c = ip ++ fr /\ field12 a /\ field12 b /\ field12 ip /\ fraction fr fp /\
    parse_sexagesimal s =
    Ok (sign_of sg, digits_value a, digits_value b, numeral_value ip fp).
Proof.
  intros H.
  destruct (scan_spec _ _ _ _ _ H)
    as (p1 & p2 & ip & fr & fp & r & Es & Ec & Hsg & Ha & Hp1 & Hb & Hp2 & Hip & Hfr).
  exists ip, fr, fp. subst c.
  repeat (split; [solve [auto] |]).
  now apply (parse_sexagesimal_some s sg a b ip fr fp).
Qed.

Lemma parse_sexagesimal_cases s :
  (scan s = None /\ parse_sexagesimal s = Raise (parse_error s)) \/
  (exists f q, scan s = Some f /\ parse_sexagesimal s = Ok q).
Proof.
  destruct (scan s) as [[[[sg a] b] c]|] eqn:E.
  - right. destruct (parse_sexagesimal_ok _ _ _ _ _ E)
      as (ip & fr & fp & _ & _ & _ & _ & _ & Hp).
    eauto.
  - left. split; [reflexivity|]. now apply parse_sexagesimal_none.
Qed.

(** [float] on text either returns or raises [ValueError]. *)
Lemma py_float_of_str_cases s :
  (exists x, py_float_of_str s = Ok x) \/
  (exists msg, py_float_of_str s = Raise (ValueError msg)).
Proof.
  unfold py_float_of_str.
  destruct (remove_underscores Ascii.zero s) as [s1|]; [|right; eauto].
  destruct (float_of_numeral (strip s1)); [left | right]; eauto.
Qed.

(** The blanks of [float] at the edge: a text with the separator FS
    (code 28) in front is refused, by [float] and then by the pattern,
    while the blank U+00A0 in front and U+0085 behind are dropped. *)
Lemma float_blanks_at_the_edge :
  py_float_of_str (ascii_of_N 28 :: lit "1.5")
    = Raise (ValueError (lit "could not convert string to float: "
                         ++ ascii_of_N 28 :: lit "1.5")) /\
  py_float_of_str (ascii_of_N 160 :: lit "1.5" ++ [ascii_of_N 133])
    = Ok (Float.of_decimal false 15 (-1)).
Proof. split; vm_compute; reflexivity. Qed.

(** A precision above [INT_MAX] is refused, whatever the float. *)
Lemma format_06f_precision_too_big x p :
  INT_MAX < p -> exists msg, format_06f x p = Raise (ValueError msg).
Proof.
  intros Hp. unfold format_06f.
  replace (p <? 0) with false
    by (symmetry; apply Z.ltb_ge; unfold INT_MAX in Hp; lia).
  destruct (PY_SSIZE_T_MAX <? p); [eauto|].
  replace (INT_MAX <? p) with true by (symmetry; now apply Z.ltb_lt).
  eauto.
Qed.

(** The value in hours or degrees of a quadruple, as both converters
    compute it. *)
Definition quadruple_value (q : quadruple) : float :=
  let '(sign, a, m, s) := q in
  (i2f sign * ((((s / i2f 60) + i2f m) / i2f 60) + i2f a))%float.

Lemma hourangle_number s v :
  py_float_of_str s = Ok v -> hourangle_to_decimal_deg s = Ok (py_round v 6).
Proof. intros H. unfold hourangle_to_decimal_deg. now rewrite H. Qed.

Lemma deg_number s v :
  py_float_of_str s = Ok v -> deg_to_decimal_deg s = Ok (py_round v 6).
Proof. intros H. unfold deg_to_decimal_deg. now rewrite H. Qed.

Lemma hourangle_text s msg :
  py_float_of_str s = Raise (ValueError msg) ->
  hourangle_to_decimal_deg s =
  q <- parse_sexagesimal s ;;
  Ok (py_round (quadruple_value q / i2f 24 * i2f 360)%float 6).
Proof.
  intros H. unfold hourangle_to_decimal_deg. rewrite H.
  cbn [try_except_ValueError].
  destruct (parse_sexagesimal s) as [[[[sign a] m] x]|e]; reflexivity.
Qed.

Lemma deg_text s msg :
  py_float_of_str s = Raise (ValueError msg) ->
  deg_to_decimal_deg s =
  q <- parse_sexagesimal s ;; Ok (py_round (quadruple_value q) 6).
Proof.
  intros H. unfold deg_to_decimal_deg. rewrite H.
  cbn [try_except_ValueError].
  destruct (parse_sexagesimal s) as [[[[sign a] m] x]|e]; reflexivity.
Qed.

(** ** Rounding to binary64: bounds that survive

    The exact value of a finite float [S754_finite s m e] is
    [(-1)^s * m * 2^e]. The facts below compare that value with an
    integer, which needs integer arithmetic only. *)

Definition fexp64 (x : Z) : Z := fexp Float.prec Float.emax x.

Lemma fexp64_eq x : fexp64 x = Z.max (x - 53) (-1074).
Proof. reflexivity. Qed.

(** The value of [x] is at least [0] and at most the integer [n]. *)
Definition value_in_0 (x : float) (n : Z) : Prop :=
  match x with
  | S754_zero _ => 0 <= n
  | S754_finite s m e => s = false /\ e <= 0 /\ Zpos m <= n * 2 ^ (- e)
  | _ => False
  end.

Lemma iter_pos_nat {A : Type} (f : A -> A) p x :
  iter_pos f p x = Nat.iter (Pos.to_nat p) f x.
Proof.
  revert x. induction p as [p IH|p IH|]; intros x; cbn [iter_pos].
  - rewrite !IH, Pos2Nat.inj_xI.
    rewrite <- Nat.iter_succ_r, <- Nat.iter_add. f_equal. lia.
  - rewrite !IH, Pos2Nat.inj_xO, <- Nat.iter_add. f_equal. lia.
  - reflexivity.
Qed.

Lemma shr_1_m mrs : 0 <= shr_m mrs -> shr_m (shr_1 mrs) = shr_m mrs / 2.
Proof.
  destruct mrs as [m r s]. simpl. intros Hm.
  rewrite <- Z.div2_div.
  destruct m as [|[p|p|]|p]; try reflexivity. lia.
Qed.

Lemma shr_iter_m n mrs :
  0 <= shr_m mrs ->
  shr_m (Nat.iter n shr_1 mrs) = shr_m mrs / 2 ^ Z.of_nat n.
Proof.
  intros Hm. induction n as [|n IH].
  - simpl. now rewrite Z.div_1_r.
  - assert (Hp : 0 < 2 ^ Z.of_nat n) by (apply Z.pow_pos_nonneg; lia).
    rewrite Nat2Z.inj_succ, Z.pow_succ_r by lia.
    change (Nat.iter (S n) shr_1 mrs) with (shr_1 (Nat.iter n shr_1 mrs)).
    rewrite shr_1_m.
    + rewrite IH, Z.div_div by lia. f_equal. lia.
    + rewrite IH. apply Z.div_pos; lia.
Qed.

Lemma shr_spec mrs e n :
  0 <= shr_m mrs ->
  exists mrs',
    shr mrs e n = (mrs', e + Z.max 0 n) /\
    shr_m mrs' = shr_m mrs / 2 ^ Z.max 0 n.
Proof.
  intros Hm. destruct n as [|p|p]; simpl.
  - exists mrs. rewrite Z.add_0_r, Z.div_1_r. auto.
  - exists (iter_pos shr_1 p mrs). split; [reflexivity|].
    rewrite iter_pos_nat, shr_iter_m by exact Hm.
    now rewrite positive_nat_Z.
  - exists mrs. rewrite Z.add_0_r, Z.div_1_r. auto.
Qed.

Lemma shr_record_of_loc_m m l : shr_m (shr_record_of_loc m l) = m.
Proof. destruct l as [|[ | | ]]; reflexivity. Qed.

Lemma digits2_bound p k :
  0 <= k -> Zpos p < 2 ^ k -> Zpos (digits2_pos p) <= k.
Proof.
  revert k. induction p as [p IH|p IH|]; intros k Hk H; simpl.
  - assert (k = 0 \/ 0 < k) as [-> | Hpos] by lia; [simpl in H; lia|].
    replace k with (Z.succ (k - 1)) in H by lia.
    rewrite Z.pow_succ_r in H by lia.
    rewrite Pos2Z.inj_succ. specialize (IH (k - 1)). lia.
  - assert (k = 0 \/ 0 < k) as [-> | Hpos] by lia; [simpl in H; lia|].
    replace k with (Z.succ (k - 1)) in H by lia.
    rewrite Z.pow_succ_r in H by lia.
    rewrite Pos2Z.inj_succ. specialize (IH (k - 1)). lia.
  - assert (k = 0 \/ 0 < k) as [-> | Hpos] by lia; [simpl in H; lia|]. lia.
Qed.

Lemma Zdigits2_bound m k : 0 <= m -> 0 <= k -> m < 2 ^ k -> Zdigits2 m <= k.
Proof.
  intros Hm Hk H. destruct m as [|p|p]; simpl; [lia| |lia].
  now apply digits2_bound.
Qed.

(** Below [2^53] the rounding exponent never exceeds [0]. *)
Lemma fexp64_small m e :
  0 <= m -> e <= 0 -> m < 2 ^ (53 - e) -> fexp64 (Zdigits2 m + e) <= 0.
Proof.
  intros Hm He H. rewrite fexp64_eq.
  pose proof (Zdigits2_bound m (53 - e) Hm ltac:(lia) H). lia.
Qed.

Lemma round_nearest_even_range m l :
  m <= round_nearest_even m l <= m + 1.
Proof.
  destruct l as [|[ | | ]]; simpl; try lia. destruct (Z.even m); lia.
Qed.

Lemma pow2_split a b : 0 <= a -> 0 <= b -> 2 ^ (a + b) = 2 ^ a * 2 ^ b.
Proof. intros. now rewrite Z.pow_add_r. Qed.

(** One shift of [shr_fexp]: the mantissa stays under the bound. *)
Lemma shr_fexp_bound m e l B :
  0 <= m -> e <= 0 -> 0 < B < 2 ^ 53 -> m <= B * 2 ^ (- e) ->
  exists mrs' e',
    shr_fexp Float.prec Float.emax m e l = (mrs', e') /\
    e <= e' <= 0 /\ shr_m mrs' = m / 2 ^ (e' - e) /\
    0 <= shr_m mrs' <= B * 2 ^ (- e').
Proof.
  intros Hm He HB Hle. unfold shr_fexp.
  fold (fexp64 (Zdigits2 m + e)).
  set (n := fexp64 (Zdigits2 m + e) - e).
  destruct (shr_spec (shr_record_of_loc m l) e n) as (mrs' & E & Em).
  { now rewrite shr_record_of_loc_m. }
  rewrite shr_record_of_loc_m in Em.
  exists mrs', (e + Z.max 0 n). split; [exact E|].
  assert (Hsmall : fexp64 (Zdigits2 m + e) <= 0).
  { apply fexp64_small; try lia.
    replace (53 - e) with (53 + - e) by lia.
    rewrite pow2_split by lia.
    assert (0 < 2 ^ (- e)) by (apply Z.pow_pos_nonneg; lia). nia. }
  assert (He' : e <= e + Z.max 0 n <= 0) by lia.
  replace (e + Z.max 0 n - e) with (Z.max 0 n) by lia.
  split; [exact He'|]. split; [exact Em|]. rewrite Em.
  assert (Hp : 0 < 2 ^ Z.max 0 n) by (apply Z.pow_pos_nonneg; lia).
  split; [apply Z.div_pos; lia|].
  apply Z.div_le_upper_bound; [exact Hp|].
  replace (- e) with (Z.max 0 n + - (e + Z.max 0 n)) in Hle by lia.
  rewrite pow2_split in Hle by lia. lia.
Qed.

(** Rounding a value below the integer [B] gives a finite float of the
    requested sign whose value is at most [B]. *)
Lemma binary_round_aux_bound s m e l B :
  0 <= m -> e <= 0 -> 0 < B < 2 ^ 53 -> m < B * 2 ^ (- e) ->
  match binary_round_aux Float.prec Float.emax s m e l with
  | S754_zero s' => s' = s
  | S754_finite s' m' e' => s' = s /\ e' <= 0 /\ Zpos m' <= B * 2 ^ (- e')
  | _ => False
  end.
Proof.
  intros Hm He HB Hlt. unfold binary_round_aux.
  destruct (shr_fexp_bound m e l B Hm He HB ltac:(lia))
    as (mrs1 & e1 & -> & He1 & Em1 & Hm1).
  assert (Hlt1 : shr_m mrs1 < B * 2 ^ (- e1)).
  { rewrite Em1.
    assert (Hp : 0 < 2 ^ (e1 - e)) by (apply Z.pow_pos_nonneg; lia).
    apply Z.div_lt_upper_bound; [exact Hp|].
    replace (- e) with ((e1 - e) + - e1) in Hlt by lia.
    rewrite pow2_split in Hlt by lia. lia. }
  pose proof (round_nearest_even_range (shr_m mrs1) (loc_of_shr_record mrs1))
    as Hr.
  set (m2 := round_nearest_even (shr_m mrs1) (loc_of_shr_record mrs1)) in *.
  destruct (shr_fexp_bound m2 e1 loc_Exact B ltac:(lia) ltac:(lia) HB ltac:(lia))
    as (mrs2 & e2 & -> & He2 & Em2 & Hm2).
  destruct (shr_m mrs2) as [|p|p] eqn:E; [reflexivity| |lia].
  replace (e2 <=? Float.emax - Float.prec) with true
    by (symmetry; apply Z.leb_le; unfold Float.emax, Float.prec; lia).
  repeat split; lia.
Qed.

Lemma shl_align_spec mx ex ex' :
  exists m' e',
    shl_align mx ex ex' = (m', e') /\ e' <= ex /\
    Zpos m' = Zpos mx * 2 ^ (ex - e').
Proof.
  unfold shl_align. destruct (ex' - ex) as [|d|d] eqn:E.
  - exists mx, ex. rewrite Z.sub_diag. split; [reflexivity|]. lia.
  - exists mx, ex. rewrite Z.sub_diag. split; [reflexivity|]. lia.
  - exists (Pos.iter xO mx d), ex'. split; [reflexivity|]. split; [lia|].
    change (Pos.iter xO mx d) with (shift_pos d mx).
    rewrite shift_pos_correct, Z.pow_pos_fold.
    replace (ex - ex') with (Zpos d) by lia. lia.
Qed.

(** An integer below [B] converts to a float of value at most [B]. *)
Lemma binary_round_bound p B :
  0 < B < 2 ^ 53 -> Zpos p < B ->
  value_in_0 (binary_round Float.prec Float.emax false p 0) B.
Proof.
  intros HB Hp. unfold binary_round.
  fold (fexp64 (Zpos (digits2_pos p) + 0)).
  destruct (shl_align_spec p 0 (fexp64 (Zpos (digits2_pos p) + 0)))
    as (mz & ez & -> & Hez & Emz).
  assert (Hpow : 0 < 2 ^ (0 - ez)) by (apply Z.pow_pos_nonneg; lia).
  pose proof (binary_round_aux_bound false (Zpos mz) ez loc_Exact B
                ltac:(lia) Hez HB) as H.
  replace (- ez) with (0 - ez) in H by lia.
  specialize (H ltac:(nia)).
  destruct (binary_round_aux _ _ _ _ _ _) as [s'|s'| |s' m' e'];
    simpl; try contradiction; [lia | exact H].
Qed.

(** A quotient [n / d] below [B] converts to a float of value at most [B]. *)
Lemma SFdiv_bound n d B :
  0 < B < 2 ^ 53 -> Zpos n < B * Zpos d ->
  value_in_0 (SFdiv Float.prec Float.emax
                (S754_finite false n 0) (S754_finite false d 0)) B.
Proof.
  intros HB Hn. unfold SFdiv, SFdiv_core_binary.
  set (e' := Z.min _ _).
  assert (He' : e' <= 0) by (unfold e'; lia).
  set (sh := 0 - 0 - e').
  set (m' := match sh with
             | 0 => Zpos n
             | Zpos _ => Z.shiftl (Zpos n) sh
             | Zneg _ => 0
             end).
  assert (Em' : m' = Zpos n * 2 ^ (- e')).
  { unfold m'. replace (- e') with sh by (unfold sh; lia).
    destruct sh as [|q|q] eqn:E.
    - simpl. lia.
    - rewrite Z.shiftl_mul_pow2 by lia. reflexivity.
    - unfold sh in E. lia. }
  assert (Hpow : 0 < 2 ^ (- e')) by (apply Z.pow_pos_nonneg; lia).
  pose proof (Z.div_eucl_eq m' (Zpos d) ltac:(lia)) as Hdiv.
  pose proof (Z.mod_pos_bound m' (Zpos d) ltac:(lia)) as Hmod.
  unfold Z.modulo in Hmod.
  destruct (Z.div_eucl m' (Zpos d)) as [q r].
  assert (Hq : 0 <= q < B * 2 ^ (- e')) by nia.
  pose proof (binary_round_aux_bound (xorb false false) q e'
                (new_location (Zpos d) r) B ltac:(lia) He' HB ltac:(lia)) as H.
  destruct (binary_round_aux _ _ _ _ _ _) as [s'|s'| |s' m1 e1];
    simpl; try contradiction; [lia | exact H].
Qed.

Lemma of_decimal_bound n k B :
  0 < B < 2 ^ 53 -> 0 <= k -> Z.of_N n < B * 10 ^ k ->
  value_in_0 (Float.of_decimal false n (- k)) B.
Proof.
  intros HB Hk Hn. unfold Float.of_decimal.
  destruct n as [|p]; [simpl; lia|].
  assert (Hten : 0 < 10 ^ k) by (apply Z.pow_pos_nonneg; lia).
  destruct (0 <=? - k) eqn:E.
  - apply Z.leb_le in E. assert (k = 0) as -> by lia.
    change (- 0) with 0. rewrite Z.pow_0_r, Z.mul_1_r in *.
    cbn [cond_Zopp binary_normalize].
    apply binary_round_bound; [exact HB | exact Hn].
  - rewrite Z.opp_involutive.
    apply SFdiv_bound; [exact HB|].
    rewrite Z2Pos.id by exact Hten. exact Hn.
Qed.

(** ** The value of a run of digits *)

Lemma digits_value_acc s acc :
  fold_left (fun a c => 10 * a + digit_val c) s acc
  = acc * 10 ^ Z.of_nat (length s) + digits_value s.
Proof.
  unfold digits_value. revert acc. induction s as [|c s IH]; intros acc.
  - simpl. lia.
  - cbn [fold_left length]. rewrite IH, (IH (10 * 0 + digit_val c)).
    rewrite Nat2Z.inj_succ, Z.pow_succ_r by lia. lia.
Qed.

Lemma digits_value_app a b :
  digits_value (a ++ b)
  = digits_value a * 10 ^ Z.of_nat (length b) + digits_value b.
Proof.
  unfold digits_value at 1. rewrite fold_left_app.
  fold (digits_value a). apply digits_value_acc.
Qed.

Lemma digits_value_bound s :
  forallb is_digit s = true ->
  0 <= digits_value s < 10 ^ Z.of_nat (length s).
Proof.
  induction s as [|c s IH] using rev_ind; intros H.
  - simpl. unfold digits_value. simpl. lia.
  - rewrite forallb_app in H. apply andb_true_iff in H as [Hs Hc].
    simpl in Hc. rewrite andb_true_r in Hc.
    rewrite digits_value_app, length_app, Nat2Z.inj_add.
    cbn [length]. change (Z.of_nat 1) with 1.
    rewrite Z.pow_add_r, Z.pow_1_r by lia.
    replace (digits_value [c]) with (digit_val c)
      by (unfold digits_value; cbn [fold_left]; lia).
    pose proof (digit_val_range c Hc). specialize (IH Hs). lia.
Qed.

(** The seconds of a match are a float of value between [0] and [100]. *)
Lemma numeral_value_bound ip fr fp :
  field12 ip -> fraction fr fp -> value_in_0 (numeral_value ip fp) 100.
Proof.
  intros Hip [Hfp _]. unfold numeral_value.
  pose proof (field12_value ip Hip) as Hv.
  pose proof (digits_value_bound fp Hfp) as Hf.
  apply of_decimal_bound; [split; [lia | reflexivity] | lia |].
  rewrite Z2N.id by (rewrite digits_value_app; nia).
  rewrite digits_value_app. nia.
Qed.

(** * The claims *)

(** ** C1: the two converters from text *)

(** The conversion as the claim words it: the value of the quadruple is
    multiplied by a factor [k]. *)
Definition claimed_decimal (k : float) (value : str) : result float :=
  match py_float_of_str value with
  | Ok v => Ok (py_round v 6)
  | Raise _ =>
      q <- parse_sexagesimal value ;;
      Ok (py_round (quadruple_value q * k)%float 6)
  end.

(** The conversion that the code performs: [scale] is applied to the value
    of the quadruple. *)
Definition decimal_of (scale : float -> float) (value : str) : result float :=
  match py_float_of_str value with
  | Ok v => Ok (py_round v 6)
  | Raise _ =>
      q <- parse_sexagesimal value ;; Ok (py_round (scale (quadruple_value q)) 6)
  end.

Definition hours_to_degrees (x : float) : float := (x / i2f 24 * i2f 360)%float.

Definition unscaled (x : float) : float := x.

(** C1, counterexample. On ["7:51:23.061"] the hour-angle converter returns
    117.846087, but the value of the quadruple multiplied by [k = 360/24]
    and rounded to 6 places is 117.846088: dividing by 24 and then
    multiplying by 360 rounds differently from multiplying by 15. *)
Lemma hourangle_not_times_k :
  hourangle_to_decimal_deg (lit "7:51:23.061")
    = Ok (Float.of_decimal false 117846087 (-6)) /\
  claimed_decimal (i2f 360 / i2f 24)%float (lit "7:51:23.061")
    = Ok (Float.of_decimal false 117846088 (-6)) /\
  hourangle_to_decimal_deg (lit "7:51:23.061")
    <> claimed_decimal (i2f 360 / i2f 24)%float (lit "7:51:23.061").
Proof.
  split; [vm_compute; reflexivity|].
  split; [vm_compute; reflexivity|].
  vm_compute. discriminate.
Qed.

(** C1, amended. Both converters first read the text as a number and, when
    that succeeds, return it rounded to 6 places without scaling. Otherwise
    the text is parsed as a quadruple [(sign, A, B, C)] whose value
    [sign * (((C/60 + B)/60) + A)] is rounded to 6 places, after being
    divided by 24 and then multiplied by 360 in the hour-angle converter,
    and as it is in the degree converter. So ["12:00:00"] gives 180.0 in
    hour-angle mode and ["-45:30:00"] gives -45.5 in degree mode. *)
Theorem to_decimal_formula (s : str) :
  hourangle_to_decimal_deg s = decimal_of hours_to_degrees s /\
  deg_to_decimal_deg s = decimal_of unscaled s /\
  ra_to_decimal (lit "12:00:00") = Ok (i2f 180) /\
  dec_to_decimal (lit "-45:30:00") = Ok (Float.of_decimal true 455 (-1)).
Proof.
  split; [|split; [|split; vm_compute; reflexivity]].
  - unfold decimal_of.
    destruct (py_float_of_str_cases s) as [[v H] | [msg H]].
    + rewrite H. now apply hourangle_number.
    + rewrite H. now apply (hourangle_text s msg).
  - unfold decimal_of.
    destruct (py_float_of_str_cases s) as [[v H] | [msg H]].
    + rewrite H. now apply deg_number.
    + rewrite H. now apply (deg_text s msg).
Qed.

(** ** C3: when the converters raise *)

Definition readable_as_number (s : str) : Prop :=
  exists x, py_float_of_str s = Ok x.

Lemma to_decimal_raise s :
  ~ readable_as_number s -> ~ matches_grammar s ->
  hourangle_to_decimal_deg s = Raise (parse_error s) /\
  deg_to_decimal_deg s = Raise (parse_error s).
Proof.
  intros Hn Hg.
  destruct (py_float_of_str_cases s) as [[v H] | [msg H]].
  { elim Hn. now exists v. }
  rewrite (hourangle_text s msg H), (deg_text s msg H).
  rewrite (parse_sexagesimal_none s (scan_none s Hg)). auto.
Qed.

Lemma to_decimal_return s :
  readable_as_number s \/ matches_grammar s ->
  (exists x, hourangle_to_decimal_deg s = Ok x) /\
  (exists y, deg_to_decimal_deg s = Ok y).
Proof.
  intros Hs.
  destruct (py_float_of_str_cases s) as [[v H] | [msg H]].
  { rewrite (hourangle_number s v H), (deg_number s v H). eauto. }
  destruct Hs as [[x Hx] | Hg]; [congruence|].
  destruct (scan_complete s Hg) as [[[[sg a] b] c] Hf].
  destruct (parse_sexagesimal_ok _ _ _ _ _ Hf)
    as (ip & fr & fp & _ & _ & _ & _ & _ & Hp).
  rewrite (hourangle_text s msg H), (deg_text s msg H), Hp.
  cbn [bind]. eauto.
Qed.

(** C3. [ra_to_decimal] and [dec_to_decimal] raise exactly when the text
    is neither readable as a number nor matched by the sexagesimal
    grammar; the exception is the [ValueError] whose message starts with
    the offending text; on every other text they return a float. *)
Theorem to_decimal_raises_iff (s : str) :
  (~ readable_as_number s /\ ~ matches_grammar s ->
   ra_to_decimal s
     = Raise (ValueError
                (s ++ lit " can not be converted to decimal representation")) /\
   dec_to_decimal s
     = Raise (ValueError
                (s ++ lit " can not be converted to decimal representation"))) /\
  (readable_as_number s \/ matches_grammar s ->
   (exists x, ra_to_decimal s = Ok x) /\ (exists y, dec_to_decimal s = Ok y)).
Proof.
  split.
  - intros [Hn Hg]. exact (to_decimal_raise s Hn Hg).
  - exact (to_decimal_return s).
Qed.

Lemma to_decimal_raises_iff_witness :
  ra_to_decimal (lit "not-an-angle")
    = Raise (ValueError
               (lit "not-an-angle" ++
                lit " can not be converted to decimal representation")) /\
  exists x, ra_to_decimal (lit "-45:30:00") = Ok x.
Proof.
  split.
  - apply (proj1 (to_decimal_raises_iff (lit "not-an-angle"))). split.
    + intros [x H]. vm_compute in H. discriminate.
    + intros Hg. destruct (scan_complete _ Hg) as [f Hf].
      vm_compute in Hf. discriminate.
  - apply (proj2 (to_decimal_raises_iff (lit "-45:30:00"))). right.
    apply (scan_sound _ (lit "-", lit "45", lit "30", lit "00")).
    vm_compute. reflexivity.
Defined.

(** ** C5: the quadruple that parsing returns *)

(** The quadruple of the data model: sign [+1] or [-1], [A >= 0],
    [B] in [[0, 59]] and [C] in [[0, 60)]. *)
Definition spec_quadruple (q : quadruple) : Prop :=
  let '(sign, a, b, c) := q in
  (sign = 1 \/ sign = -1) /\ 0 <= a /\ 0 <= b <= 59 /\
  Float.ltb c (i2f 0) = false /\ Float.ltb c (i2f 60) = true.

(** C5, counterexample. ["10:99:99"] parses to [(1, 10, 99, 99.0)]: the
    pattern bounds the number of digits of a field, not its value. *)
Lemma parse_sexagesimal_out_of_range :
  parse_sexagesimal (lit "10:99:99") = Ok (1, 10, 99, i2f 99) /\
  ~ spec_quadruple (1, 10, 99, i2f 99).
Proof.
  split; [vm_compute; reflexivity|].
  intros (_ & _ & Hb & _). lia.
Qed.

(** C5, amended. Every quadruple [(sign, A, B, C)] that
    [parse_sexagesimal] returns has [sign] equal to [+1] or [-1], [A] and
    [B] integers in [[0, 99]], and [C] a float whose value lies in
    [[0, 100]]. *)
Theorem parse_sexagesimal_range (s : str) (sign a b : Z) (c : float) :
  parse_sexagesimal s = Ok (sign, a, b, c) ->
  (sign = 1 \/ sign = -1) /\ 0 <= a <= 99 /\ 0 <= b <= 99 /\
  value_in_0 c 100.
Proof.
  intros H.
  destruct (parse_sexagesimal_cases s) as [[_ E] | (f & q & Hf & _)];
    [congruence|].
  destruct f as [[[sg fa] fb] fc].
  destruct (parse_sexagesimal_ok _ _ _ _ _ Hf)
    as (ip & fr & fp & _ & Ha & Hb & Hip & Hfr & Hp).
  rewrite Hp in H. injection H as <- <- <- <-.
  split; [|split; [|split]].
  - unfold sign_of. destruct (str_eqb sg (lit "-")); auto.
  - exact (field12_value fa Ha).
  - exact (field12_value fb Hb).
  - exact (numeral_value_bound ip fr fp Hip Hfr).
Qed.

Lemma parse_sexagesimal_range_witness :
  (1 = 1 \/ 1 = -1) /\ 0 <= 10 <= 99 /\ 0 <= 99 <= 99 /\
  value_in_0 (i2f 99) 100.
Proof.
  apply (parse_sexagesimal_range (lit "10:99:99") 1 10 99 (i2f 99)).
  vm_compute. reflexivity.
Defined.

(** ** C8: text after a match *)

(** C8, counterexample. ["1:2:3"] is matched by the grammar and parses to
    seconds 3.0; with the suffix ["4"] the greedy seconds field reads
    ["34"], so the quadruple changes. *)
Lemma parse_sexagesimal_suffix_changes :
  ~ (forall s t : str,
       matches_grammar s -> parse_sexagesimal (s ++ t) = parse_sexagesimal s).
Proof.
  intros H.
  specialize (H (lit "1:2:3") (lit "4")).
  assert (Hg : matches_grammar (lit "1:2:3")).
  { apply (scan_sound _ ([], lit "1", lit "2", lit "3")).
    vm_compute. reflexivity. }
  specialize (H Hg). vm_compute in H. discriminate.
Qed.

(** C8, amended. Parsing is anchored at the start of the text: when [s] is
    matched by the grammar, [parse_sexagesimal (s ++ t)] succeeds for every
    suffix [t] and returns the same sign, [A] and [B] as
    [parse_sexagesimal s]; the seconds [C] are the same as well when [t] is
    empty or starts with a character that is neither a digit nor a dot.
    A text no prefix of which is in the grammar raises the parse error. *)
Theorem parse_sexagesimal_anchored (s t : str) :
  (matches_grammar s ->
   exists sign a b c c',
     parse_sexagesimal s = Ok (sign, a, b, c) /\
     parse_sexagesimal (s ++ t) = Ok (sign, a, b, c') /\
     (no_numeral_head t -> c' = c)) /\
  (~ matches_grammar s -> parse_sexagesimal s = Raise (parse_error s)).
Proof.
  split.
  - intros Hg.
    destruct (scan_complete s Hg) as [[[[sg a] b] c] Hf].
    destruct (scan_append s sg a b c t Hf) as (c' & Hf' & Hc).
    destruct (parse_sexagesimal_ok _ _ _ _ _ Hf)
      as (ip & fr & fp & Ec & _ & _ & _ & _ & Hp).
    destruct (parse_sexagesimal_ok _ _ _ _ _ Hf')
      as (ip' & fr' & fp' & Ec' & _ & _ & _ & _ & Hp').
    exists (sign_of sg), (digits_value a), (digits_value b),
      (numeral_value ip fp), (numeral_value ip' fp').
    split; [exact Hp|]. split; [exact Hp'|].
    intros Ht. specialize (Hc Ht). subst c'.
    assert (E : parse_sexagesimal (s ++ t) = parse_sexagesimal s).
    { unfold parse_sexagesimal. rewrite !re_match_scan, Hf', Hf.
      reflexivity. }
    rewrite Hp, Hp' in E. now injection E.
  - intros Hg. exact (parse_sexagesimal_none s (scan_none s Hg)).
Qed.

Lemma parse_sexagesimal_anchored_witness :
  (exists sign a b c c',
     parse_sexagesimal (lit "1:2:3") = Ok (sign, a, b, c) /\
     parse_sexagesimal (lit "1:2:3" ++ lit " UTC") = Ok (sign, a, b, c') /\
     (no_numeral_head (lit " UTC") -> c' = c)) /\
  parse_sexagesimal (lit "12h30") = Raise (parse_error (lit "12h30")).
Proof.
  split.
  - apply (proj1 (parse_sexagesimal_anchored (lit "1:2:3") (lit " UTC"))).
    apply (scan_sound _ ([], lit "1", lit "2", lit "3")).
    vm_compute. reflexivity.
  - apply (proj2 (parse_sexagesimal_anchored (lit "12h30") [])).
    intros Hg. destruct (scan_complete _ Hg) as [f Hf].
    vm_compute in Hf. discriminate.
Defined.

(** ** C10: what the number branch accepts *)

Lemma scan_none_no_match s : scan s = None -> ~ matches_grammar s.
Proof.
  intros H Hg. destruct (scan_complete s Hg) as [f Hf]. congruence.
Qed.

Lemma py_round_not_finite v n : Float.is_finite v = false -> py_round v n = v.
Proof. destruct v; simpl; congruence. Qed.

(** C10. The number branch takes every text that [float] accepts: the
    result is that float rounded to 6 places, and a float that is not
    finite is returned as it is. So ["nan"], ["inf"], ["-inf"], ["1e3"]
    and [" 1.5 "], none of which is matched by the sexagesimal grammar, are
    converted without error by both functions. *)
Theorem number_branch_accepts_float_text :
  (forall s v,
     py_float_of_str s = Ok v ->
     ra_to_decimal s = Ok (py_round v 6) /\
     dec_to_decimal s = Ok (py_round v 6) /\
     (Float.is_finite v = false -> py_round v 6 = v)) /\
  (ra_to_decimal (lit "nan") = Ok Float.nan /\
   dec_to_decimal (lit "nan") = Ok Float.nan /\
   ~ matches_grammar (lit "nan")) /\
  (ra_to_decimal (lit "inf") = Ok (Float.inf false) /\
   dec_to_decimal (lit "inf") = Ok (Float.inf false) /\
   ~ matches_grammar (lit "inf")) /\
  (ra_to_decimal (lit "-inf") = Ok (Float.inf true) /\
   dec_to_decimal (lit "-inf") = Ok (Float.inf true) /\
   ~ matches_grammar (lit "-inf")) /\
  (ra_to_decimal (lit "1e3") = Ok (i2f 1000) /\
   dec_to_decimal (lit "1e3") = Ok (i2f 1000) /\
   ~ matches_grammar (lit "1e3")) /\
  (ra_to_decimal (lit " 1.5 ") = Ok (Float.of_decimal false 15 (-1)) /\
   dec_to_decimal (lit " 1.5 ") = Ok (Float.of_decimal false 15 (-1)) /\
   ~ matches_grammar (lit " 1.5 ")).
Proof.
  split.
  - intros s v H. split; [exact (hourangle_number s v H)|].
    split; [exact (deg_number s v H)|]. apply py_round_not_finite.
  - repeat split; try (vm_compute; reflexivity);
      apply scan_none_no_match; vm_compute; reflexivity.
Qed.

Lemma number_branch_accepts_float_text_witness :
  ra_to_decimal (lit "-inf") = Ok (py_round (Float.inf true) 6) /\
  dec_to_decimal (lit "-inf") = Ok (py_round (Float.inf true) 6) /\
  (Float.is_finite (Float.inf true) = false ->
   py_round (Float.inf true) 6 = Float.inf true).
Proof.
  apply (proj1 number_branch_accepts_float_text (lit "-inf") (Float.inf true)).
  vm_compute. reflexivity.
Defined.

(** ** The shape of formatted text *)

(** The two separators and the text after the seconds that
    [format_sexagesimal] takes from [sep]. *)
Definition separators (sep : str) : option (ascii * ascii * str) :=
  match sep with
  | [c] => Some (c, c, [])
  | [c0; c1] => Some (c0, c1, [])
  | [c0; c1; c2] => Some (c0, c1, [c2])
  | c0 :: c1 :: _ => Some (c0, c1, [])
  | [] => None
  end.

(** The sign text: ['+'] or ['-'] when asked for, nothing otherwise. *)
Definition sign_text (sign : bool) (deg : float) : str :=
  if sign then (if Float.ltb (i2f 0) deg then lit "+" else lit "-") else [].

(** The hours or degrees before the split into fields. *)
Definition magnitude (deg multiplier : float) : float :=
  (i2f (if Float.ltb (i2f 0) deg then 1 else -1) * multiplier * deg)%float.

Ltac bind_ok H :=
  match type of H with
  | bind ?r _ = Ok _ =>
      let E := fresh "E" in
      let x := fresh "x" in
      destruct r as [x|] eqn:E; [cbn [bind] in H | discriminate H]
  end.

(** Whenever [format_sexagesimal] returns, the text is the sequence of
    its fields. *)
Lemma format_sexagesimal_inv deg multiplier sign sep precision out :
  format_sexagesimal deg multiplier sign sep precision = Ok out ->
  exists m s a b ss c0 c1 trail,
    py_mod (magnitude deg multiplier * i2f 60)%float (i2f 60) = Ok m /\
    py_mod (m * i2f 60)%float (i2f 60) = Ok s /\
    py_int_of_float (magnitude deg multiplier) = Ok a /\
    py_int_of_float m = Ok b /\
    format_06f s precision = Ok ss /\
    separators sep = Some (c0, c1, trail) /\
    out = sign_text sign deg ++ format_02d a ++ c0 :: format_02d b
          ++ c1 :: ss ++ trail.
Proof.
  unfold format_sexagesimal. fold (magnitude deg multiplier).
  intros H.
  bind_ok H. bind_ok H. bind_ok H.
  destruct sep as [|c0 [|c1 [|c2 [|c3 sep]]]];
    cbn [length Nat.eqb app getitem nth_error bind] in H;
    try discriminate H;
    bind_ok H; bind_ok H; injection H as <-;
    do 8 eexists;
    repeat (split; [first [eassumption | reflexivity]|]).
  all: unfold sign_text; change (i2f 0) with (S754_zero false).
  all: destruct sign; try reflexivity.
  all: destruct (Float.ltb (S754_zero false) deg); reflexivity.
Qed.

(** ** Signs in binary64 multiplication *)

Lemma binary_round_aux_opp s m e l :
  binary_round_aux Float.prec Float.emax (negb s) m e l
  = SFopp (binary_round_aux Float.prec Float.emax s m e l).
Proof.
  unfold binary_round_aux.
  destruct (shr_fexp _ _ m e l) as [mrs1 e1].
  destruct (shr_fexp _ _ _ e1 loc_Exact) as [mrs2 e2].
  destruct (shr_m mrs2); try reflexivity.
  destruct (e2 <=? Float.emax - Float.prec); reflexivity.
Qed.

Lemma mul_opp_l x y : Float.mul (Float.opp x) y = Float.opp (Float.mul x y).
Proof.
  unfold Float.mul, Float.opp.
  destruct x as [sx|sx| |sx mx ex], y as [sy|sy| |sy my ey]; simpl;
    rewrite ?negb_xorb_l; try reflexivity.
  change (xorb (negb sx) sy) with (xorb (negb sx) sy).
  rewrite <- binary_round_aux_opp. now rewrite negb_xorb_l.
Qed.

Lemma mul_opp_r x y : Float.mul x (Float.opp y) = Float.opp (Float.mul x y).
Proof.
  unfold Float.mul, Float.opp.
  destruct x as [sx|sx| |sx mx ex], y as [sy|sy| |sy my ey]; simpl;
    rewrite ?negb_xorb_r; try reflexivity.
  rewrite <- binary_round_aux_opp. now rewrite negb_xorb_r.
Qed.

Lemma opp_involutive x : Float.opp (Float.opp x) = x.
Proof. destruct x; simpl; rewrite ?negb_involutive; reflexivity. Qed.

Lemma mul_opp_opp x y : Float.mul (Float.opp x) (Float.opp y) = Float.mul x y.
Proof. now rewrite mul_opp_l, mul_opp_r, opp_involutive. Qed.

(** A product is not a number, or carries the exclusive or of the signs. *)
Lemma mul_sign x y :
  Float.mul x y = S754_nan \/
  Float.sign_bit (Float.mul x y)
  = xorb (Float.sign_bit x) (Float.sign_bit y).
Proof.
  unfold Float.mul.
  destruct x as [sx|sx| |sx mx ex], y as [sy|sy| |sy my ey]; simpl; auto.
  unfold binary_round_aux.
  destruct (shr_fexp _ _ _ (ex + ey) loc_Exact) as [mrs1 e1].
  destruct (shr_fexp _ _ _ e1 loc_Exact) as [mrs2 e2].
  destruct (shr_m mrs2); simpl; auto.
  destruct (e2 <=? 971); simpl; auto.
Qed.

(** [deg > 0] against the sign of [deg]. *)
Lemma positive_opp d :
  match d with S754_zero _ | S754_nan => False | _ => True end ->
  Float.ltb (i2f 0) (Float.opp d) = negb (Float.ltb (i2f 0) d).
Proof. destruct d as [s|[|]| |[|] m e]; simpl; intros H; tauto || reflexivity. Qed.

Lemma positive_sign d :
  match d with S754_zero _ | S754_nan => False | _ => True end ->
  Float.ltb (i2f 0) d = negb (Float.sign_bit d).
Proof. destruct d as [s|[|]| |[|] m e]; simpl; intros H; tauto || reflexivity. Qed.

Lemma i2f_minus_one : i2f (-1) = Float.opp (i2f 1).
Proof. reflexivity. Qed.

(** The magnitude does not see the sign of [deg]. *)
Lemma magnitude_opp d multiplier :
  match d with S754_zero _ | S754_nan => False | _ => True end ->
  magnitude (Float.opp d) multiplier = magnitude d multiplier.
Proof.
  intros H. unfold magnitude. rewrite (positive_opp d H).
  destruct (Float.ltb (i2f 0) d); cbn [negb].
  - now rewrite i2f_minus_one, mul_opp_l, mul_opp_opp.
  - rewrite i2f_minus_one, !mul_opp_l, mul_opp_r. reflexivity.
Qed.

(** The magnitude of a non-zero [deg] under a positive multiplier is not
    negative. *)
Lemma magnitude_sign d multiplier :
  match d with S754_zero _ | S754_nan => False | _ => True end ->
  Float.sign_bit multiplier = false ->
  magnitude d multiplier = S754_nan \/
  Float.sign_bit (magnitude d multiplier) = false.
Proof.
  intros H Hs. unfold magnitude. rewrite (positive_sign d H).
  destruct (mul_sign (i2f (if negb (Float.sign_bit d) then 1 else -1))
              multiplier) as [E | E].
  - left. rewrite E. reflexivity.
  - destruct (mul_sign (i2f (if negb (Float.sign_bit d) then 1 else -1)
                        * multiplier)%float d) as [E' | E']; [now left|].
    right. rewrite E', E, Hs. destruct (Float.sign_bit d); reflexivity.
Qed.

(** ** Decimal digits *)

Lemma digits_aux_digits fuel n acc :
  0 <= n -> forallb is_digit acc = true ->
  forallb is_digit (digits_aux fuel n acc) = true.
Proof.
  revert n acc. induction fuel as [|fuel IH]; intros n acc Hn Hacc; simpl.
  - exact Hacc.
  - assert (Hd : is_digit (digit_char (n mod 10)) = true).
    { apply digit_char_is_digit.
      pose proof (Z.mod_pos_bound n 10 ltac:(lia)). lia. }
    destruct (n <? 10).
    + simpl. now rewrite Hd.
    + apply IH; [apply Z.div_pos; lia|]. simpl. now rewrite Hd.
Qed.

Lemma digits_aux_nonempty fuel n acc :
  (fuel <> 0)%nat \/ acc <> [] -> digits_aux fuel n acc <> [].
Proof.
  revert n acc. induction fuel as [|fuel IH]; intros n acc [H | H]; simpl;
    try congruence; try (destruct (n <? 10); [discriminate|]);
    try (apply IH; right; discriminate).
Qed.

Lemma digits_head n :
  0 <= n -> exists d rest, digits n = d :: rest /\ is_digit d = true.
Proof.
  intros Hn. unfold digits.
  pose proof (digits_aux_digits (S (Z.to_nat (Z.log2 n))) n [] Hn eq_refl) as H.
  pose proof (digits_aux_nonempty (S (Z.to_nat (Z.log2 n))) n []
                ltac:(left; discriminate)) as Hne.
  destruct (digits_aux _ n []) as [|d rest]; [congruence|].
  simpl in H. apply andb_true_iff in H as [Hd _]. eauto.
Qed.

Lemma zfill_head w s :
  (exists d rest, s = d :: rest /\ is_digit d = true) ->
  exists d rest, zfill w s = d :: rest /\ is_digit d = true.
Proof.
  intros (d & rest & -> & Hd). unfold zfill.
  destruct (w - length (d :: rest))%nat as [|k]; simpl; eauto.
Qed.

(** A non-negative integer is formatted with a digit in front. *)
Lemma format_02d_head n :
  0 <= n -> exists d rest, format_02d n = d :: rest /\ is_digit d = true.
Proof.
  intros Hn. unfold format_02d.
  replace (n <? 0) with false by (symmetry; apply Z.ltb_ge; lia).
  apply zfill_head, digits_head, Hn.
Qed.

Lemma py_int_of_float_sign x n :
  py_int_of_float x = Ok n -> Float.sign_bit x = false -> 0 <= n.
Proof.
  destruct x as [s|s| |s m e]; cbn [py_int_of_float Float.sign_bit];
    try discriminate.
  - intros [= <-] _. lia.
  - intros [= <-] ->. cbn [cond_Zopp]. destruct (0 <=? e) eqn:E.
    + pose proof (Z.pow_nonneg 2 e ltac:(lia)).
      destruct (2 ^ e); lia.
    + apply Z.leb_gt in E.
      apply Z.div_pos; [lia|]. apply Z.pow_pos_nonneg; lia.
Qed.

(** ** C4: the width of the seconds field *)

(** C4. The claimed text ["+12d30m00.0s"] is not produced: the width of the
    seconds field is the constant 6 of the format string, so with
    precision 1 the field is ["0000.0"], and with precision 4 the seconds
    ["0.0000"] have a single integer digit. The number of fractional digits
    is the precision in both. *)
Theorem seconds_width_is_six :
  format_sexagesimal (Float.of_decimal false 125 (-1)) (i2f 1) true
    (lit "dms") 1 = Ok (lit "+12d30m0000.0s") /\
  format_sexagesimal (Float.of_decimal false 125 (-1)) (i2f 1) true
    (lit "dms") 1 <> Ok (lit "+12d30m00.0s") /\
  format_sexagesimal (i2f 0) (i2f 1) false (lit ":") 4
    = Ok (lit "00:00:0.0000").
Proof.
  split; [vm_compute; reflexivity|].
  split; [vm_compute; discriminate | vm_compute; reflexivity].
Qed.

(** ** C6: the sign in front *)

(** C6. With the sign shown, every text that [format_sexagesimal] returns
    starts with ['+'] when [deg > 0] and with ['-'] otherwise, whatever the
    multiplier, the separator and the precision; 0.0 is formatted with a
    ['-'] in front by [to_hourangle_sexagesimal] with the sign shown and
    by [dec_to_sexagesimal]. *)
Theorem sign_shown_prefix (deg multiplier : float) (sep : str) (precision : Z)
    (out : str) :
  (format_sexagesimal deg multiplier true sep precision = Ok out ->
   exists rest,
     out = (if Float.ltb (i2f 0) deg then "+"%char else "-"%char) :: rest) /\
  to_hourangle_sexagesimal (i2f 0) default_sep true default_precision
    = Ok (lit "-00:00:00.000") /\
  dec_to_sexagesimal (i2f 0) default_sep default_precision
    = Ok (lit "-00:00:00.000").
Proof.
  split; [|split; vm_compute; reflexivity].
  intros H.
  destruct (format_sexagesimal_inv _ _ _ _ _ _ H)
    as (m & s & a & b & ss & c0 & c1 & trail & _ & _ & _ & _ & _ & _ & ->).
  unfold sign_text.
  destruct (Float.ltb (i2f 0) deg); eexists; reflexivity.
Qed.

Lemma sign_shown_prefix_witness :
  exists rest,
    lit "+12:30:00.000"
    = (if Float.ltb (i2f 0) (Float.of_decimal false 125 (-1))
       then "+"%char else "-"%char) :: rest.
Proof.
  apply (proj1 (sign_shown_prefix (Float.of_decimal false 125 (-1)) (i2f 1)
                  (lit ":") 3 (lit "+12:30:00.000"))).
  vm_compute. reflexivity.
Defined.

(** ** C7: the separators *)




(** ** C9: right ascension ignores the sign *)

(** What [format_sexagesimal] does once the magnitude [h] and the sign
    text [f0] are known. *)
Definition fields_text (h : float) (f0 sep : str) (precision : Z)
  : result str :=
  let sep := if Nat.eqb (length sep) 1 then sep ++ sep else sep in
  m <- py_mod (h * i2f 60)%float (i2f 60) ;;
  s <- py_mod (m * i2f 60)%float (i2f 60) ;;
  f1 <- py_int_of_float h ;;
  f2 <- getitem sep 0 ;;
  f3 <- py_int_of_float m ;;
  f4 <- getitem sep 1 ;;
  f6 <- (if Nat.eqb (length sep) 3 then getitem sep 2 else Ok []) ;;
  f5 <- format_06f s precision ;;
  Ok (f0 ++ format_02d f1 ++ f2 ++ format_02d f3 ++ f4 ++ f5 ++ f6).

Lemma format_sexagesimal_fields deg multiplier sign sep precision :
  format_sexagesimal deg multiplier sign sep precision
  = fields_text (magnitude deg multiplier) (sign_text sign deg) sep precision.
Proof.
  unfold format_sexagesimal, fields_text, magnitude, sign_text.
  destruct sign; [|reflexivity].
  destruct (Float.ltb (i2f 0) deg); reflexivity.
Qed.

Definition hour_multiplier : float := (i2f 24 / i2f 360)%float.

Lemma hour_magnitude_zero s :
  magnitude (S754_zero s) hour_multiplier = S754_zero (negb s).
Proof. destruct s; vm_compute; reflexivity. Qed.

Lemma fields_text_zero s f0 sep precision :
  fields_text (S754_zero s) f0 sep precision
  = fields_text (S754_zero false) f0 sep precision.
Proof. destruct s; reflexivity. Qed.

Lemma ra_to_sexagesimal_opp deg sep precision :
  ra_to_sexagesimal (Float.opp deg) sep precision
  = ra_to_sexagesimal deg sep precision.
Proof.
  unfold ra_to_sexagesimal, to_hourangle_sexagesimal.
  fold hour_multiplier. rewrite !format_sexagesimal_fields.
  cbn [sign_text].
  destruct deg as [s|s| |s m e].
  - cbn [Float.opp SFopp]. rewrite !hour_magnitude_zero.
    rewrite fields_text_zero, (fields_text_zero (negb s)). reflexivity.
  - now rewrite magnitude_opp.
  - reflexivity.
  - now rewrite magnitude_opp.
Qed.

Lemma ra_to_sexagesimal_digit_first deg sep precision out :
  ra_to_sexagesimal deg sep precision = Ok out ->
  exists d rest, out = d :: rest /\ is_digit d = true.
Proof.
  unfold ra_to_sexagesimal, to_hourangle_sexagesimal.
  fold hour_multiplier. intros H.
  destruct (format_sexagesimal_inv _ _ _ _ _ _ H)
    as (m & s & a & b & ss & c0 & c1 & trail & _ & _ & Ha & _ & _ & _ & ->).
  cbn [sign_text app].
  assert (Hpos : 0 <= a).
  { destruct deg as [sd|sd| |sd md ed].
    - rewrite hour_magnitude_zero in Ha. injection Ha as <-. lia.
    - destruct (magnitude_sign (S754_infinity sd) hour_multiplier I eq_refl)
        as [E | E]; [rewrite E in Ha; discriminate|].
      exact (py_int_of_float_sign _ _ Ha E).
    - vm_compute in Ha. discriminate.
    - destruct (magnitude_sign (S754_finite sd md ed) hour_multiplier I eq_refl)
        as [E | E]; [rewrite E in Ha; discriminate|].
      exact (py_int_of_float_sign _ _ Ha E). }
  destruct (format_02d_head a Hpos) as (d & rest & -> & Hd).
  exists d. eexists. split; [reflexivity | exact Hd].
Qed.

(** C9. [ra_to_sexagesimal] gives the same result, returned text or raised
    exception, for [deg] and for [-deg], with every separator and
    precision; and a returned text starts with a digit, so never with
    ['+'] or ['-']. *)
Theorem ra_to_sexagesimal_drops_sign (deg : float) (sep : str) (precision : Z) :
  ra_to_sexagesimal (Float.opp deg) sep precision
    = ra_to_sexagesimal deg sep precision /\
  (forall out,
     ra_to_sexagesimal deg sep precision = Ok out ->
     exists d rest,
       out = d :: rest /\ is_digit d = true /\
       d <> "+"%char /\ d <> "-"%char).
Proof.
  split; [apply ra_to_sexagesimal_opp|].
  intros out H.
  destruct (ra_to_sexagesimal_digit_first _ _ _ _ H) as (d & rest & -> & Hd).
  exists d, rest. repeat split; try assumption;
    intros ->; vm_compute in Hd; discriminate.
Qed.

Lemma ra_to_sexagesimal_drops_sign_witness :
  exists d rest,
    lit "12:00:00.000" = d :: rest /\ is_digit d = true /\
    d <> "+"%char /\ d <> "-"%char.
Proof.
  apply (proj2 (ra_to_sexagesimal_drops_sign (i2f (-180)) default_sep
                  default_precision)).
  vm_compute. reflexivity.
Defined.

(** * Further properties of the module *)


(** ** Round trips: the structure of one rounding *)

Lemma digits2_upper p : Zpos p < 2 ^ Zpos (digits2_pos p).
Proof.
  induction p as [p IH|p IH|]; simpl digits2_pos;
    rewrite ?Pos2Z.inj_succ, ?Z.pow_succ_r by lia; lia.
Qed.

Lemma Zdigits2_upper m : 0 <= m -> m < 2 ^ Zdigits2 m.
Proof.
  intros Hm. destruct m as [|p|p]; simpl; [lia| |lia]. apply digits2_upper.
Qed.

Lemma Zdigits2_nonneg m : 0 <= Zdigits2 m.
Proof. destruct m; simpl; lia. Qed.

Lemma digits2_lower p : 2 ^ (Zpos (digits2_pos p) - 1) <= Zpos p.
Proof.
  induction p as [p IH|p IH|]; simpl digits2_pos.
  - rewrite Pos2Z.inj_succ.
    replace (Z.succ (Zpos (digits2_pos p)) - 1)
      with (Z.succ (Zpos (digits2_pos p) - 1)) by lia.
    rewrite Z.pow_succ_r by lia. lia.
  - rewrite Pos2Z.inj_succ.
    replace (Z.succ (Zpos (digits2_pos p)) - 1)
      with (Z.succ (Zpos (digits2_pos p) - 1)) by lia.
    rewrite Z.pow_succ_r by lia. lia.
  - simpl. lia.
Qed.

Lemma pow2_pos k : 0 <= k -> 0 < 2 ^ k.
Proof. intros. apply Z.pow_pos_nonneg; lia. Qed.

Lemma pow2_le a b : 0 <= a <= b -> 2 ^ a <= 2 ^ b.
Proof. intros. apply Z.pow_le_mono_r; lia. Qed.

Lemma pow2_lt a b : 0 <= a < b -> 2 ^ a < 2 ^ b.
Proof. intros. apply Z.pow_lt_mono_r; lia. Qed.

(** The shift of [shr_fexp]. *)
Definition shift_of (m e : Z) : Z := Z.max 0 (fexp64 (Zdigits2 m + e) - e).

Lemma shr_fexp_spec m e l :
  0 <= m ->
  exists mrs,
    shr_fexp Float.prec Float.emax m e l = (mrs, e + shift_of m e) /\
    shr_m mrs = m / 2 ^ shift_of m e /\
    (shift_of m e = 0 -> mrs = shr_record_of_loc m l).
Proof.
  intros Hm. unfold shr_fexp, shift_of.
  fold (fexp64 (Zdigits2 m + e)).
  set (n := fexp64 (Zdigits2 m + e) - e).
  destruct (shr_spec (shr_record_of_loc m l) e n) as (mrs & E & Em).
  { now rewrite shr_record_of_loc_m. }
  rewrite shr_record_of_loc_m in Em.
  exists mrs. split; [exact E|]. split; [exact Em|].
  intros H0. unfold shr in E. destruct n as [|p|p]; try lia;
    now injection E as <-.
Qed.

(** After the shift no further shift is needed. *)
Lemma shift_of_done m e :
  0 <= m ->
  fexp64 (Zdigits2 (m / 2 ^ shift_of m e) + (e + shift_of m e))
  <= e + shift_of m e.
Proof.
  intros Hm. unfold shift_of.
  remember (Zdigits2 m) as d eqn:Ed.
  assert (Hd : 0 <= d) by (subst d; apply Zdigits2_nonneg).
  assert (Hup : m < 2 ^ d) by (subst d; now apply Zdigits2_upper).
  pose proof (fexp64_eq (d + e)) as Ef.
  remember (fexp64 (d + e)) as f eqn:Ef'. clear Ef'.
  destruct (Z.max_spec 0 (f - e)) as [[H1 ->] | [H1 ->]].
  - remember (f - e) as k eqn:Ek.
    assert (Hq : 0 <= m / 2 ^ k)
      by (apply Z.div_pos; [lia | apply pow2_pos; lia]).
    assert (Zdigits2 (m / 2 ^ k) + k <= d \/ m / 2 ^ k = 0) as [Hle | H0].
    { destruct (Z.le_gt_cases k d) as [Hkd | Hkd].
      - left. cut (Zdigits2 (m / 2 ^ k) <= d - k); [lia|].
        apply Zdigits2_bound; [exact Hq | lia |].
        apply Z.div_lt_upper_bound; [apply pow2_pos; lia|].
        rewrite <- Z.pow_add_r by lia. replace (k + (d - k)) with d by lia.
        exact Hup.
      - right. apply Z.div_small. split; [exact Hm|].
        apply Z.lt_le_trans with (2 ^ d); [exact Hup|].
        apply pow2_le. lia. }
    + rewrite fexp64_eq. lia.
    + rewrite H0. simpl Zdigits2. rewrite fexp64_eq. lia.
  - rewrite Z.pow_0_r, Z.div_1_r, Z.add_0_r, <- Ed, fexp64_eq. lia.
Qed.

Lemma shr_1_r mrs : 0 <= shr_m mrs -> shr_r (shr_1 mrs) = Z.odd (shr_m mrs).
Proof.
  destruct mrs as [m r s]. simpl. intros Hm.
  destruct m as [|[p|p|]|p]; try reflexivity. lia.
Qed.

Lemma shr_iter_r j mrs :
  0 <= shr_m mrs ->
  shr_r (Nat.iter (S j) shr_1 mrs) = Z.odd (shr_m mrs / 2 ^ Z.of_nat j).
Proof.
  intros Hm.
  change (Nat.iter (S j) shr_1 mrs) with (shr_1 (Nat.iter j shr_1 mrs)).
  rewrite shr_1_r; rewrite shr_iter_m by exact Hm; [reflexivity|].
  apply Z.div_pos; [lia | apply pow2_pos; lia].
Qed.

Lemma shr_fexp_r m e l :
  0 <= m -> 0 < shift_of m e ->
  shr_r (fst (shr_fexp Float.prec Float.emax m e l))
  = Z.odd (m / 2 ^ (shift_of m e - 1)).
Proof.
  intros Hm Hk. unfold shr_fexp, shift_of in *.
  fold (fexp64 (Zdigits2 m + e)) in *.
  remember (fexp64 (Zdigits2 m + e) - e) as n eqn:En. clear En.
  destruct n as [|p|p]; try lia.
  cbn [shr fst]. rewrite iter_pos_nat.
  destruct (Pos2Nat.is_succ p) as [j Ej]. rewrite Ej.
  rewrite shr_iter_r by now rewrite shr_record_of_loc_m.
  rewrite shr_record_of_loc_m.
  replace (Z.max 0 (Zpos p) - 1) with (Z.of_nat j) by lia. reflexivity.
Qed.

Lemma odd_div_mod m k :
  0 <= m -> 0 < k -> Z.odd (m / 2 ^ (k - 1)) = true ->
  2 ^ k <= 2 * (m mod 2 ^ k).
Proof.
  intros Hm Hk Ho.
  assert (Hp : 0 < 2 ^ (k - 1)) by (apply pow2_pos; lia).
  replace (2 ^ k) with (2 ^ (k - 1) * 2).
  2:{ replace k with (Z.succ (k - 1)) at 2 by lia.
      rewrite Z.pow_succ_r by lia. lia. }
  rewrite Z.rem_mul_r by lia.
  rewrite Zmod_odd, Ho.
  pose proof (Z.mod_pos_bound m (2 ^ (k - 1)) Hp). lia.
Qed.

Lemma loc_round_down mrs :
  shr_r mrs = false ->
  round_nearest_even (shr_m mrs) (loc_of_shr_record mrs) = shr_m mrs.
Proof. destruct mrs as [m [|] [|]]; simpl; congruence. Qed.

(** What [binary_round_aux] computes, step by step: a shift by [k1], a
    rounding of the last place, and a shift by [k2] that restores the
    precision when the rounding carried. *)
Lemma binary_round_aux_struct s m e l :
  0 <= m ->
  exists m2 : Z,
    m / 2 ^ shift_of m e <= m2 <= m / 2 ^ shift_of m e + 1 /\
    (l = loc_Exact -> 2 * (m mod 2 ^ shift_of m e) < 2 ^ shift_of m e ->
     m2 = m / 2 ^ shift_of m e) /\
    binary_round_aux Float.prec Float.emax s m e l =
    match m2 / 2 ^ shift_of m2 (e + shift_of m e) with
    | Z0 => S754_zero s
    | Zpos p =>
        if e + shift_of m e + shift_of m2 (e + shift_of m e) <=? 971
        then S754_finite s p (e + shift_of m e + shift_of m2 (e + shift_of m e))
        else S754_infinity s
    | Zneg _ => S754_nan
    end.
Proof.
  intros Hm. unfold binary_round_aux.
  pose proof (shr_fexp_r m e l Hm) as Hr.
  destruct (shr_fexp_spec m e l Hm) as (mrs1 & E1 & Em1 & H01).
  rewrite E1 in Hr |- *. cbn [fst] in Hr.
  exists (round_nearest_even (shr_m mrs1) (loc_of_shr_record mrs1)).
  pose proof (round_nearest_even_range (shr_m mrs1) (loc_of_shr_record mrs1))
    as Hrange.
  remember (round_nearest_even (shr_m mrs1) (loc_of_shr_record mrs1)) as m2
    eqn:Em2.
  assert (Hm1 : 0 <= m / 2 ^ shift_of m e).
  { apply Z.div_pos; [lia | apply pow2_pos; unfold shift_of; lia]. }
  rewrite Em1 in Hrange. split; [exact Hrange|]. split.
  - intros -> Hlt. rewrite Em2, <- Em1.
    assert (shift_of m e = 0 \/ 0 < shift_of m e) as [H0 | Hpos]
      by (unfold shift_of; lia).
    + rewrite (H01 H0). reflexivity.
    + apply loc_round_down. rewrite (Hr Hpos).
      destruct (Z.odd (m / 2 ^ (shift_of m e - 1))) eqn:Ho; [|reflexivity].
      pose proof (odd_div_mod m (shift_of m e) Hm Hpos Ho). lia.
  - destruct (shr_fexp_spec m2 (e + shift_of m e) loc_Exact ltac:(lia))
      as (mrs2 & E2 & Em2' & _).
    rewrite E2, Em2'. reflexivity.
Qed.

(** ** Round trips: values as real numbers *)

(** The value [m * 2^e] of a mantissa and a non-positive exponent. *)
Definition fval (m e : Z) : R := (IZR m / IZR (2 ^ (- e)))%R.

(** The accuracy of one operation on values below [2^13]. *)
Definition eps : R := (/ IZR (2 ^ 38))%R.

Lemma IZR_pow2_pos k : 0 <= k -> (0 < IZR (2 ^ k))%R.
Proof. intros Hk. apply IZR_lt. now apply pow2_pos. Qed.

Lemma IZR_pow2_split a b :
  0 <= a -> 0 <= b -> IZR (2 ^ (a + b)) = (IZR (2 ^ a) * IZR (2 ^ b))%R.
Proof. intros. now rewrite Z.pow_add_r, mult_IZR. Qed.

(** The integer quotient against the real quotient. *)
Lemma IZR_div_floor m d :
  0 < d -> (IZR (m / d) <= IZR m / IZR d < IZR (m / d) + 1)%R.
Proof.
  intros Hd.
  assert (HdR : (0 < IZR d)%R) by now apply IZR_lt.
  pose proof (Z.mul_div_le m d Hd) as H1.
  pose proof (Z.mul_succ_div_gt m d Hd) as H2.
  apply IZR_le in H1. apply IZR_lt in H2.
  rewrite mult_IZR in H1. rewrite mult_IZR, succ_IZR in H2.
  split.
  - apply Rmult_le_reg_r with (IZR d); [exact HdR|].
    unfold Rdiv. rewrite Rmult_assoc, Rinv_l by lra. lra.
  - apply Rmult_lt_reg_r with (IZR d); [exact HdR|].
    unfold Rdiv. rewrite Rmult_assoc, Rinv_l by lra. lra.
Qed.

Lemma fval_shift m e k :
  e + k <= 0 -> 0 <= k ->
  fval m e = (IZR m / IZR (2 ^ k) / IZR (2 ^ (- (e + k))))%R.
Proof.
  intros He Hk. unfold fval.
  replace (- e) with (k + - (e + k)) by lia.
  rewrite IZR_pow2_split by lia.
  pose proof (IZR_pow2_pos k Hk). pose proof (IZR_pow2_pos (- (e + k)) ltac:(lia)).
  field. lra.
Qed.

Lemma shift_of_nonneg m e : 0 <= shift_of m e.
Proof. unfold shift_of. lia. Qed.

(** The exponent after the shift, for a mantissa below [2^(b - e)]. *)
Lemma shift_of_exponent m e b :
  0 <= m -> m < 2 ^ (b - e) -> e <= b - 53 -> -1021 <= b ->
  -1074 <= e + shift_of m e <= b - 53.
Proof.
  intros Hm Hlt He Hb. unfold shift_of.
  pose proof (Zdigits2_bound m (b - e) Hm ltac:(lia) Hlt) as Hd.
  pose proof (Zdigits2_nonneg m). rewrite fexp64_eq. lia.
Qed.

(** One rounding of a value [v] below [2^13], given by a mantissa [m], an
    exponent [e] and a location: the steps of [binary_round_aux_struct]
    with the bounds they keep. The last mantissa [m3] and exponent [e3]
    are those of the float returned. *)
Lemma round_detail s m e l (v : R) :
  0 <= m -> e <= -39 ->
  (IZR m <= v * IZR (2 ^ (- e)) <= IZR (m + 1))%R -> (v < 8192)%R ->
  exists m2 m3 e1 e3 : Z,
    e1 = e + shift_of m e /\
    e3 = e1 + shift_of m2 e1 /\
    m3 = m2 / 2 ^ shift_of m2 e1 /\
    m / 2 ^ shift_of m e <= m2 <= m / 2 ^ shift_of m e + 1 /\
    (l = loc_Exact -> 2 * (m mod 2 ^ shift_of m e) < 2 ^ shift_of m e ->
     m2 = m / 2 ^ shift_of m e) /\
    binary_round_aux Float.prec Float.emax s m e l =
    match m3 with
    | Z0 => S754_zero s
    | Zpos p => S754_finite s p e3
    | Zneg _ => S754_nan
    end /\
    0 <= m3 < 2 ^ 53 /\ -1074 <= e1 <= e3 /\ e3 <= -39 /\
    (Rabs (fval m3 e3 - v) <= eps)%R.
Proof.
  intros Hm He Hv Hlt.
  destruct (binary_round_aux_struct s m e l Hm) as (m2 & Hm2 & Hdown & Hres).
  remember (shift_of m e) as k1 eqn:Ek1.
  remember (e + k1) as e1 eqn:Ee1.
  remember (shift_of m2 e1) as k2 eqn:Ek2.
  assert (Hk1 : 0 <= k1) by (subst k1; apply shift_of_nonneg).
  assert (Hk2 : 0 <= k2) by (subst k2; apply shift_of_nonneg).
  assert (Hp1 : 0 < 2 ^ k1) by now apply pow2_pos.
  assert (Hp2 : 0 < 2 ^ k2) by now apply pow2_pos.
  assert (Hm1 : 0 <= m / 2 ^ k1) by (apply Z.div_pos; lia).
  (* the mantissa is below 2^(13 - e) *)
  assert (HPe : (0 < IZR (2 ^ (- e)))%R) by (apply IZR_pow2_pos; lia).
  assert (Hmlt : m < 2 ^ (13 - e)).
  { apply lt_IZR. replace (13 - e) with (13 + - e) by lia.
    rewrite IZR_pow2_split by lia.
    change (IZR (2 ^ 13)) with 8192%R.
    apply Rle_lt_trans with (v * IZR (2 ^ (- e)))%R; [apply Hv|].
    apply Rmult_lt_compat_r; assumption. }
  assert (He1 : -1074 <= e1 <= -40 \/ (k1 = 0 /\ -1074 <= e1)).
  { subst e1 k1. unfold shift_of.
    pose proof (Zdigits2_bound m (13 - e) Hm ltac:(lia) Hmlt).
    pose proof (Zdigits2_nonneg m). rewrite fexp64_eq. lia. }
  assert (He1' : -1074 <= e1 <= -39) by lia.
  (* the value in units of 2^e1 *)
  assert (HPe1 : (0 < IZR (2 ^ (- e1)))%R) by (apply IZR_pow2_pos; lia).
  assert (HPk1 : (0 < IZR (2 ^ k1))%R) by (apply IZR_pow2_pos; lia).
  assert (HPk2 : (0 < IZR (2 ^ k2))%R) by (apply IZR_pow2_pos; lia).
  assert (Esplit : IZR (2 ^ (- e)) = (IZR (2 ^ k1) * IZR (2 ^ (- e1)))%R).
  { rewrite <- IZR_pow2_split by lia. do 2 f_equal. lia. }
  set (a := (v * IZR (2 ^ (- e1)))%R).
  assert (Ha : (IZR (m / 2 ^ k1) <= a <= IZR (m / 2 ^ k1) + 1)%R).
  { pose proof (IZR_div_floor m (2 ^ k1) Hp1) as [F1 F2].
    pose proof (Z.mul_succ_div_gt m (2 ^ k1) Hp1) as F3.
    assert (F4 : (IZR (m + 1) <= IZR (2 ^ k1) * (IZR (m / 2 ^ k1) + 1))%R).
    { rewrite <- succ_IZR, <- mult_IZR. apply IZR_le. lia. }
    rewrite Esplit in Hv. unfold a.
    split.
    - apply Rmult_le_reg_l with (IZR (2 ^ k1)); [exact HPk1|].
      apply Rle_trans with (IZR m); [|lra].
      apply Rmult_le_reg_r with (/ IZR (2 ^ k1))%R;
        [now apply Rinv_0_lt_compat|].
      replace (IZR (2 ^ k1) * IZR (m / 2 ^ k1) * / IZR (2 ^ k1))%R
        with (IZR (m / 2 ^ k1)) by (field; lra).
      exact F1.
    - apply Rmult_le_reg_l with (IZR (2 ^ k1)); [exact HPk1|]. lra. }
  assert (Hm2R : (IZR (m / 2 ^ k1) <= IZR m2 <= IZR (m / 2 ^ k1) + 1)%R).
  { destruct Hm2 as [L U]. apply IZR_le in L. apply IZR_le in U.
    rewrite plus_IZR in U. lra. }
  (* the second shift *)
  assert (Hm2lt : m2 < 2 ^ (14 - e1)).
  { apply lt_IZR. replace (14 - e1) with (14 + - e1) by lia.
    rewrite IZR_pow2_split by lia. change (IZR (2 ^ 14)) with 16384%R.
    assert (a < 8192 * IZR (2 ^ (- e1)))%R
      by (unfold a; apply Rmult_lt_compat_r; assumption).
    assert (1 <= IZR (2 ^ (- e1)))%R.
    { change 1%R with (IZR 1). apply IZR_le.
      pose proof (pow2_pos (- e1) ltac:(lia)). lia. }
    lra. }
  assert (He3 : e1 <= e1 + k2 <= -39).
  { subst k2. unfold shift_of.
    pose proof (Zdigits2_bound m2 (14 - e1) ltac:(lia) ltac:(lia) Hm2lt).
    pose proof (Zdigits2_nonneg m2). rewrite fexp64_eq. lia. }
  assert (Hm3 : 0 <= m2 / 2 ^ k2) by (apply Z.div_pos; lia).
  assert (Hm3lt : m2 / 2 ^ k2 < 2 ^ 53).
  { pose proof (shift_of_done m2 e1 ltac:(lia)) as Hd.
    rewrite <- Ek2 in Hd. rewrite fexp64_eq in Hd.
    pose proof (Zdigits2_upper (m2 / 2 ^ k2) Hm3) as Hu.
    pose proof (Zdigits2_nonneg (m2 / 2 ^ k2)).
    apply Z.lt_le_trans with (1 := Hu). apply pow2_le. lia. }
  exists m2, (m2 / 2 ^ k2), e1, (e1 + k2).
  split; [reflexivity|]. split; [now rewrite Ek2|]. split; [now rewrite Ek2|].
  split; [exact Hm2|]. split; [exact Hdown|]. split.
  { rewrite Hres. destruct (m2 / 2 ^ k2) as [|p|p]; try reflexivity.
    replace (e1 + k2 <=? 971) with true by (symmetry; apply Z.leb_le; lia).
    reflexivity. }
  split; [lia|]. split; [lia|]. split; [lia|].
  (* the error *)
  assert (HPe3 : (0 < IZR (2 ^ (- (e1 + k2))))%R) by (apply IZR_pow2_pos; lia).
  assert (Esplit2 : IZR (2 ^ (- e1))
                    = (IZR (2 ^ k2) * IZR (2 ^ (- (e1 + k2))))%R).
  { rewrite <- IZR_pow2_split by lia. do 2 f_equal. lia. }
  pose proof (IZR_div_floor m2 (2 ^ k2) Hp2) as [G1 G2].
  assert (H39 : (IZR (2 ^ 39) <= IZR (2 ^ (- (e1 + k2))))%R).
  { apply IZR_le. apply pow2_le. lia. }
  assert (H1k2 : (1 <= IZR (2 ^ k2))%R).
  { change 1%R with (IZR 1). apply IZR_le. lia. }
  set (q := IZR (2 ^ (- (e1 + k2)))) in *.
  set (t := IZR (2 ^ k2)) in *.
  assert (Ev : v = (a / (t * q))%R).
  { unfold a. rewrite Esplit2. field. lra. }
  unfold fval. fold q.
  assert (Hdiff : (Rabs (IZR (m2 / 2 ^ k2) - a / t) <= 2)%R).
  { apply Rabs_le.
    assert (Ha2 : (- 1 <= IZR m2 - a <= 1)%R) by lra.
    assert (Hq : (- 1 <= IZR m2 / t - a / t <= 1)%R).
    { replace (IZR m2 / t - a / t)%R with ((IZR m2 - a) / t)%R by (field; lra).
      split.
      - apply Rmult_le_reg_r with t; [lra|].
        unfold Rdiv. rewrite Rmult_assoc, Rinv_l by lra. nra.
      - apply Rmult_le_reg_r with t; [lra|].
        unfold Rdiv. rewrite Rmult_assoc, Rinv_l by lra. nra. }
    lra. }
  replace (IZR (m2 / 2 ^ k2) / q - v)%R
    with ((IZR (m2 / 2 ^ k2) - a / t) / q)%R by (rewrite Ev; field; lra).
  unfold Rdiv. rewrite Rabs_mult, (Rabs_pos_eq (/ q))
    by (left; now apply Rinv_0_lt_compat).
  unfold eps. change (2 ^ 38) with (2 ^ 38)%Z.
  apply Rmult_le_reg_r with q; [exact HPe3|].
  rewrite Rmult_assoc, Rinv_l, Rmult_1_r by lra.
  apply Rle_trans with 2%R; [exact Hdiff|].
  apply Rmult_le_reg_l with (IZR (2 ^ 38)); [apply IZR_pow2_pos; lia|].
  rewrite <- Rmult_assoc, Rinv_r, Rmult_1_l
    by (apply Rgt_not_eq, IZR_pow2_pos; lia).
  assert (E39 : IZR (2 ^ 39) = (IZR (2 ^ 38) * 2)%R)
    by (rewrite <- mult_IZR; reflexivity).
  rewrite E39 in H39. lra.
Qed.

(** Powers of two with integer exponents. *)
Definition pw (e : Z) : R := powerRZ 2 e.

Lemma pw_pos e : (0 < pw e)%R.
Proof. apply powerRZ_lt. lra. Qed.

Lemma pw_add a b : pw (a + b) = (pw a * pw b)%R.
Proof. apply powerRZ_add. lra. Qed.

Lemma pw_nonneg k : 0 <= k -> pw k = IZR (2 ^ k).
Proof.
  intros Hk. unfold pw. rewrite <- (Z2Nat.id k Hk) at 1.
  rewrite <- pow_powerRZ, pow_IZR. now rewrite Z2Nat.id.
Qed.

Lemma pw_nonpos e : e <= 0 -> pw e = (/ IZR (2 ^ (- e)))%R.
Proof.
  intros He. unfold pw. replace e with (- - e) at 1 by lia.
  rewrite powerRZ_neg'. fold (pw (- e)). now rewrite pw_nonneg by lia.
Qed.

Lemma pw_ge_1 k : 0 <= k -> (1 <= pw k)%R.
Proof.
  intros Hk. rewrite pw_nonneg by exact Hk.
  change 1%R with (IZR 1). apply IZR_le.
  pose proof (pow2_pos k Hk). lia.
Qed.

Lemma pw_le a b : a <= b -> (pw a <= pw b)%R.
Proof.
  intros H. replace b with (a + (b - a)) by lia. rewrite pw_add.
  pose proof (pw_pos a). pose proof (pw_ge_1 (b - a) ltac:(lia)). nra.
Qed.

Lemma pw_unit e : e <= 0 -> (pw e * IZR (2 ^ (- e)) = 1)%R.
Proof.
  intros He. rewrite pw_nonpos by exact He.
  apply Rinv_l, Rgt_not_eq, IZR_pow2_pos. lia.
Qed.

Lemma fval_pw m e : e <= 0 -> fval m e = (IZR m * pw e)%R.
Proof. intros He. unfold fval. now rewrite pw_nonpos. Qed.

(** The value of a float; 0 for what is not finite. *)
Definition F2R (x : float) : R :=
  match x with
  | S754_finite s m e =>
      if s then (- (IZR (Zpos m) * pw e))%R else (IZR (Zpos m) * pw e)%R
  | _ => 0%R
  end.

(** A float that is not negative. *)
Definition nonneg (x : float) : Prop :=
  match x with
  | S754_zero false | S754_finite false _ _ => True
  | _ => False
  end.

(** A non-negative float in the form that rounding returns, with an
    exponent of at most [-39]. *)
Definition good (x : float) : Prop :=
  match x with
  | S754_zero false => True
  | S754_finite false m e => -1074 <= e <= -39 /\ Zpos m < 2 ^ 53
  | _ => False
  end.

(** The exponent of a float; zero has no exponent to bound. *)
Definition expo (x : float) : Z :=
  match x with
  | S754_finite _ _ e => e
  | _ => -2000
  end.

Lemma good_nonneg x : good x -> nonneg x.
Proof. destruct x as [[|]|[|]| |[|] m e]; simpl; tauto. Qed.

Lemma good_expo x : good x -> expo x <= -39.
Proof. destruct x as [[|]|[|]| |[|] m e]; simpl; lia. Qed.

Lemma F2R_nonneg x : nonneg x -> (0 <= F2R x)%R.
Proof.
  destruct x as [[|]|[|]| |[|] m e]; simpl; try tauto; try lra.
  intros _. pose proof (pw_pos e).
  assert (0 < IZR (Zpos m))%R by (apply IZR_lt; lia). nra.
Qed.

(** The float that a rounding returns. *)
Definition rounded (m e : Z) : float :=
  match m with
  | Z0 => S754_zero false
  | Zpos p => S754_finite false p e
  | Zneg _ => S754_nan
  end.

Lemma rounded_good m e :
  0 <= m < 2 ^ 53 -> -1074 <= e <= -39 ->
  good (rounded m e) /\ F2R (rounded m e) = fval m e.
Proof.
  intros Hm He. destruct m as [|p|p]; simpl; try lia.
  - split; [trivial|]. unfold fval. lra.
  - split; [lia|]. now rewrite fval_pw by lia.
Qed.

(** Rounding with [binary_round_aux]: accuracy for values below [2^13]. *)
Lemma round_good m e l (v : R) :
  0 <= m -> e <= -39 ->
  (IZR m <= v * IZR (2 ^ (- e)) <= IZR (m + 1))%R -> (v < 8192)%R ->
  good (binary_round_aux Float.prec Float.emax false m e l) /\
  (Rabs (F2R (binary_round_aux Float.prec Float.emax false m e l) - v)
   <= eps)%R.
Proof.
  intros Hm He Hv Hlt.
  destruct (round_detail false m e l v Hm He Hv Hlt)
    as (m2 & m3 & e1 & e3 & _ & _ & _ & _ & _ & Hres & Hm3 & He1 & He3 & Herr).
  change (binary_round_aux Float.prec Float.emax false m e l = rounded m3 e3)
    in Hres.
  rewrite Hres.
  destruct (rounded_good m3 e3 Hm3 ltac:(lia)) as [Hg Hf].
  split; [exact Hg|]. now rewrite Hf.
Qed.

Lemma shl_align_exponent mx ex ex' :
  snd (shl_align mx ex ex') = Z.min ex ex'.
Proof.
  unfold shl_align. destruct (ex' - ex) as [|d|d] eqn:E; simpl; lia.
Qed.

(** Rounding with [binary_round]. *)
Lemma binary_round_good p e :
  (IZR (Zpos p) * pw e < 8192)%R ->
  good (binary_round Float.prec Float.emax false p e) /\
  (Rabs (F2R (binary_round Float.prec Float.emax false p e)
         - IZR (Zpos p) * pw e) <= eps)%R.
Proof.
  intros Hlt. unfold binary_round.
  fold (fexp64 (Zpos (digits2_pos p) + e)).
  pose proof (shl_align_exponent p e (fexp64 (Zpos (digits2_pos p) + e))) as Hz.
  destruct (shl_align_spec p e (fexp64 (Zpos (digits2_pos p) + e)))
    as (mz & ez & E & Hez & Emz).
  rewrite E in Hz |- *. cbn [snd] in Hz.
  assert (Hd : Zpos (digits2_pos p) + e <= 13).
  { destruct (Z.le_gt_cases (Zpos (digits2_pos p) + e) 13) as [H | H];
      [exact H|]. exfalso.
    pose proof (digits2_lower p) as Hl. apply IZR_le in Hl.
    rewrite <- pw_nonneg in Hl by lia.
    assert (pw 13 <= pw (Zpos (digits2_pos p) - 1 + e))%R by (apply pw_le; lia).
    rewrite pw_add in H0. rewrite (pw_nonneg 13) in H0 by lia.
    change (IZR (2 ^ 13)) with 8192%R in H0.
    pose proof (pw_pos e). nra. }
  assert (Hez39 : ez <= -39) by (rewrite fexp64_eq in Hz; lia).
  assert (Ev : (IZR (Zpos p) * pw e * IZR (2 ^ (- ez)) = IZR (Zpos mz))%R).
  { assert (H1 : pw e = (pw ez * pw (e - ez))%R)
      by (rewrite <- pw_add; f_equal; lia).
    assert (H2 : pw (e - ez) = IZR (2 ^ (e - ez))) by (apply pw_nonneg; lia).
    pose proof (pw_unit ez ltac:(lia)) as H3.
    rewrite Emz, mult_IZR, H1, <- H2.
    transitivity (IZR (Zpos p) * pw (e - ez) * (pw ez * IZR (2 ^ (- ez))))%R;
      [ring | rewrite H3; ring]. }
  apply round_good; try lia.
  - rewrite Ev, plus_IZR. lra.
  - exact Hlt.
Qed.

Lemma eps_pos : (0 < eps)%R.
Proof. unfold eps. apply Rinv_0_lt_compat, IZR_pow2_pos. lia. Qed.

Lemma Rabs_zero_eps : (Rabs (0 - 0) <= eps)%R.
Proof.
  replace (0 - 0)%R with 0%R by ring. rewrite Rabs_R0.
  left. apply eps_pos.
Qed.

Lemma Rabs_same_eps x : (Rabs (x - x) <= eps)%R.
Proof.
  replace (x - x)%R with 0%R by ring. rewrite Rabs_R0.
  left. apply eps_pos.
Qed.

(** ** Round trips: the accuracy of the operations *)

Lemma mul_good x y :
  nonneg x -> nonneg y -> expo x + expo y <= -39 ->
  (F2R x * F2R y < 8192)%R ->
  good (Float.mul x y) /\
  (Rabs (F2R (Float.mul x y) - F2R x * F2R y) <= eps)%R.
Proof.
  intros Hx Hy He Hlt. unfold Float.mul.
  destruct x as [[|]|[|]| |[|] mx ex]; try contradiction;
    destruct y as [[|]|[|]| |[|] my ey]; try contradiction;
    cbn [SFmul xorb F2R expo] in *.
  - split; [exact I|]. rewrite Rmult_0_l. apply Rabs_zero_eps.
  - split; [exact I|]. rewrite Rmult_0_l. apply Rabs_zero_eps.
  - split; [exact I|]. rewrite Rmult_0_r. apply Rabs_zero_eps.
  - apply round_good; try lia.
    + replace (IZR (Zpos mx) * pw ex * (IZR (Zpos my) * pw ey)
               * IZR (2 ^ (- (ex + ey))))%R
        with (IZR (Zpos mx) * IZR (Zpos my)
              * (pw (ex + ey) * IZR (2 ^ (- (ex + ey)))))%R
        by (rewrite pw_add; ring).
      rewrite pw_unit by lia. rewrite Pos2Z.inj_mul, plus_IZR, mult_IZR. lra.
    + exact Hlt.
Qed.

Lemma div_good x my ey :
  nonneg x ->
  (F2R x / F2R (S754_finite false my ey) < 8192)%R ->
  good (Float.div x (S754_finite false my ey)) /\
  (Rabs (F2R (Float.div x (S754_finite false my ey))
         - F2R x / F2R (S754_finite false my ey)) <= eps)%R.
Proof.
  intros Hx Hlt. unfold Float.div.
  destruct x as [[|]|[|]| |[|] mx ex]; try contradiction;
    cbn [SFdiv xorb F2R] in *.
  { split; [exact I|]. unfold Rdiv. rewrite Rmult_0_l. apply Rabs_zero_eps. }
  unfold SFdiv_core_binary.
  fold (fexp64 (Zdigits2 (Zpos mx) + ex - (Zdigits2 (Zpos my) + ey))).
  cbn [Zdigits2].
  set (d1 := Zpos (digits2_pos mx)). set (d2 := Zpos (digits2_pos my)).
  remember (Z.min (fexp64 (d1 + ex - (d2 + ey))) (ex - ey)) as e' eqn:Ee'.
  remember (ex - ey - e') as sh eqn:Esh.
  assert (Hsh : 0 <= sh) by lia.
  set (m' := match sh with
             | 0 => Zpos mx
             | Zpos _ => Z.shiftl (Zpos mx) sh
             | Zneg _ => 0
             end).
  assert (Em' : m' = Zpos mx * 2 ^ sh).
  { unfold m'. destruct sh as [|q|q].
    - simpl. lia.
    - now rewrite Z.shiftl_mul_pow2 by lia.
    - lia. }
  pose proof (pw_pos ex) as Hpex. pose proof (pw_pos ey) as Hpey.
  assert (Hmx : (0 < IZR (Zpos mx))%R) by (apply IZR_lt; lia).
  assert (Hmy : (0 < IZR (Zpos my))%R) by (apply IZR_lt; lia).
  set (v := (IZR (Zpos mx) * pw ex / (IZR (Zpos my) * pw ey))%R) in *.
  (* the exponent *)
  assert (HD : d1 + ex - (d2 + ey) <= 13).
  { destruct (Z.le_gt_cases (d1 + ex - (d2 + ey)) 13) as [H | H]; [exact H|].
    exfalso.
    pose proof (digits2_lower mx) as Hl. fold d1 in Hl.
    pose proof (digits2_upper my) as Hu. fold d2 in Hu.
    apply IZR_le in Hl. apply IZR_lt in Hu.
    rewrite <- pw_nonneg in Hl by (unfold d1; lia).
    rewrite <- pw_nonneg in Hu by (unfold d2; lia).
    assert (H13 : (pw 13 * (pw d2 * pw ey) <= pw (d1 - 1) * pw ex)%R).
    { rewrite <- !pw_add. apply pw_le. lia. }
    rewrite (pw_nonneg 13) in H13 by lia.
    change (IZR (2 ^ 13)) with 8192%R in H13.
    assert (Hden : (0 < IZR (Zpos my) * pw ey)%R) by nra.
    assert (v * (IZR (Zpos my) * pw ey) = IZR (Zpos mx) * pw ex)%R
      by (unfold v; field; lra).
    assert (0 < pw d2)%R by apply pw_pos.
    assert (0 < pw (d1 - 1))%R by apply pw_pos.
    nra. }
  assert (He39 : e' <= -39) by (rewrite fexp64_eq in Ee'; lia).
  pose proof (Z.div_eucl_eq m' (Zpos my) ltac:(lia)) as Hdiv.
  pose proof (Z.mod_pos_bound m' (Zpos my) ltac:(lia)) as Hmod.
  unfold Z.modulo in Hmod.
  pose proof (IZR_div_floor m' (Zpos my) ltac:(lia)) as Hfl.
  unfold Z.div in Hfl.
  destruct (Z.div_eucl m' (Zpos my)) as [q r].
  assert (Hq : 0 <= q) by nia.
  apply round_good; try lia; [|exact Hlt].
  assert (Ev : (v * IZR (2 ^ (- e')) = IZR m' / IZR (Zpos my))%R).
  { rewrite Em', mult_IZR, <- (pw_nonneg sh) by lia.
    assert (H1 : pw ex = (pw ey * pw e' * pw sh)%R).
    { rewrite <- !pw_add. f_equal. lia. }
    pose proof (pw_unit e' ltac:(lia)) as H3.
    unfold v. rewrite H1.
    transitivity (IZR (Zpos mx) * pw sh / IZR (Zpos my)
                  * (pw e' * IZR (2 ^ (- e'))))%R; [field; lra|].
    rewrite H3. ring. }
  rewrite Ev, plus_IZR. lra.
Qed.

Lemma add_good x y :
  good x -> good y -> (F2R x + F2R y < 8192)%R ->
  good (Float.add x y) /\
  (Rabs (F2R (Float.add x y) - (F2R x + F2R y)) <= eps)%R.
Proof.
  intros Hx Hy Hlt. unfold Float.add.
  destruct x as [[|]|[|]| |[|] mx ex]; try contradiction;
    destruct y as [[|]|[|]| |[|] my ey]; try contradiction;
    cbn [SFadd F2R] in *.
  - split; [exact I|]. rewrite Rplus_0_l. apply Rabs_zero_eps.
  - split; [exact Hy|]. rewrite Rplus_0_l. apply Rabs_same_eps.
  - split; [exact Hx|]. rewrite Rplus_0_r. apply Rabs_same_eps.
  - cbn [cond_Zopp].
    pose proof (shl_align_exponent mx ex (Z.min ex ey)) as Zx.
    pose proof (shl_align_exponent my ey (Z.min ex ey)) as Zy.
    destruct (shl_align_spec mx ex (Z.min ex ey)) as (ax & ex' & Ex & _ & Eax).
    destruct (shl_align_spec my ey (Z.min ex ey)) as (ay & ey' & Ey & _ & Eay).
    rewrite Ex in Zx |- *. rewrite Ey in Zy |- *. cbn [fst snd] in *.
    change (Zpos ax + Zpos ay) with (Zpos (ax + ay)).
    cbn [binary_normalize].
    assert (Ev : (IZR (Zpos (ax + ay)) * pw (Z.min ex ey)
                  = IZR (Zpos mx) * pw ex + IZR (Zpos my) * pw ey)%R).
    { rewrite Pos2Z.inj_add, plus_IZR, Eax, Eay, !mult_IZR.
      rewrite <- !pw_nonneg by lia.
      replace ex' with (Z.min ex ey) by lia.
      replace ey' with (Z.min ex ey) by lia.
      rewrite Rmult_plus_distr_r, !Rmult_assoc, <- !pw_add.
      f_equal; f_equal; f_equal; lia. }
    rewrite <- Ev in Hlt |- *. apply binary_round_good. exact Hlt.
Qed.

Lemma Rle_div_r_ a b q : (0 < q -> a * q <= b -> a <= b / q)%R.
Proof.
  intros Hq H. apply Rmult_le_reg_r with q; [exact Hq|].
  replace (b / q * q)%R with b by (field; lra). exact H.
Qed.

Lemma Rlt_div_l_ a b q : (0 < q -> a < b * q -> a / q < b)%R.
Proof.
  intros Hq H. apply Rmult_lt_reg_r with q; [exact Hq|].
  replace (a / q * q)%R with a by (field; lra). exact H.
Qed.

(** The constants of the module as floats. *)
Definition c60 : positive := 8444249301319680%positive.

Lemma i2f_60 : i2f 60 = S754_finite false c60 (-47).
Proof. reflexivity. Qed.

Lemma F2R_60 : F2R (i2f 60) = 60%R.
Proof.
  rewrite i2f_60. cbn [F2R]. rewrite pw_nonpos by lia.
  change (Zpos c60) with (60 * 2 ^ 47). rewrite mult_IZR.
  change (- -47) with 47.
  pose proof (IZR_pow2_pos 47 ltac:(lia)). field. lra.
Qed.

(** [int(y)] is the integer part of a good float. *)
Lemma py_int_good y :
  good y ->
  exists K : Z,
    py_int_of_float y = Ok K /\ 0 <= K /\
    (IZR K <= F2R y < IZR (K + 1))%R.
Proof.
  destruct y as [[|]|[|]| |[|] m e]; try contradiction; intros Hy.
  - exists 0. cbn. split; [reflexivity|]. split; [lia|]. lra.
  - destruct Hy as [He Hm]. cbn [py_int_of_float cond_Zopp F2R].
    replace (0 <=? e) with false by (symmetry; apply Z.leb_gt; lia).
    exists (Zpos m / 2 ^ (- e)). split; [reflexivity|].
    pose proof (pow2_pos (- e) ltac:(lia)) as Hp.
    split; [apply Z.div_pos; lia|].
    pose proof (IZR_div_floor (Zpos m) (2 ^ (- e)) Hp) as Hfl.
    rewrite <- fval_pw by lia. unfold fval. rewrite plus_IZR. lra.
Qed.

(** Multiplying by 60 keeps the integer part in step: from
    [K <= y < K + 1] to [60 K <= fl(60 y) < 60 (K + 1)]. *)
Lemma mul60_good y K :
  good y -> 0 <= K -> (IZR K <= F2R y < IZR (K + 1))%R -> (F2R y < 100)%R ->
  good (Float.mul y (i2f 60)) /\
  (Rabs (F2R (Float.mul y (i2f 60)) - 60 * F2R y) <= eps)%R /\
  (60 * IZR K <= F2R (Float.mul y (i2f 60)) < 60 * IZR (K + 1))%R.
Proof.
  intros Hy HK HKy H100. rewrite i2f_60. unfold Float.mul.
  destruct y as [[|]|[|]| |[|] my ey]; try contradiction.
  { cbn [SFmul xorb F2R] in *. split; [exact I|].
    split; [rewrite Rmult_0_r; apply Rabs_zero_eps|].
    assert (K = 0).
    { destruct HKy as [L U]. apply le_IZR in L. apply lt_IZR in U. lia. }
    subst K. simpl. lra. }
  destruct Hy as [Hey Hmy]. cbn [SFmul xorb F2R] in *.
  set (m := Zpos (my * c60)). set (e := ey + -47).
  assert (Em : m = Zpos my * (60 * 2 ^ 47)) by reflexivity.
  pose proof (pw_pos ey) as Hpw.
  assert (Hunit : (pw ey * IZR (2 ^ (- ey)) = 1)%R) by (apply pw_unit; lia).
  assert (HPey : (0 < IZR (2 ^ (- ey)))%R) by (apply IZR_pow2_pos; lia).
  assert (EPe : 2 ^ (- e) = 2 ^ 47 * 2 ^ (- ey)).
  { unfold e. replace (- (ey + -47)) with (47 + - ey) by lia.
    now rewrite Z.pow_add_r by lia. }
  assert (Hv : (60 * (IZR (Zpos my) * pw ey) * IZR (2 ^ (- e)) = IZR m)%R).
  { rewrite EPe, Em, !mult_IZR.
    transitivity (60 * IZR (Zpos my) * IZR (2 ^ 47)
                  * (pw ey * IZR (2 ^ (- ey))))%R; [ring|].
    rewrite Hunit. ring. }
  destruct (round_detail false m e loc_Exact (60 * (IZR (Zpos my) * pw ey))%R)
    as (m2 & m3 & e1 & e3 & Ee1 & Ee3 & Em3 & Hm2 & Hdown & Hres & Hm3 & He1
        & He3 & Herr); try (unfold m, e; lia).
  { rewrite Hv, plus_IZR. lra. }
  { lra. }
  change (binary_round_aux Float.prec Float.emax false m e loc_Exact
          = rounded m3 e3) in Hres.
  rewrite Hres.
  destruct (rounded_good m3 e3 Hm3 ltac:(lia)) as [Hg Hf].
  rewrite Hf. split; [exact Hg|]. split; [exact Herr|].
  (* integer bounds on the mantissa of y *)
  assert (HKm : K * 2 ^ (- ey) <= Zpos my).
  { apply le_IZR. rewrite mult_IZR.
    destruct HKy as [L _].
    apply Rmult_le_compat_r with (r := IZR (2 ^ (- ey))) in L; [|lra].
    rewrite Rmult_assoc, Hunit in L. lra. }
  assert (HKm' : Zpos my < (K + 1) * 2 ^ (- ey)).
  { apply lt_IZR. rewrite mult_IZR.
    destruct HKy as [_ U].
    apply Rmult_lt_compat_r with (r := IZR (2 ^ (- ey))) in U; [|lra].
    rewrite Rmult_assoc, Hunit in U. lra. }
  remember (shift_of m e) as k1 eqn:Ek1.
  remember (shift_of m2 e1) as k2 eqn:Ek2.
  assert (Hk1 : 0 <= k1) by (subst k1; apply shift_of_nonneg).
  assert (Hk2 : 0 <= k2) by (subst k2; apply shift_of_nonneg).
  pose proof (pow2_pos k1 Hk1) as Hp1. pose proof (pow2_pos k2 Hk2) as Hp2.
  pose proof (pow2_pos (- e1) ltac:(lia)) as Hq1.
  pose proof (pow2_pos (- e3) ltac:(lia)) as Hq3.
  pose proof (pow2_pos (- ey) ltac:(lia)) as Hqy.
  assert (S1 : 2 ^ (- e) = 2 ^ (- e1) * 2 ^ k1).
  { rewrite <- Z.pow_add_r by lia. f_equal. lia. }
  assert (S3 : 2 ^ (- e1) = 2 ^ (- e3) * 2 ^ k2).
  { rewrite <- Z.pow_add_r by lia. f_equal. lia. }
  assert (L0 : 60 * K * 2 ^ (- e) <= m).
  { rewrite EPe, Em. nia. }
  assert (U0 : m + 60 * 2 ^ 47 <= 60 * (K + 1) * 2 ^ (- e)).
  { rewrite EPe, Em. nia. }
  (* the lower bound *)
  assert (L1 : 60 * K * 2 ^ (- e1) <= m / 2 ^ k1).
  { apply Z.div_le_lower_bound; [exact Hp1|]. rewrite S1 in L0. lia. }
  assert (L3 : 60 * K * 2 ^ (- e3) <= m3).
  { rewrite Em3. apply Z.div_le_lower_bound; [exact Hp2|].
    rewrite S3 in L1. lia. }
  (* the upper bound *)
  assert (U1 : m / 2 ^ k1 < 60 * (K + 1) * 2 ^ (- e1)).
  { apply Z.div_lt_upper_bound; [exact Hp1|]. rewrite S1 in U0. lia. }
  assert (U2 : m2 < 60 * (K + 1) * 2 ^ (- e1)).
  { destruct (Z.eq_dec (m / 2 ^ k1) (60 * (K + 1) * 2 ^ (- e1) - 1))
      as [Heq | Hne]; [|lia].
    rewrite Hdown; [lia | reflexivity |].
    assert (k1 = 0 \/ 0 < k1) as [-> | Hpos] by lia.
    { rewrite Z.pow_0_r, Z.mod_1_r. lia. }
    assert (Hk53 : k1 <= 53).
    { rewrite Ek1. unfold shift_of. rewrite fexp64_eq.
      assert (Hm106 : m < 2 ^ 106).
      { rewrite Em. change (2 ^ 106) with (2 ^ 53 * 2 ^ 53).
        assert (60 * 2 ^ 47 < 2 ^ 53) by reflexivity. nia. }
      pose proof (Zdigits2_bound m 106 ltac:(lia) ltac:(lia) Hm106).
      unfold e. lia. }
    rewrite Z.mod_eq by lia. rewrite Heq.
    assert (2 ^ k1 <= 2 ^ 53) by (apply pow2_le; lia).
    assert (2 ^ 53 < 2 * (60 * 2 ^ 47)) by reflexivity.
    rewrite S1 in U0. nia. }
  assert (U3 : m3 * 2 ^ k2 <= m2).
  { rewrite Em3. pose proof (Z.mul_div_le m2 (2 ^ k2) Hp2). lia. }
  unfold fval.
  assert (HQ3 : (0 < IZR (2 ^ (- e3)))%R) by (apply IZR_lt; exact Hq3).
  split.
  - apply Rle_div_r_; [exact HQ3|].
    apply IZR_le in L3. rewrite !mult_IZR in L3. exact L3.
  - apply Rlt_div_l_; [exact HQ3|].
    assert (U4 : m3 < 60 * (K + 1) * 2 ^ (- e3)) by (rewrite S3 in U2; nia).
    apply IZR_lt in U4. rewrite !mult_IZR in U4. exact U4.
Qed.

(** A mantissa below [2^53] is not rounded. *)
Lemma shift_of_zero m e : 0 <= m < 2 ^ 53 -> -1074 <= e -> shift_of m e = 0.
Proof.
  intros Hm He. unfold shift_of. rewrite fexp64_eq.
  pose proof (Zdigits2_bound m 53 ltac:(lia) ltac:(lia) ltac:(lia)). lia.
Qed.

Lemma binary_round_aux_exact m e :
  0 < m < 2 ^ 53 -> -1074 <= e <= 971 ->
  binary_round_aux Float.prec Float.emax false m e loc_Exact
  = S754_finite false (Z.to_pos m) e.
Proof.
  intros Hm He.
  destruct (binary_round_aux_struct false m e loc_Exact ltac:(lia))
    as (m2 & _ & Hex & ->).
  rewrite (shift_of_zero m e ltac:(lia) ltac:(lia)) in *.
  change (2 ^ 0) with 1 in Hex. rewrite Z.div_1_r, Z.mod_1_r in Hex.
  rewrite (Hex eq_refl ltac:(lia)). rewrite !Z.add_0_r.
  rewrite (shift_of_zero m e ltac:(lia) ltac:(lia)).
  change (2 ^ 0) with 1. rewrite Z.div_1_r, Z.add_0_r.
  destruct m as [|q|q]; try lia.
  replace (e <=? 971) with true by (symmetry; apply Z.leb_le; lia).
  reflexivity.
Qed.

Lemma binary_round_exact p e :
  Zpos p < 2 ^ 53 -> -1074 <= e <= 900 ->
  exists mz ez,
    binary_round Float.prec Float.emax false p e = S754_finite false mz ez /\
    -1074 <= ez <= e /\ Zpos mz < 2 ^ 53 /\
    (IZR (Zpos mz) * pw ez = IZR (Zpos p) * pw e)%R.
Proof.
  intros Hp He. unfold binary_round.
  fold (fexp64 (Zpos (digits2_pos p) + e)).
  pose proof (shl_align_exponent p e (fexp64 (Zpos (digits2_pos p) + e)))
    as Hz.
  destruct (shl_align_spec p e (fexp64 (Zpos (digits2_pos p) + e)))
    as (mz & ez & E & Hez & Emz).
  rewrite E in Hz |- *. cbn [snd] in Hz.
  pose proof (digits2_bound p 53 ltac:(lia) Hp) as Hd.
  pose proof (digits2_upper p) as Hu.
  rewrite fexp64_eq in Hz.
  assert (Hlow : -1074 <= ez) by lia.
  assert (Hmz : Zpos mz < 2 ^ 53).
  { rewrite Emz.
    assert (Hk : 0 <= e - ez <= 53 - Zpos (digits2_pos p)) by lia.
    assert (2 ^ (e - ez) <= 2 ^ (53 - Zpos (digits2_pos p)))
      by (apply pow2_le; lia).
    assert (0 < 2 ^ (e - ez)) by (apply pow2_pos; lia).
    assert (E53 : 2 ^ 53 = 2 ^ Zpos (digits2_pos p)
                           * 2 ^ (53 - Zpos (digits2_pos p))).
    { rewrite <- Z.pow_add_r by lia. f_equal. lia. }
    rewrite E53. nia. }
  exists mz, ez. split.
  - apply (binary_round_aux_exact (Zpos mz) ez); lia.
  - split; [lia|]. split; [exact Hmz|].
    rewrite Emz, mult_IZR, <- pw_nonneg by lia.
    rewrite Rmult_assoc, <- pw_add. do 2 f_equal. lia.
Qed.

(** The remainder modulo 60 of a float in [[60 K, 60 (K + 1))] is
    exact. *)
Lemma py_mod60_exact x K :
  good x -> 0 <= K ->
  (60 * IZR K <= F2R x < 60 * IZR (K + 1))%R ->
  exists m,
    py_mod x (i2f 60) = Ok m /\ good m /\
    F2R m = (F2R x - 60 * IZR K)%R.
Proof.
  intros Hx HK HKx. rewrite i2f_60.
  destruct x as [[|]|[|]| |[|] mx ex]; try contradiction.
  { exists (S754_zero false). split; [reflexivity|]. split; [exact I|].
    cbn [F2R] in *.
    assert (K = 0).
    { destruct HKx as [L U].
      assert (L' : (IZR K <= 0)%R) by lra.
      assert (U' : (0 < IZR (K + 1))%R) by lra.
      apply le_IZR in L'. apply lt_IZR in U'. lia. }
    subst K. ring. }
  destruct Hx as [Hex Hmx]. cbn [F2R] in HKx |- *.
  unfold py_mod. cbn [fmod].
  remember (Z.min ex (-47)) as e eqn:Ee.
  set (X := Zpos mx * 2 ^ (ex - e)).
  set (Y := Zpos c60 * 2 ^ (-47 - e)).
  assert (Hpx : 0 < 2 ^ (ex - e)) by (apply pow2_pos; lia).
  assert (Hpy : 0 < 2 ^ (-47 - e)) by (apply pow2_pos; lia).
  assert (HX : 0 < X) by (unfold X; lia).
  assert (HY : 0 < Y) by (unfold Y; lia).
  pose proof (pw_unit e ltac:(lia)) as Hunit.
  assert (HPe : (0 < IZR (2 ^ (- e)))%R) by (apply IZR_pow2_pos; lia).
  pose proof (pw_pos e) as Hpwe.
  assert (EX : (IZR X * pw e = IZR (Zpos mx) * pw ex)%R).
  { unfold X. rewrite mult_IZR, <- pw_nonneg by lia.
    rewrite Rmult_assoc, <- pw_add. do 2 f_equal. lia. }
  assert (EY : (IZR Y * pw e = 60)%R).
  { unfold Y. rewrite mult_IZR, <- pw_nonneg by lia.
    rewrite Rmult_assoc, <- pw_add.
    replace (-47 - e + e) with (-47) by lia.
    pose proof F2R_60 as H60. rewrite i2f_60 in H60. exact H60. }
  assert (EY' : IZR Y = (60 * IZR (2 ^ (- e)))%R).
  { transitivity (IZR Y * (pw e * IZR (2 ^ (- e))))%R;
      [rewrite Hunit; ring|].
    rewrite <- Rmult_assoc, EY. ring. }
  assert (EX' : IZR X = (IZR (Zpos mx) * pw ex * IZR (2 ^ (- e)))%R).
  { transitivity (IZR X * (pw e * IZR (2 ^ (- e))))%R;
      [rewrite Hunit; ring|].
    rewrite <- Rmult_assoc, EX. ring. }
  assert (HKX : K * Y <= X < (K + 1) * Y).
  { split.
    - apply le_IZR. rewrite mult_IZR, EX', EY'. nra.
    - apply lt_IZR. rewrite mult_IZR, EX', EY'. nra. }
  assert (Hq : X / Y = K).
  { symmetry. apply (Z.div_unique_pos X Y K (X - K * Y)); lia. }
  assert (Hr : X mod Y = X - 60 * 0 - K * Y) by (rewrite Z.mod_eq, Hq; lia).
  assert (Hrange : 0 <= X mod Y < Y) by (apply Z.mod_pos_bound; lia).
  assert (Eval : (IZR (X mod Y) * pw e
                  = IZR (Zpos mx) * pw ex - 60 * IZR K)%R).
  { rewrite Hr, !minus_IZR, !mult_IZR.
    rewrite !Rmult_minus_distr_r, EX.
    replace (IZR K * IZR Y * pw e)%R with (IZR K * (IZR Y * pw e))%R by ring.
    rewrite EY. simpl. ring. }
  fold X Y. rewrite <- Eval.
  destruct (X mod Y) as [|p|p] eqn:Ep; try lia.
  - cbn [cond_Zopp binary_normalize Float.sign_bit].
    exists (S754_zero false). split; [reflexivity|]. split; [exact I|].
    cbn [F2R]. ring.
  - cbn [cond_Zopp binary_normalize].
    assert (Hp53 : Zpos p < 2 ^ 53).
    { destruct (Z.le_gt_cases ex (-47)) as [L | L].
      - assert (EX0 : X = Zpos mx).
        { unfold X. replace (ex - e) with 0 by lia.
          change (2 ^ 0) with 1. lia. }
        pose proof (Z.mod_le X Y ltac:(lia) HY). lia.
      - assert (EY0 : Y = Zpos c60).
        { unfold Y. replace (-47 - e) with 0 by lia.
          change (2 ^ 0) with 1. lia. }
        change (Zpos c60) with 8444249301319680 in EY0. lia. }
    destruct (binary_round_exact p e Hp53 ltac:(lia))
      as (mz & ez & -> & Hez & Hmz & Ev).
    exists (S754_finite false mz ez). split; [reflexivity|].
    split; [split; [lia | exact Hmz] | exact Ev].
Qed.

Lemma py_mod60_good x K :
  good x -> 0 <= K ->
  (60 * IZR K <= F2R x < 60 * IZR (K + 1))%R ->
  exists m,
    py_mod x (i2f 60) = Ok m /\ good m /\
    (Rabs (F2R m - (F2R x - 60 * IZR K)) <= eps)%R.
Proof.
  intros Hx HK HKx.
  destruct (py_mod60_exact x K Hx HK HKx) as (m & Em & Gm & Ev).
  exists m. split; [exact Em|]. split; [exact Gm|].
  rewrite Ev. apply Rabs_same_eps.
Qed.

(** ** Round trips: decimal rounding *)

Lemma div_half_even_spec n d :
  0 <= n -> 0 < d ->
  0 <= Float.div_half_even n d /\
  (Rabs (IZR (Float.div_half_even n d) - IZR n / IZR d) <= / 2)%R.
Proof.
  intros Hn Hd. unfold Float.div_half_even.
  pose proof (Z.div_mod n d ltac:(lia)) as Hdm.
  pose proof (Z.mod_pos_bound n d Hd) as Hr.
  assert (Hq : 0 <= n / d) by (apply Z.div_pos; lia).
  assert (HdR : (0 < IZR d)%R) by now apply IZR_lt.
  assert (En : (IZR n / IZR d = IZR (n / d) + IZR (n mod d) / IZR d)%R).
  { rewrite Hdm at 1. rewrite plus_IZR, mult_IZR. field. lra. }
  assert (Hr0 : (0 <= IZR (n mod d) / IZR d)%R).
  { apply Rle_div_r_; [exact HdR|]. rewrite Rmult_0_l. apply IZR_le. lia. }
  assert (Hcases :
            (2 * (n mod d) < d -> (IZR (n mod d) / IZR d < / 2)%R) /\
            (d <= 2 * (n mod d) -> (/ 2 <= IZR (n mod d) / IZR d)%R) /\
            (IZR (n mod d) / IZR d <= 1)%R).
  { split; [|split].
    - intros H. apply IZR_lt in H. rewrite mult_IZR in H.
      apply Rlt_div_l_; [exact HdR|]. lra.
    - intros H. apply IZR_le in H. rewrite mult_IZR in H.
      apply Rle_div_r_; [exact HdR|]. lra.
    - left. apply Rlt_div_l_; [exact HdR|].
      assert (n mod d < d) by lia. apply IZR_lt in H. lra. }
  destruct Hcases as (C1 & C2 & C3).
  destruct (2 * (n mod d) ?= d) eqn:E.
  - apply Z.compare_eq in E.
    assert (IZR (n mod d) / IZR d = / 2)%R.
    { apply Rle_antisym; [|apply C2; lia].
      apply Rmult_le_reg_r with (IZR d); [exact HdR|].
      replace (IZR (n mod d) / IZR d * IZR d)%R with (IZR (n mod d))
        by (field; lra).
      assert (H2 : 2 * (n mod d) <= d) by lia.
      apply IZR_le in H2. rewrite mult_IZR in H2. lra. }
    destruct (Z.even (n / d)); (split; [lia|]); rewrite En, ?plus_IZR, H;
      apply Rabs_le; lra.
  - apply Z.compare_lt_iff in E. split; [lia|].
    rewrite En. specialize (C1 E). apply Rabs_le. lra.
  - apply Z.compare_gt_iff in E. split; [lia|].
    rewrite En, plus_IZR. specialize (C2 ltac:(lia)). apply Rabs_le. lra.
Qed.

Lemma pow10_pos p : 0 <= p -> 0 < 10 ^ p.
Proof. intros. apply Z.pow_pos_nonneg; lia. Qed.

(** [scaled_round x p] is [x * 10^p] rounded to an integer. *)
Lemma scaled_round_good x p :
  good x -> 0 <= p ->
  0 <= Float.scaled_round x p /\
  (Rabs (IZR (Float.scaled_round x p) - F2R x * IZR (10 ^ p)) <= / 2)%R.
Proof.
  intros Hx Hp.
  destruct x as [[|]|[|]| |[|] m e]; try contradiction.
  - cbn. split; [lia|]. rewrite Rmult_0_l, Rminus_diag, Rabs_R0. lra.
  - destruct Hx as [He Hm]. cbn [Float.scaled_round F2R].
    replace (0 <=? e) with false by (symmetry; apply Z.leb_gt; lia).
    pose proof (pow10_pos p Hp) as H10.
    pose proof (pow2_pos (- e) ltac:(lia)) as H2.
    destruct (div_half_even_spec (Zpos m * 10 ^ p) (2 ^ (- e))
                ltac:(lia) H2) as [Hn Herr].
    split; [exact Hn|].
    replace (IZR (Zpos m) * pw e * IZR (10 ^ p))%R
      with (IZR (Zpos m * 10 ^ p) / IZR (2 ^ (- e)))%R; [exact Herr|].
    rewrite mult_IZR, pw_nonpos by lia. unfold Rdiv. ring.
Qed.

(** A decimal numeral with [k > 0] fractional digits, as a float. *)
Lemma of_decimal_good N k :
  0 <= N -> 0 < k -> (IZR N / IZR (10 ^ k) < 8192)%R ->
  good (Float.of_decimal false (Z.to_N N) (- k)) /\
  (Rabs (F2R (Float.of_decimal false (Z.to_N N) (- k))
         - IZR N / IZR (10 ^ k)) <= eps)%R.
Proof.
  intros HN Hk Hlt. unfold Float.of_decimal.
  destruct N as [|p|p]; try lia.
  - cbn. split; [exact I|]. unfold Rdiv. rewrite Rmult_0_l.
    apply Rabs_zero_eps.
  - cbn [Z.to_N].
    replace (0 <=? - k) with false by (symmetry; apply Z.leb_gt; lia).
    rewrite Z.opp_involutive.
    pose proof (pow10_pos k ltac:(lia)) as H10.
    assert (EF : F2R (S754_finite false (Z.to_pos (10 ^ k)) 0)
                 = IZR (10 ^ k)).
    { cbn [F2R]. rewrite Z2Pos.id by exact H10.
      unfold pw. simpl powerRZ. ring. }
    assert (EN : F2R (S754_finite false p 0) = IZR (Zpos p)).
    { cbn [F2R]. unfold pw. simpl powerRZ. ring. }
    pose proof (div_good (S754_finite false p 0) (Z.to_pos (10 ^ k)) 0 I) as H.
    rewrite EF, EN in H. exact (H Hlt).
Qed.

Lemma Rabs_le_inv x a : (Rabs x <= a -> - a <= x <= a)%R.
Proof. unfold Rabs. destruct (Rcase_abs x); lra. Qed.

Lemma IZR_pow10_pos k : 0 <= k -> (0 < IZR (10 ^ k))%R.
Proof. intros. apply IZR_lt. now apply pow10_pos. Qed.

(** [round(x, 6)] of a good float. *)
Lemma py_round_good x :
  good x -> (F2R x < 8000)%R ->
  good (py_round x 6) /\
  (Rabs (F2R (py_round x 6) - F2R x) <= / 2000000 + eps)%R.
Proof.
  intros Hx Hlt.
  destruct (scaled_round_good x 6 Hx ltac:(lia)) as [HN Herr].
  change (10 ^ 6) with 1000000 in Herr.
  apply Rabs_le_inv in Herr.
  assert (Hq : (Rabs (IZR (Float.scaled_round x 6) / 1000000 - F2R x)
                <= / 2000000)%R) by (apply Rabs_le; lra).
  assert (Hb : (IZR (Float.scaled_round x 6) / IZR (10 ^ 6) < 8192)%R).
  { change (10 ^ 6) with 1000000. lra. }
  destruct (of_decimal_good (Float.scaled_round x 6) 6 HN ltac:(lia) Hb)
    as [Hg He].
  change (10 ^ 6) with 1000000 in He.
  destruct x as [[|]|[|]| |[|] m e]; try contradiction.
  - cbn. split; [exact I|]. rewrite Rminus_diag, Rabs_R0.
    pose proof eps_pos. lra.
  - cbn [py_round]. change (323 <? 6) with false. cbn iota.
    split; [exact Hg|].
    apply Rabs_le_inv in He. apply Rabs_le_inv in Hq. apply Rabs_le. lra.
Qed.

Lemma F2R_opp x : F2R (Float.opp x) = (- F2R x)%R.
Proof.
  destruct x as [s|s| |s m e]; cbn; try lra. destruct s; cbn; lra.
Qed.

Lemma of_decimal_opp s n k :
  0 < k ->
  Float.of_decimal (negb s) n (- k) = Float.opp (Float.of_decimal s n (- k)).
Proof.
  intros Hk. unfold Float.of_decimal. destruct n as [|p]; [reflexivity|].
  replace (0 <=? - k) with false by (symmetry; apply Z.leb_gt; lia).
  unfold SFdiv.
  replace (xorb (negb s) false) with (negb (xorb s false))
    by (destruct s; reflexivity).
  destruct (SFdiv_core_binary _ _ _ _ _ _) as [[mz ez] lz].
  apply binary_round_aux_opp.
Qed.

Lemma py_round_opp x : py_round (Float.opp x) 6 = Float.opp (py_round x 6).
Proof.
  destruct x as [s|s| |s m e]; try reflexivity.
  cbn [Float.opp SFopp py_round]. change (323 <? 6) with false. cbn iota.
  cbn [Float.scaled_round]. apply (of_decimal_opp s _ 6). lia.
Qed.

(** ** Round trips: the text of a number *)

Lemma digit_val_char d : 0 <= d <= 9 -> digit_val (digit_char d) = d.
Proof.
  intros H.
  assert (C : d = 0 \/ d = 1 \/ d = 2 \/ d = 3 \/ d = 4 \/ d = 5 \/ d = 6
              \/ d = 7 \/ d = 8 \/ d = 9) by lia.
  repeat (destruct C as [-> | C]; [reflexivity|]). subst d. reflexivity.
Qed.

Lemma digits_value_one c : digits_value [c] = digit_val c.
Proof. unfold digits_value. cbn [fold_left]. lia. Qed.

Lemma digits_aux_acc fuel n acc :
  digits_aux fuel n acc = digits_aux fuel n [] ++ acc.
Proof.
  revert n acc. induction fuel as [|fuel IH]; intros n acc; [reflexivity|].
  cbn [digits_aux]. destruct (n <? 10); [reflexivity|].
  rewrite IH, (IH _ [_]), <- app_assoc. reflexivity.
Qed.

Lemma digits_aux_value fuel n :
  0 <= n < 10 ^ Z.of_nat fuel -> digits_value (digits_aux fuel n []) = n.
Proof.
  revert n. induction fuel as [|fuel IH]; intros n Hn.
  - change (10 ^ Z.of_nat 0) with 1 in Hn. cbn. unfold digits_value. cbn. lia.
  - cbn [digits_aux].
    pose proof (Z.mod_pos_bound n 10 ltac:(lia)) as Hm.
    destruct (n <? 10) eqn:E.
    + apply Z.ltb_lt in E. rewrite digits_value_one, digit_val_char by lia.
      apply Z.mod_small. lia.
    + apply Z.ltb_ge in E. rewrite digits_aux_acc, digits_value_app.
      rewrite digits_value_one, digit_val_char by lia.
      rewrite Nat2Z.inj_succ, Z.pow_succ_r in Hn by lia.
      rewrite IH.
      * cbn [length]. change (10 ^ Z.of_nat 1) with 10.
        pose proof (Z.div_mod n 10 ltac:(lia)). lia.
      * split; [apply Z.div_pos; lia|].
        apply Z.div_lt_upper_bound; lia.
Qed.

Lemma digits_aux_length fuel n j :
  0 <= n < 10 ^ Z.of_nat j -> (1 <= j)%nat ->
  (length (digits_aux fuel n []) <= j)%nat.
Proof.
  revert n j. induction fuel as [|fuel IH]; intros n j Hn Hj.
  - cbn. lia.
  - cbn [digits_aux]. destruct (n <? 10) eqn:E; [cbn; lia|].
    apply Z.ltb_ge in E. rewrite digits_aux_acc, length_app. cbn [length].
    destruct j as [|[|j]]; [lia| change (10 ^ Z.of_nat 1) with 10 in Hn; lia |].
    rewrite Nat2Z.inj_succ, Z.pow_succ_r in Hn by lia.
    assert (length (digits_aux fuel (n / 10) []) <= S j)%nat; [|lia].
    apply IH; [|lia]. split; [apply Z.div_pos; lia|].
    apply Z.div_lt_upper_bound; lia.
Qed.

Lemma digits_fuel n : 0 <= n -> n < 10 ^ Z.of_nat (S (Z.to_nat (Z.log2 n))).
Proof.
  intros Hn. rewrite Nat2Z.inj_succ, Z2Nat.id by apply Z.log2_nonneg.
  destruct (Z.eq_dec n 0) as [-> | Hz]; [reflexivity|].
  pose proof (Z.log2_spec n ltac:(lia)) as [_ H].
  pose proof (Z.log2_nonneg n) as Hl.
  assert (2 ^ Z.succ (Z.log2 n) <= 10 ^ Z.succ (Z.log2 n))
    by (apply Z.pow_le_mono_l; lia).
  lia.
Qed.

Lemma digits_value_digits n : 0 <= n -> digits_value (digits n) = n.
Proof.
  intros Hn. apply digits_aux_value. split; [exact Hn|].
  now apply digits_fuel.
Qed.

Lemma digits_length n j :
  0 <= n < 10 ^ Z.of_nat j -> (1 <= j)%nat ->
  (1 <= length (digits n) <= j)%nat.
Proof.
  intros Hn Hj. split; [|now apply digits_aux_length].
  destruct (digits_head n ltac:(lia)) as (d & rest & -> & _). cbn. lia.
Qed.

Lemma digits_all n : 0 <= n -> forallb is_digit (digits n) = true.
Proof. intros Hn. now apply digits_aux_digits. Qed.

Lemma repeat_zero_digits k : forallb is_digit (repeat char_0 k) = true.
Proof. induction k as [|k IH]; [reflexivity|]. cbn. exact IH. Qed.

Lemma digits_value_zeros k s :
  digits_value (repeat char_0 k ++ s) = digits_value s.
Proof.
  induction k as [|k IH]; [reflexivity|].
  change (repeat char_0 (S k) ++ s) with ([char_0] ++ (repeat char_0 k ++ s)).
  rewrite digits_value_app, IH, digits_value_one.
  change (digit_val char_0) with 0. lia.
Qed.

Lemma zfill_value w s : digits_value (zfill w s) = digits_value s.
Proof. apply digits_value_zeros. Qed.

Lemma zfill_digits w s :
  forallb is_digit s = true -> forallb is_digit (zfill w s) = true.
Proof.
  intros H. unfold zfill. now rewrite forallb_app, repeat_zero_digits.
Qed.

Lemma zfill_length w s : length (zfill w s) = Nat.max w (length s).
Proof. unfold zfill. rewrite length_app, repeat_length. lia. Qed.

Lemma format_02d_length n :
  0 <= n < 100 -> length (format_02d n) = 2%nat.
Proof.
  intros Hn. unfold format_02d.
  replace (n <? 0) with false by (symmetry; apply Z.ltb_ge; lia).
  pose proof (digits_length n 2 ltac:(change (10 ^ Z.of_nat 2) with 100; lia)
                ltac:(lia)) as Hl.
  rewrite zfill_length. lia.
Qed.

(** ['{:02d}'.format(n)] for [n] below 100 is a field of two digits. *)
Lemma format_02d_field n :
  0 <= n < 100 ->
  field12 (format_02d n) /\ digits_value (format_02d n) = n.
Proof.
  intros Hn. unfold format_02d.
  replace (n <? 0) with false by (symmetry; apply Z.ltb_ge; lia).
  pose proof (digits_length n 2 ltac:(change (10 ^ Z.of_nat 2) with 100; lia)
                ltac:(lia)) as Hl.
  split; [split|].
  - apply zfill_digits, digits_all. lia.
  - right. rewrite zfill_length. lia.
  - rewrite zfill_value. apply digits_value_digits. lia.
Qed.

Lemma forallb_firstn_ {A : Type} (p : A -> bool) k (l : list A) :
  forallb p l = true -> forallb p (firstn k l) = true.
Proof.
  intros H. rewrite <- (firstn_skipn k l), forallb_app in H.
  now apply andb_true_iff in H as [H _].
Qed.

Lemma forallb_skipn_ {A : Type} (p : A -> bool) k (l : list A) :
  forallb p l = true -> forallb p (skipn k l) = true.
Proof.
  intros H. rewrite <- (firstn_skipn k l), forallb_app in H.
  now apply andb_true_iff in H as [_ H].
Qed.

Lemma good_sign_bit x : good x -> Float.sign_bit x = false.
Proof. destruct x as [[|]|[|]| |[|] m e]; simpl; tauto. Qed.

(** ['{:06.3f}'.format(s)] for [s] below 100: two digits, the dot and
    three digits, which together spell [s * 1000] rounded. *)
Lemma format_06f_text s :
  good s -> Float.scaled_round s 3 < 100000 ->
  exists ip fp,
    format_06f s 3 = Ok (ip ++ dot :: fp) /\
    field12 ip /\ forallb is_digit fp = true /\ length fp = 3%nat /\
    digits_value (ip ++ fp) = Float.scaled_round s 3 /\
    length ip = 2%nat.
Proof.
  intros Hs HN.
  destruct (scaled_round_good s 3 Hs ltac:(lia)) as [HN0 _].
  set (N := Float.scaled_round s 3) in *.
  pose proof (digits_length N 5
                ltac:(change (10 ^ Z.of_nat 5) with 100000; lia) ltac:(lia))
    as HL.
  pose proof (digits_all N HN0) as HD.
  pose proof (digits_value_digits N HN0) as HV.
  set (ds := zfill 4 (digits N)).
  assert (Hds : forallb is_digit ds = true) by now apply zfill_digits.
  assert (Lds : (length ds = 4 \/ length ds = 5)%nat).
  { unfold ds. rewrite zfill_length. lia. }
  assert (Vds : digits_value ds = N).
  { unfold ds. now rewrite zfill_value. }
  set (k := (length ds - 3)%nat).
  assert (Efix : fixed_digits s 3 = firstn k ds ++ dot :: skipn k ds).
  { unfold fixed_digits. fold N. change (Z.to_nat 3) with 3%nat.
    fold ds. fold k. reflexivity. }
  assert (Ebody : format_06f s 3 = Ok (zfill 6 (fixed_digits s 3))).
  { unfold format_06f. change (3 <? 0) with false.
    change (PY_SSIZE_T_MAX <? 3) with false.
    change (INT_MAX <? 3) with false. cbn iota.
    rewrite (good_sign_bit s Hs).
    destruct s as [[|]|[|]| |[|] m e]; try contradiction; reflexivity. }
  assert (Lf : length (firstn k ds) = k) by (apply firstn_length_le; lia).
  assert (Lk : length (skipn k ds) = 3%nat) by (rewrite length_skipn; lia).
  exists (repeat char_0 (6 - length (fixed_digits s 3)) ++ firstn k ds),
         (skipn k ds).
  assert (Lip : length (repeat char_0 (6 - length (fixed_digits s 3))
                        ++ firstn k ds) = 2%nat).
  { rewrite length_app, repeat_length, Lf, Efix, length_app.
    cbn [length]. rewrite Lf, Lk. lia. }
  split; [|split; [|split; [|split; [|split]]]].
  - rewrite Ebody. unfold zfill. rewrite Efix at 2.
    rewrite <- app_assoc. reflexivity.
  - split.
    + rewrite forallb_app, repeat_zero_digits.
      now apply forallb_firstn_.
    + right. exact Lip.
  - now apply forallb_skipn_.
  - exact Lk.
  - rewrite <- app_assoc, digits_value_zeros, firstn_skipn. exact Vds.
  - exact Lip.
Qed.

(** ** Round trips: the text is read by the pattern *)

Definition colon : ascii := ":"%char.

(** Neither a blank nor an underscore. *)
Definition clean (c : ascii) : bool :=
  negb (is_space c) && negb (Ascii.eqb c underscore).

Lemma clean_not_space c : clean c = true -> is_space c = false.
Proof.
  unfold clean. intros H. apply andb_true_iff in H as [H _].
  now apply negb_true_iff in H.
Qed.

Lemma clean_not_underscore c :
  clean c = true -> Ascii.eqb c underscore = false.
Proof.
  unfold clean. intros H. apply andb_true_iff in H as [_ H].
  now apply negb_true_iff in H.
Qed.

Lemma digit_clean c : is_digit c = true -> clean c = true.
Proof.
  intros H. unfold clean.
  now rewrite (digit_not_space c H), (digit_not_underscore c H).
Qed.

Lemma remove_underscores_clean prev s :
  Ascii.eqb prev underscore = false ->
  forallb clean s = true ->
  remove_underscores prev s = Some s.
Proof.
  revert prev. induction s as [|c s IH]; simpl; intros prev Hp Hs.
  - now rewrite Hp.
  - apply andb_true_iff in Hs as [Hc Hs].
    pose proof (clean_not_underscore c Hc) as Hu.
    rewrite Hu, Hp. simpl. now rewrite (IH c Hu Hs).
Qed.

Lemma strip_clean s : forallb clean s = true -> strip s = s.
Proof.
  intros H. unfold strip.
  rewrite (drop_while_head is_space s)
    by (apply (forallb_head_false _ clean); auto using clean_not_space).
  rewrite (drop_while_head is_space (rev s))
    by (apply (forallb_head_false _ clean);
        auto using clean_not_space, forallb_rev_).
  apply rev_involutive.
Qed.

(** The sign that the formatter writes: nothing, ['+'] or ['-']. *)
Definition written_sign (sg : str) : Prop :=
  sg = [] \/ sg = lit "+" \/ sg = lit "-".

Lemma written_sign_opt sg : written_sign sg -> sign_opt sg.
Proof.
  intros [-> | [-> | ->]]; [left; reflexivity | right | right];
    eexists; split; reflexivity.
Qed.

(** A field followed by a colon is not a numeral for [float]. *)
Lemma float_of_numeral_colon sg a rest :
  written_sign sg -> field12 a ->
  float_of_numeral (sg ++ a ++ colon :: rest) = None.
Proof.
  intros Hsg Ha. pose proof Ha as [Hd Hl].
  destruct (field12_head a Ha) as (d & a' & -> & H1).
  destruct (digit_not_sign_char d H1) as [Hm Hp].
  destruct (digit_not_letter d H1) as [Hi Hn].
  assert (Hbody : split_sign (sg ++ (d :: a') ++ colon :: rest)
                  = (match sg with [] => false | c :: _ => Ascii.eqb c "-"%char end,
                     (d :: a') ++ colon :: rest)).
  { destruct Hsg as [-> | [-> | ->]]; cbn [app split_sign lit list_ascii_of_string].
    - now rewrite Hm, Hp.
    - reflexivity.
    - reflexivity. }
  unfold float_of_numeral. rewrite Hbody.
  cbn [app map str_eqb lit list_ascii_of_string]. rewrite Hi, Hn.
  cbn [andb orb].
  assert (Hspan : span is_digit ((d :: a') ++ colon :: rest)
                  = (d :: a', colon :: rest))
    by (apply span_app; [exact Hd | reflexivity]).
  cbn [app] in Hspan. rewrite Hspan.
  change (Ascii.eqb colon "."%char) with false. cbn iota.
  cbn [is_nil andb]. reflexivity.
Qed.

Lemma py_float_of_str_colon sg a rest :
  written_sign sg -> field12 a ->
  forallb clean (sg ++ a ++ colon :: rest) = true ->
  exists msg,
    py_float_of_str (sg ++ a ++ colon :: rest) = Raise (ValueError msg).
Proof.
  intros Hsg Ha Hc. unfold py_float_of_str.
  rewrite remove_underscores_clean by (auto; reflexivity).
  rewrite strip_clean by exact Hc.
  rewrite (float_of_numeral_colon sg a rest Hsg Ha). eauto.
Qed.

Lemma take_seconds_whole ip fp :
  field12 ip -> forallb is_digit fp = true ->
  take_seconds (ip ++ dot :: fp) = Some (ip ++ dot :: fp, []).
Proof.
  intros Hip Hfp. unfold take_seconds.
  rewrite (take_digits12_app ip dot fp Hip) by reflexivity.
  cbn [take_fraction]. change (Ascii.eqb dot dot) with true. cbn iota.
  rewrite <- (app_nil_r fp) at 1.
  rewrite (span_app is_digit fp []) by auto. reflexivity.
Qed.

(** The text of the formatter, with colons, is read back field by field. *)
Lemma parse_written sg a b ip fp :
  written_sign sg -> field12 a -> field12 b -> field12 ip ->
  forallb is_digit fp = true ->
  parse_sexagesimal (sg ++ a ++ colon :: b ++ colon :: ip ++ dot :: fp)
  = Ok (sign_of sg, digits_value a, digits_value b, numeral_value ip fp).
Proof.
  intros Hsg Ha Hb Hip Hfp.
  apply (parse_sexagesimal_some _ sg a b ip (dot :: fp) fp);
    auto using written_sign_opt.
  - rewrite (scan_fields sg a colon b colon _ (written_sign_opt sg Hsg) Ha
               eq_refl Hb eq_refl).
    now rewrite take_seconds_whole.
  - split; [exact Hfp | now right].
Qed.

Lemma written_clean sg a b ip fp :
  written_sign sg -> field12 a -> field12 b -> field12 ip ->
  forallb is_digit fp = true ->
  forallb clean (sg ++ a ++ colon :: b ++ colon :: ip ++ dot :: fp) = true.
Proof.
  intros Hsg [Ha _] [Hb _] [Hip _] Hfp.
  pose proof (forallb_impl_ is_digit clean) as Himp.
  rewrite !forallb_app. cbn [forallb]. rewrite !forallb_app. cbn [forallb].
  rewrite !forallb_app. cbn [forallb].
  rewrite (Himp a digit_clean Ha), (Himp b digit_clean Hb),
    (Himp ip digit_clean Hip), (Himp fp digit_clean Hfp).
  destruct Hsg as [-> | [-> | ->]]; reflexivity.
Qed.

(** ** Round trips: from the fields back to a number *)

Lemma eps_small : (eps <= / 100000000000)%R.
Proof.
  unfold eps. change (IZR (2 ^ 38)) with 274877906944%R. lra.
Qed.

Lemma i2f_good n :
  0 <= n < 8192 ->
  good (i2f n) /\ (Rabs (F2R (i2f n) - IZR n) <= eps)%R.
Proof.
  intros Hn. unfold i2f, Float.of_Z, binary_normalize.
  destruct n as [|p|p]; try lia.
  - split; [exact I|]. apply Rabs_zero_eps.
  - assert (E : (IZR (Zpos p) * pw 0 = IZR (Zpos p))%R)
      by (unfold pw; simpl powerRZ; ring).
    assert (Hlt : (IZR (Zpos p) * pw 0 < 8192)%R)
      by (rewrite E; apply IZR_lt; lia).
    destruct (binary_round_good p 0 Hlt) as [Hg He].
    rewrite E in He. split; assumption.
Qed.

Lemma div60_good x :
  nonneg x -> (F2R x < 8192)%R ->
  good (Float.div x (i2f 60)) /\
  (Rabs (F2R (Float.div x (i2f 60)) - F2R x / 60) <= eps)%R.
Proof.
  intros Hx Hlt. pose proof (F2R_nonneg x Hx) as H0.
  pose proof F2R_60 as E60. rewrite i2f_60 in E60 |- *.
  pose proof (div_good x c60 (-47) Hx) as H. rewrite E60 in H.
  apply H. lra.
Qed.

(** The value [((c / 60 + b) / 60) + a] of the fields read. *)
Lemma fields_value_good a b c :
  0 <= a < 100 -> 0 <= b < 100 -> good c -> (F2R c < 101)%R ->
  good (((c / i2f 60 + i2f b) / i2f 60) + i2f a)%float /\
  (Rabs (F2R (((c / i2f 60 + i2f b) / i2f 60) + i2f a)%float
         - (IZR a + (IZR b + F2R c / 60) / 60)) <= 5 * eps)%R.
Proof.
  intros Ha Hb Hc Hlt.
  pose proof eps_small as Heps. pose proof eps_pos as Hpos.
  pose proof (F2R_nonneg c (good_nonneg c Hc)) as Hc0.
  destruct (i2f_good a ltac:(lia)) as [Ga Ea].
  destruct (i2f_good b ltac:(lia)) as [Gb Eb].
  assert (Ba : (0 <= IZR a <= 100)%R) by (split; apply IZR_le; lia).
  assert (Bb : (0 <= IZR b <= 100)%R) by (split; apply IZR_le; lia).
  apply Rabs_le_inv in Ea. apply Rabs_le_inv in Eb.
  destruct (div60_good c (good_nonneg c Hc) ltac:(lra)) as [G1 E1].
  apply Rabs_le_inv in E1.
  destruct (add_good _ _ G1 Gb ltac:(lra)) as [G2 E2].
  apply Rabs_le_inv in E2.
  destruct (div60_good _ (good_nonneg _ G2) ltac:(lra)) as [G3 E3].
  apply Rabs_le_inv in E3.
  destruct (add_good _ _ G3 Ga ltac:(lra)) as [G4 E4].
  apply Rabs_le_inv in E4.
  split; [exact G4|]. apply Rabs_le. lra.
Qed.

Definition c1 : positive := 4503599627370496%positive.

Lemma i2f_1 : i2f 1 = S754_finite false c1 (-52).
Proof. reflexivity. Qed.

Lemma F2R_1 : F2R (i2f 1) = 1%R.
Proof.
  rewrite i2f_1. cbn [F2R]. rewrite pw_nonpos by lia.
  change (Zpos c1) with (2 ^ 52). change (- -52) with 52.
  pose proof (IZR_pow2_pos 52 ltac:(lia)). field. lra.
Qed.

(** Multiplying by the float [1.0]. *)
Lemma mul_one_good x :
  nonneg x -> expo x <= 13 -> (F2R x < 8192)%R ->
  good (Float.mul (i2f 1) x) /\
  (Rabs (F2R (Float.mul (i2f 1) x) - F2R x) <= eps)%R.
Proof.
  intros Hx He Hlt.
  pose proof (mul_good (i2f 1) x) as H. rewrite F2R_1 in H.
  rewrite i2f_1 in H |- *. cbn [nonneg expo] in H.
  rewrite Rmult_1_l in H. apply H; auto. lia.
Qed.

(** ** Round trips: writing a magnitude and reading it back *)

(** The split of a magnitude [h] below 100 into whole part, minutes and
    seconds: both remainders and both integer parts are computed, the
    minutes are below 60, the seconds are a float below 60, and the
    three together give [h] back within two roundings. *)
Lemma magnitude_remainders h :
  good h -> (F2R h < 100)%R ->
  exists m s K Mi,
    py_mod (h * i2f 60)%float (i2f 60) = Ok m /\
    py_mod (m * i2f 60)%float (i2f 60) = Ok s /\
    py_int_of_float h = Ok K /\
    py_int_of_float m = Ok Mi /\
    0 <= K < 100 /\ 0 <= Mi < 60 /\
    good s /\ (F2R s < 60)%R /\
    (Rabs (IZR K + (IZR Mi + F2R s / 60) / 60 - F2R h) <= 2 * eps)%R.
Proof.
  intros Hh Hlt.
  pose proof eps_pos as Hpos.
  destruct (py_int_good h Hh) as (K & EK & HK0 & HK).
  destruct (mul60_good h K Hh HK0 HK Hlt) as (G1 & E1 & B1).
  destruct (py_mod60_exact _ K G1 HK0 B1) as (m & Em & Gm & Vm).
  apply Rabs_le_inv in E1.
  destruct (py_int_good m Gm) as (Mi & EM & HM0 & HM).
  assert (Hm60 : (F2R m < 60)%R).
  { rewrite plus_IZR in B1. lra. }
  destruct (mul60_good m Mi Gm HM0 HM ltac:(lra)) as (G2 & E2 & B2).
  destruct (py_mod60_exact _ Mi G2 HM0 B2) as (s & Es & Gs & Vs).
  apply Rabs_le_inv in E2.
  assert (HK100 : K < 100) by (apply lt_IZR; lra).
  assert (HM60 : Mi < 60) by (apply lt_IZR; lra).
  assert (Hs60 : (F2R s < 60)%R).
  { rewrite plus_IZR in B2. lra. }
  exists m, s, K, Mi.
  repeat (split; [first [assumption | lia]|]).
  apply Rabs_le. lra.
Qed.

(** The fields of a magnitude [h] below 100: the two remainders and
    the two integer parts are computed, the seconds are written with two
    digits before the dot, and the fields read back give [h] within
    [3e-7]. *)
Lemma magnitude_fields h :
  good h -> (F2R h < 100)%R ->
  exists m s K Mi ip fp,
    py_mod (h * i2f 60)%float (i2f 60) = Ok m /\
    py_mod (m * i2f 60)%float (i2f 60) = Ok s /\
    py_int_of_float h = Ok K /\
    py_int_of_float m = Ok Mi /\
    format_06f s 3 = Ok (ip ++ dot :: fp) /\
    0 <= K < 100 /\ 0 <= Mi < 60 /\
    field12 ip /\ forallb is_digit fp = true /\
    length ip = 2%nat /\ length fp = 3%nat /\
    digits_value (ip ++ fp) <= 60000 /\
    good (((numeral_value ip fp / i2f 60 + i2f Mi) / i2f 60) + i2f K)%float /\
    (Rabs (F2R (((numeral_value ip fp / i2f 60 + i2f Mi) / i2f 60)
                + i2f K)%float - F2R h) <= 3 / 10000000)%R.
Proof.
  intros Hh Hlt.
  pose proof eps_small as Heps. pose proof eps_pos as Hpos.
  destruct (magnitude_remainders h Hh Hlt)
    as (m & s & K & Mi & Em & Es & EK & EM & HK & HM & Gs & Hs60 & Ehs).
  apply Rabs_le_inv in Ehs.
  destruct (scaled_round_good s 3 Gs ltac:(lia)) as [HN0 EN].
  change (10 ^ 3) with 1000 in EN. apply Rabs_le_inv in EN.
  assert (HN : Float.scaled_round s 3 < 60001) by (apply lt_IZR; lra).
  destruct (format_06f_text s Gs ltac:(lia))
    as (ip & fp & Ess & Hip & Hfp & Lfp & Vn & Lip).
  assert (Ec : numeral_value ip fp
               = Float.of_decimal false (Z.to_N (Float.scaled_round s 3))
                   (Z.opp 3)).
  { unfold numeral_value. rewrite Vn, Lfp. reflexivity. }
  assert (Hq : (IZR (Float.scaled_round s 3) / IZR (10 ^ 3) < 8192)%R).
  { change (10 ^ 3) with 1000. lra. }
  destruct (of_decimal_good _ 3 HN0 ltac:(lia) Hq) as [Gc Erc].
  rewrite <- Ec in Gc, Erc. change (10 ^ 3) with 1000 in Erc.
  apply Rabs_le_inv in Erc.
  assert (Hc100 : (F2R (numeral_value ip fp) < 100)%R) by lra.
  destruct (fields_value_good K Mi _ ltac:(lia) ltac:(lia) Gc ltac:(lra))
    as [Gt Et].
  apply Rabs_le_inv in Et.
  exists m, s, K, Mi, ip, fp.
  repeat (split; [first [assumption | lia]|]).
  apply Rabs_le. lra.
Qed.

Lemma fields_text_default h f0 m s a b ss :
  py_mod (h * i2f 60)%float (i2f 60) = Ok m ->
  py_mod (m * i2f 60)%float (i2f 60) = Ok s ->
  py_int_of_float h = Ok a ->
  py_int_of_float m = Ok b ->
  format_06f s 3 = Ok ss ->
  fields_text h f0 default_sep 3
  = Ok (f0 ++ format_02d a ++ colon :: format_02d b ++ colon :: ss).
Proof.
  intros Em Es Ea Eb Ess. unfold fields_text.
  rewrite Em. cbn [bind]. rewrite Es. cbn [bind]. rewrite Ea. cbn [bind].
  change (getitem (if Nat.eqb (length default_sep) 1
                   then default_sep ++ default_sep else default_sep) 0)
    with (@Ok str [colon]).
  cbn [bind]. rewrite Eb. cbn [bind].
  change (getitem (if Nat.eqb (length default_sep) 1
                   then default_sep ++ default_sep else default_sep) 1)
    with (@Ok str [colon]).
  cbn [bind].
  change (Nat.eqb (length (if Nat.eqb (length default_sep) 1
                           then default_sep ++ default_sep else default_sep)) 3)
    with false.
  cbn [bind]. rewrite Ess. cbn [bind app].
  rewrite app_nil_r. reflexivity.
Qed.

(** The magnitude [h], below 100, is written as three fields and read
    back as a value within [3e-7] of it. *)
Lemma written_round_trip h sg :
  good h -> (F2R h < 100)%R -> written_sign sg ->
  exists text t,
    fields_text h sg default_sep 3 = Ok text /\
    (exists msg, py_float_of_str text = Raise (ValueError msg)) /\
    (exists q, parse_sexagesimal text = Ok q /\
               quadruple_value q = (i2f (sign_of sg) * t)%float) /\
    good t /\ (Rabs (F2R t - F2R h) <= 3 / 10000000)%R.
Proof.
  intros Hh Hlt Hsg.
  destruct (magnitude_fields h Hh Hlt)
    as (m & s & K & Mi & ip & fp & Em & Es & EK & EM & Ess & HK & HM
        & Hip & Hfp & _ & _ & _ & Gt & Et).
  destruct (format_02d_field K ltac:(lia)) as [FK VK].
  destruct (format_02d_field Mi ltac:(lia)) as [FM VM].
  eexists. eexists. split; [|split; [|split; [|split]]].
  - exact (fields_text_default h sg m s K Mi _ Em Es EK EM Ess).
  - apply py_float_of_str_colon; auto.
    apply written_clean; auto.
  - eexists. split.
    + apply parse_written; auto.
    + cbn [quadruple_value]. rewrite VK, VM. reflexivity.
  - exact Gt.
  - exact Et.
Qed.

(** The value read back, with the sign that the text shows. *)
Definition signed (sg : str) (v : float) : float :=
  if str_eqb sg (lit "-") then Float.opp v else v.

Lemma sign_times sg t :
  (i2f (sign_of sg) * t)%float = signed sg (i2f 1 * t)%float.
Proof.
  unfold sign_of, signed. destruct (str_eqb sg (lit "-")); [|reflexivity].
  now rewrite i2f_minus_one, mul_opp_l.
Qed.

Lemma good_finite x : good x -> Float.is_finite x = true.
Proof. destruct x as [[|]|[|]| |[|] m e]; simpl; tauto. Qed.

Lemma finite_opp x : Float.is_finite (Float.opp x) = Float.is_finite x.
Proof. destruct x; reflexivity. Qed.

Lemma signed_round_finite sg v :
  good (py_round v 6) -> Float.is_finite (py_round (signed sg v) 6) = true.
Proof.
  intros H. unfold signed. destruct (str_eqb sg (lit "-")).
  - rewrite py_round_opp, finite_opp. now apply good_finite.
  - now apply good_finite.
Qed.

(** Both converters on the text written for a magnitude [h]. *)
Lemma read_back h sg :
  good h -> (F2R h < 100)%R -> written_sign sg ->
  exists text v,
    fields_text h sg default_sep 3 = Ok text /\
    deg_to_decimal_deg text = Ok (py_round (signed sg v) 6) /\
    hourangle_to_decimal_deg text
    = Ok (py_round (signed sg v / i2f 24 * i2f 360)%float 6) /\
    good v /\ (Rabs (F2R v - F2R h) <= 4 / 10000000)%R.
Proof.
  intros Hh Hlt Hsg.
  pose proof eps_small as Heps. pose proof eps_pos as Hpos.
  pose proof (F2R_nonneg h (good_nonneg h Hh)) as Hh0.
  destruct (written_round_trip h sg Hh Hlt Hsg)
    as (text & t & Etext & [msg Emsg] & (q & Eq & Ev) & Gt & Et).
  apply Rabs_le_inv in Et.
  pose proof (good_expo t Gt) as Ht.
  destruct (mul_one_good t (good_nonneg t Gt) ltac:(lia) ltac:(lra))
    as [Gv Erv].
  apply Rabs_le_inv in Erv.
  exists text, (i2f 1 * t)%float.
  split; [exact Etext|]. split; [|split; [|split]].
  - rewrite (deg_text text msg Emsg), Eq. cbn [bind].
    now rewrite Ev, sign_times.
  - rewrite (hourangle_text text msg Emsg), Eq. cbn [bind].
    now rewrite Ev, sign_times.
  - exact Gv.
  - apply Rabs_le. lra.
Qed.

Lemma expo_small m e : (IZR (Zpos m) * pw e < 8192)%R -> e <= 13.
Proof.
  intros H. destruct (Z.le_gt_cases e 13) as [L | L]; [exact L|]. exfalso.
  assert (H14 : (pw 14 <= pw e)%R) by (apply pw_le; lia).
  rewrite (pw_nonneg 14) in H14 by lia.
  change (IZR (2 ^ 14)) with 16384%R in H14.
  assert (1 <= IZR (Zpos m))%R by (apply IZR_le; lia).
  nra.
Qed.

(** *** Degrees *)

Lemma degree_magnitude s m e :
  magnitude (S754_finite s m e) (i2f 1)
  = (i2f 1 * S754_finite false m e)%float.
Proof.
  unfold magnitude. destruct s.
  - change (Float.ltb (i2f 0) (S754_finite true m e)) with false. cbn iota.
    change (i2f (-1) * i2f 1)%float with (Float.opp (i2f 1)).
    change (S754_finite true m e) with (Float.opp (S754_finite false m e)).
    apply mul_opp_opp.
  - change (Float.ltb (i2f 0) (S754_finite false m e)) with true. cbn iota.
    change (i2f 1 * i2f 1)%float with (i2f 1). reflexivity.
Qed.

(** X1. Degrees written with the default separator [':'], the sign and
    the default precision 3 are read back by [deg_to_decimal_deg]: for
    every finite [d] with [-89.999 <= d <= 89.999] the text is returned,
    the conversion of the text returns, and its result is a finite float
    within [1e-6] of [d]. This is the round trip of [dec_to_sexagesimal]
    and [dec_to_decimal]. *)
Theorem degree_round_trip (d : float) :
  Float.is_finite d = true ->
  (- (89999 / 1000) <= F2R d <= 89999 / 1000)%R ->
  exists text r,
    to_degminsec_sexagesimal d default_sep true default_precision = Ok text /\
    deg_to_decimal_deg text = Ok r /\
    Float.is_finite r = true /\
    (Rabs (F2R r - F2R d) <= / 1000000)%R.
Proof.
  intros Hfin Hd. unfold default_precision.
  pose proof eps_small as Heps. pose proof eps_pos as Hpos.
  destruct d as [s|s| |s m e]; try discriminate Hfin.
  - exists (lit "-00:00:00.000"), (S754_zero true).
    split; [destruct s; vm_compute; reflexivity|].
    split; [vm_compute; reflexivity|]. split; [reflexivity|].
    cbn [F2R]. rewrite Rminus_diag, Rabs_R0. lra.
  - unfold to_degminsec_sexagesimal.
    rewrite format_sexagesimal_fields, degree_magnitude.
    set (dp := S754_finite false m e).
    assert (Hdp : (0 <= F2R dp <= 89999 / 1000)%R).
    { pose proof (F2R_nonneg dp I). split; [assumption|].
      unfold dp. destruct s; cbn [F2R] in Hd |- *; lra. }
    assert (He : expo dp <= 13)
      by (apply (expo_small m e); unfold dp in Hdp; cbn [F2R] in Hdp; lra).
    destruct (mul_one_good dp I He ltac:(lra)) as [Gh Eh].
    apply Rabs_le_inv in Eh.
    assert (Hsg : written_sign (sign_text true (S754_finite s m e))).
    { destruct s; [right; right | right; left]; reflexivity. }
    destruct (read_back _ _ Gh ltac:(lra) Hsg)
      as (text & v & Etext & Edeg & _ & Gv & Ev).
    apply Rabs_le_inv in Ev.
    destruct (py_round_good v Gv ltac:(lra)) as [Gr Er].
    apply Rabs_le_inv in Er.
    exists text. eexists. split; [exact Etext|]. split; [exact Edeg|].
    split; [now apply signed_round_finite|].
    destruct s.
    + change (signed (sign_text true (S754_finite true m e)) v)
        with (Float.opp v).
      rewrite py_round_opp, F2R_opp.
      change (F2R (S754_finite true m e)) with (- F2R dp)%R.
      apply Rabs_le. lra.
    + change (signed (sign_text true (S754_finite false m e)) v) with v.
      fold dp. apply Rabs_le. lra.
Qed.

Lemma degree_round_trip_witness :
  exists text r,
    to_degminsec_sexagesimal (i2f (-12)) default_sep true default_precision
      = Ok text /\
    deg_to_decimal_deg text = Ok r /\
    Float.is_finite r = true /\
    (Rabs (F2R r - F2R (i2f (-12))) <= / 1000000)%R.
Proof.
  apply (degree_round_trip (i2f (-12))); [reflexivity|].
  pose proof (proj2 (i2f_good 12 ltac:(lia))) as H.
  apply Rabs_le_inv in H. pose proof eps_small.
  change (i2f (-12)) with (Float.opp (i2f 12)). rewrite F2R_opp. lra.
Defined.

(** *** Hour angles *)

Definition c24 : positive := 6755399441055744%positive.
Definition c360 : positive := 6333186975989760%positive.
Definition c15th : positive := 4803839602528529%positive.

Lemma i2f_24 : i2f 24 = S754_finite false c24 (-48).
Proof. reflexivity. Qed.

Lemma i2f_360 : i2f 360 = S754_finite false c360 (-44).
Proof. reflexivity. Qed.

Lemma hour_multiplier_eq : hour_multiplier = S754_finite false c15th (-56).
Proof. vm_compute. reflexivity. Qed.

Lemma F2R_24 : F2R (i2f 24) = 24%R.
Proof.
  rewrite i2f_24. cbn [F2R]. rewrite pw_nonpos by lia.
  change (Zpos c24) with (24 * 2 ^ 48). rewrite mult_IZR.
  change (- -48) with 48.
  pose proof (IZR_pow2_pos 48 ltac:(lia)). field. lra.
Qed.

Lemma F2R_360 : F2R (i2f 360) = 360%R.
Proof.
  rewrite i2f_360. cbn [F2R]. rewrite pw_nonpos by lia.
  change (Zpos c360) with (360 * 2 ^ 44). rewrite mult_IZR.
  change (- -44) with 44.
  pose proof (IZR_pow2_pos 44 ltac:(lia)). field. lra.
Qed.

(** The multiplier [24.0 / 360] is within one rounding of [1 / 15]. *)
Lemma F2R_hour_multiplier :
  (Rabs (F2R hour_multiplier - / 15) <= eps)%R.
Proof.
  pose proof (div_good (i2f 24) c360 (-44)) as H.
  rewrite <- i2f_360, F2R_360, F2R_24 in H.
  destruct H as [_ H]; [rewrite i2f_24; exact I | lra |].
  unfold hour_multiplier. apply Rabs_le_inv in H. apply Rabs_le. lra.
Qed.

Lemma hour_magnitude m e :
  magnitude (S754_finite false m e) hour_multiplier
  = (hour_multiplier * S754_finite false m e)%float.
Proof.
  unfold magnitude.
  change (Float.ltb (i2f 0) (S754_finite false m e)) with true. cbn iota.
  replace (i2f 1 * hour_multiplier)%float with hour_multiplier
    by (vm_compute; reflexivity).
  reflexivity.
Qed.

Lemma div24_good x :
  nonneg x -> (F2R x < 8192)%R ->
  good (Float.div x (i2f 24)) /\
  (Rabs (F2R (Float.div x (i2f 24)) - F2R x / 24) <= eps)%R.
Proof.
  intros Hx Hlt. pose proof (F2R_nonneg x Hx) as H0.
  pose proof F2R_24 as E24. rewrite i2f_24 in E24 |- *.
  pose proof (div_good x c24 (-48) Hx) as H. rewrite E24 in H.
  apply H. lra.
Qed.

Lemma mul360_good x :
  good x -> (F2R x < 20)%R ->
  good (Float.mul x (i2f 360)) /\
  (Rabs (F2R (Float.mul x (i2f 360)) - 360 * F2R x) <= eps)%R.
Proof.
  intros Hx Hlt. pose proof (F2R_nonneg x (good_nonneg x Hx)) as H0.
  pose proof (good_expo x Hx) as He.
  pose proof (mul_good x (i2f 360) (good_nonneg x Hx)) as H.
  rewrite F2R_360 in H. rewrite i2f_360 in H |- *. cbn [nonneg expo] in H.
  replace (360 * F2R x)%R with (F2R x * 360)%R by ring.
  apply H; [exact I | lia | lra].
Qed.

(** X2. Hour angles written with the default separator [':'], without
    sign and with the default precision 3 are read back by
    [hourangle_to_decimal_deg]: for every finite [d] with
    [0 <= d <= 359.999] the text is returned, the conversion of the text
    returns, and its result is a finite float within [1e-5] of [d]. This
    is the round trip of [ra_to_sexagesimal] and [ra_to_decimal]. *)
Theorem hour_round_trip (d : float) :
  Float.is_finite d = true ->
  (0 <= F2R d <= 359999 / 1000)%R ->
  exists text r,
    to_hourangle_sexagesimal d default_sep false default_precision = Ok text /\
    hourangle_to_decimal_deg text = Ok r /\
    Float.is_finite r = true /\
    (Rabs (F2R r - F2R d) <= / 100000)%R.
Proof.
  intros Hfin Hd. unfold default_precision.
  pose proof eps_small as Heps. pose proof eps_pos as Hpos.
  destruct d as [s|s| |s m e]; try discriminate Hfin.
  - exists (lit "00:00:00.000"), (S754_zero false).
    split; [destruct s; vm_compute; reflexivity|].
    split; [vm_compute; reflexivity|]. split; [reflexivity|].
    cbn [F2R]. rewrite Rminus_diag, Rabs_R0. lra.
  - destruct s.
    { exfalso. cbn [F2R] in Hd. pose proof (pw_pos e).
      assert (0 < IZR (Zpos m))%R by (apply IZR_lt; lia). nra. }
    unfold to_hourangle_sexagesimal. fold hour_multiplier.
    rewrite format_sexagesimal_fields, hour_magnitude.
    set (dp := S754_finite false m e) in *.
    assert (He : expo dp <= 13)
      by (apply (expo_small m e); unfold dp in Hd; cbn [F2R] in Hd; lra).
    pose proof F2R_hour_multiplier as EM. apply Rabs_le_inv in EM.
    assert (Hprod : (Rabs (F2R hour_multiplier * F2R dp - F2R dp / 15)
                     <= 360 * eps)%R).
    { apply Rabs_le. nra. }
    apply Rabs_le_inv in Hprod.
    pose proof (mul_good hour_multiplier dp) as Hmul.
    rewrite hour_multiplier_eq in Hmul at 1 2.
    cbn [nonneg expo] in Hmul.
    destruct (Hmul I I ltac:(lia) ltac:(lra)) as [Gh Eh].
    apply Rabs_le_inv in Eh.
    destruct (read_back _ [] Gh ltac:(lra) ltac:(left; reflexivity))
      as (text & v & Etext & _ & Ehour & Gv & Ev).
    apply Rabs_le_inv in Ev.
    change (signed [] v) with v in Ehour.
    destruct (div24_good v (good_nonneg v Gv) ltac:(lra)) as [G1 E1].
    apply Rabs_le_inv in E1.
    destruct (mul360_good _ G1 ltac:(lra)) as [G2 E2].
    apply Rabs_le_inv in E2.
    destruct (py_round_good _ G2 ltac:(lra)) as [Gr Er].
    apply Rabs_le_inv in Er.
    exists text. eexists. split; [exact Etext|]. split; [exact Ehour|].
    split; [now apply good_finite|].
    apply Rabs_le. lra.
Qed.

Lemma hour_round_trip_witness :
  exists text r,
    to_hourangle_sexagesimal (i2f 180) default_sep false default_precision
      = Ok text /\
    hourangle_to_decimal_deg text = Ok r /\
    Float.is_finite r = true /\
    (Rabs (F2R r - F2R (i2f 180)) <= / 100000)%R.
Proof.
  apply (hour_round_trip (i2f 180)); [reflexivity|].
  pose proof (proj2 (i2f_good 180 ltac:(lia))) as H.
  apply Rabs_le_inv in H. pose proof eps_small. lra.
Defined.

(** ** Sexagesimal text is not a number *)

Lemma sign_chars_cases c :
  cls_mem sign_chars c = true -> c = "+"%char \/ c = "-"%char.
Proof. by_ascii c; auto. Qed.

(** A character that cannot stand inside a numeral of [float]. *)
Definition not_in_numeral (c : ascii) : Prop :=
  Ascii.eqb c "."%char = false /\ is_exp_mark c = false /\
  Ascii.eqb c underscore = false /\ is_digit c = false.

Lemma sep1_not_numeral c : cls_mem sep1_chars c = true -> not_in_numeral c.
Proof. unfold not_in_numeral. by_ascii c; intros _; repeat split; reflexivity. Qed.

Lemma sign_not_space_underscore c :
  cls_mem sign_chars c = true ->
  is_space c = false /\ Ascii.eqb c underscore = false.
Proof. by_ascii c; intros _; split; reflexivity. Qed.

(** A prefix without underscores is kept by the removal of underscores. *)
Lemma remove_underscores_prefix u t prev s1 :
  forallb (fun c => negb (Ascii.eqb c underscore)) u = true ->
  remove_underscores prev (u ++ t) = Some s1 ->
  exists t1, s1 = u ++ t1.
Proof.
  revert prev s1. induction u as [|c u IH]; intros prev s1 Hu H.
  - now exists s1.
  - cbn [forallb] in Hu. apply andb_true_iff in Hu as [Hc Hu].
    apply negb_true_iff in Hc.
    cbn [app remove_underscores] in H. rewrite Hc in H.
    destruct (Ascii.eqb prev underscore && negb (is_digit c));
      [discriminate|].
    destruct (remove_underscores c (u ++ t)) as [s2|] eqn:E;
      [|discriminate].
    injection H as <-. destruct (IH c s2 Hu E) as [t1 ->].
    now exists t1.
Qed.

Lemma drop_while_keep p (x y : str) :
  match y with c :: _ => p c = false | [] => False end ->
  exists x', drop_while p (x ++ y) = x' ++ y.
Proof.
  intros Hy. induction x as [|c x IH].
  - exists []. destruct y as [|c y]; [contradiction|].
    cbn [app drop_while]. now rewrite Hy.
  - cbn [app drop_while]. destruct (p c); [exact IH|].
    now exists (c :: x).
Qed.

(** [strip] keeps a prefix that starts and ends with a character that is
    not a blank. *)
Lemma strip_keeps_prefix c0 u d t :
  is_space c0 = false -> is_space d = false ->
  exists t', strip ((c0 :: u) ++ d :: t) = (c0 :: u) ++ d :: t'.
Proof.
  intros H0 Hd. unfold strip.
  rewrite (drop_while_head is_space ((c0 :: u) ++ d :: t)) by exact H0.
  replace (rev ((c0 :: u) ++ d :: t)) with (rev t ++ d :: rev (c0 :: u))
    by (rewrite rev_app_distr; cbn [rev]; now rewrite <- app_assoc).
  destruct (drop_while_keep is_space (rev t) (d :: rev (c0 :: u)) Hd)
    as [x' ->].
  exists (rev x'). rewrite rev_app_distr. cbn [rev].
  rewrite rev_app_distr, rev_involutive. cbn [rev app].
  rewrite <- app_assoc. reflexivity.
Qed.

(** One or two digits and a separator do not start a numeral of
    [float]. *)
Lemma float_of_numeral_separator sg a p1 t :
  sign_opt sg -> field12 a -> not_in_numeral p1 ->
  float_of_numeral (sg ++ a ++ p1 :: t) = None.
Proof.
  intros Hsg Ha Hp1. pose proof Ha as [Hd Hl].
  destruct (field12_head a Ha) as (d & a' & -> & H1).
  destruct (digit_not_sign_char d H1) as [Hm Hp].
  destruct (digit_not_letter d H1) as [Hi Hn].
  destruct Hp1 as (Hdot & Hexp & _ & Hnd).
  assert (Hbody : exists neg,
             split_sign (sg ++ (d :: a') ++ p1 :: t)
             = (neg, (d :: a') ++ p1 :: t)).
  { destruct Hsg as [-> | (c & -> & Hc)].
    - exists false. cbn [app split_sign]. now rewrite Hm, Hp.
    - destruct (sign_chars_cases c Hc) as [-> | ->];
        [exists false | exists true]; reflexivity. }
  destruct Hbody as [neg Hbody].
  unfold float_of_numeral. rewrite Hbody.
  cbn [app map str_eqb lit list_ascii_of_string]. rewrite Hi, Hn.
  cbn [andb orb].
  assert (Hspan : span is_digit ((d :: a') ++ p1 :: t) = (d :: a', p1 :: t))
    by (apply span_app; [exact Hd | exact Hnd]).
  cbn [app] in Hspan. rewrite Hspan, Hdot.
  cbn [is_nil andb]. now rewrite Hexp.
Qed.

Lemma break_prefix_not_number sg a p1 d t :
  sign_opt sg -> field12 a -> not_in_numeral p1 ->
  is_digit d = true ->
  exists msg,
    py_float_of_str (sg ++ a ++ p1 :: d :: t) = Raise (ValueError msg).
Proof.
  intros Hsg Ha Hp1 Hd. unfold py_float_of_str.
  destruct (remove_underscores Ascii.zero (sg ++ a ++ p1 :: d :: t))
    as [s1|] eqn:E; [|eauto].
  destruct (field12_head a Ha) as (d0 & a' & Ea & H0).
  pose proof Hp1 as (_ & _ & Hu1 & _).
  assert (Hclean : forallb (fun c => negb (Ascii.eqb c underscore))
                     (sg ++ a ++ [p1]) = true).
  { rewrite !forallb_app. cbn [forallb]. rewrite Hu1. cbn [negb andb].
    rewrite andb_true_r. apply andb_true_iff. split.
    - destruct Hsg as [-> | (c & -> & Hc)]; [reflexivity|].
      cbn [forallb].
      now rewrite (proj2 (sign_not_space_underscore c Hc)).
    - destruct Ha as [Hda _]. clear - Hda.
      induction a as [|c a IH]; [reflexivity|].
      cbn [forallb] in *. apply andb_true_iff in Hda as [Hc Hda].
      now rewrite (digit_not_underscore c Hc), (IH Hda). }
  replace (sg ++ a ++ p1 :: d :: t) with ((sg ++ a ++ [p1]) ++ d :: t) in E
    by (now rewrite <- !app_assoc).
  assert (Hfull : forallb (fun c => negb (Ascii.eqb c underscore))
                    ((sg ++ a ++ [p1]) ++ [d]) = true).
  { rewrite forallb_app, Hclean. cbn [forallb].
    now rewrite (digit_not_underscore d Hd). }
  replace ((sg ++ a ++ [p1]) ++ d :: t)
    with (((sg ++ a ++ [p1]) ++ [d]) ++ t) in E
    by (now rewrite <- !app_assoc).
  destruct (remove_underscores_prefix _ _ _ _ Hfull E) as [t1 ->].
  assert (Hhead : exists c0 u,
             sg ++ a ++ [p1] = c0 :: u /\ is_space c0 = false).
  { destruct Hsg as [-> | (c & -> & Hc)].
    - rewrite Ea. exists d0. eexists. split; [reflexivity|].
      now apply digit_not_space.
    - exists c. eexists. split; [reflexivity|].
      exact (proj1 (sign_not_space_underscore c Hc)). }
  destruct Hhead as (c0 & u & Eu & Hc0).
  rewrite <- app_assoc. cbn [app]. rewrite Eu.
  destruct (strip_keeps_prefix c0 u d t1 Hc0 (digit_not_space d Hd))
    as [t' ->].
  rewrite <- Eu. rewrite <- !app_assoc. cbn [app].
  rewrite (float_of_numeral_separator sg a p1 _ Hsg Ha Hp1). eauto.
Qed.

Lemma separator_prefix_not_number sg a p1 d t :
  sign_opt sg -> field12 a -> cls_mem sep1_chars p1 = true ->
  is_digit d = true ->
  exists msg,
    py_float_of_str (sg ++ a ++ p1 :: d :: t) = Raise (ValueError msg).
Proof.
  intros Hsg Ha Hp1 Hd.
  apply break_prefix_not_number; auto using sep1_not_numeral.
Qed.

(** X3. Text that the sexagesimal pattern matches is never read as a plain
    number: [float] raises [ValueError] on it, so both converters take
    the sexagesimal branch. *)
Theorem sexagesimal_text_not_number (s : str) :
  matches_grammar s ->
  exists msg, py_float_of_str s = Raise (ValueError msg).
Proof.
  intros (u & t & -> & sg & a & p1 & b & p2 & ip & fr & fp
          & -> & Hsg & Ha & Hp1 & Hb & Hp2 & Hip & Hfr).
  destruct (field12_head b Hb) as (d & b' & -> & Hd).
  replace ((sg ++ a ++ p1 :: (d :: b') ++ p2 :: ip ++ fr) ++ t)
    with (sg ++ a ++ p1 :: d :: (b' ++ p2 :: ip ++ fr) ++ t)
    by (repeat (rewrite <- app_assoc || rewrite <- app_comm_cons);
        reflexivity).
  now apply separator_prefix_not_number.
Qed.

Lemma sexagesimal_text_not_number_witness :
  exists msg, py_float_of_str (lit "12h30m15.5s") = Raise (ValueError msg).
Proof.
  apply (sexagesimal_text_not_number (lit "12h30m15.5s")).
  apply (scan_sound _ ([], lit "12", lit "30", lit "15.5")).
  vm_compute. reflexivity.
Defined.

(** ** The separators and the sign in the text *)

(** The quadruple of the captured texts. *)
Definition fields_quadruple (f : str * str * str * str) : result quadruple :=
  let '(sg, a, b, c) := f in
  a' <- py_int_of_str a ;;
  b' <- py_int_of_str b ;;
  c' <- py_float_of_str c ;;
  Ok (sign_of sg, a', b', c').

(** Two results that are the same value, or both an exception. *)
Definition same_outcome {A : Type} (r1 r2 : result A) : Prop :=
  match r1, r2 with
  | Ok x, Ok y => x = y
  | Raise _, Raise _ => True
  | _, _ => False
  end.

(** The second result is the first with the sign changed, or both are an
    exception. *)
Definition opposite_outcome (r1 r2 : result float) : Prop :=
  match r1, r2 with
  | Ok x, Ok y => y = Float.opp x
  | Raise _, Raise _ => True
  | _, _ => False
  end.

Lemma parse_sexagesimal_scan s :
  parse_sexagesimal s =
  match scan s with
  | Some f => fields_quadruple f
  | None => Raise (parse_error s)
  end.
Proof.
  unfold parse_sexagesimal. rewrite re_match_scan.
  destruct (scan s) as [[[[sg a] b] c]|]; [|reflexivity].
  destruct sg as [|c0 sg]; reflexivity.
Qed.

Lemma div_opp_l x y : Float.div (Float.opp x) y = Float.opp (Float.div x y).
Proof.
  destruct x as [[|]|[|]| |sx mx ex], y as [[|]|[|]| |sy my ey];
    try reflexivity;
    try (destruct sx; reflexivity); try (destruct sy; reflexivity).
  cbn [Float.opp SFopp Float.div SFdiv].
  replace (xorb (negb sx) sy) with (negb (xorb sx sy))
    by (destruct sx, sy; reflexivity).
  destruct (SFdiv_core_binary _ _ _ _ _ _) as [[mz ez] lz].
  apply binary_round_aux_opp.
Qed.

(** The text with a digit in front and the same text after a sign. *)
Lemma scan_signed c t :
  cls_mem sign_chars c = true ->
  match t with d :: _ => is_digit d = true | [] => False end ->
  scan (c :: t) =
  match scan t with
  | Some (_, a, b, x) => Some ([c], a, b, x)
  | None => None
  end.
Proof.
  intros Hc Ht. destruct t as [|d t]; [contradiction|].
  unfold scan. cbn [take_sign]. rewrite Hc, (digit_not_sign d Ht).
  destruct (take_digits12 (d :: t)) as [[a s1]|]; [|reflexivity].
  destruct (take_chr sep1_chars s1) as [s2|]; [|reflexivity].
  destruct (take_digits12 s2) as [[b s3]|]; [|reflexivity].
  destruct (take_chr sep2_chars s3) as [s4|]; [|reflexivity].
  destruct (take_seconds s4) as [[x r]|]; reflexivity.
Qed.

Lemma of_decimal_neg n e :
  Float.of_decimal true n e = Float.opp (Float.of_decimal false n e).
Proof.
  unfold Float.of_decimal. destruct n as [|p]; [reflexivity|].
  destruct (0 <=? e) eqn:E.
  - apply Z.leb_le in E.
    pose proof (Z.pow_pos_nonneg 10 e ltac:(lia) E) as H10.
    destruct (Zpos p * 10 ^ e) as [|q|q] eqn:Eq; try lia.
    cbn [cond_Zopp Z.opp binary_normalize]. unfold binary_round.
    destruct (shl_align _ _ _) as [mz ez].
    apply (binary_round_aux_opp false).
  - apply (div_opp_l (S754_finite false p 0)).
Qed.

Lemma drop_while_until p (x : str) d m :
  p d = false ->
  drop_while p ((x ++ [d]) ++ m) = drop_while p (x ++ [d]) ++ m.
Proof.
  intros Hd. induction x as [|c x IH]; cbn [app drop_while].
  - now rewrite Hd.
  - destruct (p c); [exact IH | reflexivity].
Qed.

(** [strip] of a text that starts with a digit, with a sign in front. *)
Lemma strip_signed c d t :
  is_space c = false -> is_space d = false ->
  exists u, strip (d :: t) = d :: u /\ strip (c :: d :: t) = c :: d :: u.
Proof.
  intros Hc Hd. unfold strip.
  rewrite (drop_while_head is_space (d :: t)) by exact Hd.
  rewrite (drop_while_head is_space (c :: d :: t)) by exact Hc.
  change (rev (c :: d :: t)) with ((rev t ++ [d]) ++ [c]).
  change (rev (d :: t)) with (rev t ++ [d]).
  rewrite (drop_while_until is_space (rev t) d [c] Hd).
  destruct (drop_while_keep is_space (rev t) [d] Hd) as [x' ->].
  exists (rev x'). rewrite !rev_app_distr. cbn [rev app]. auto.
Qed.

(** The numeral after a sign, for a numeral that starts with a digit. *)
Lemma float_of_numeral_signed c d u :
  cls_mem sign_chars c = true -> is_digit d = true ->
  float_of_numeral (c :: d :: u)
  = option_map (fun x => if Ascii.eqb c "-"%char then Float.opp x else x)
      (float_of_numeral (d :: u)).
Proof.
  intros Hc Hd.
  destruct (digit_not_sign_char d Hd) as [Hm Hp].
  destruct (digit_not_letter d Hd) as [Hi Hn].
  unfold float_of_numeral.
  assert (E1 : split_sign (c :: d :: u)
               = (Ascii.eqb c "-"%char, d :: u)).
  { destruct (sign_chars_cases c Hc) as [-> | ->]; reflexivity. }
  assert (E2 : split_sign (d :: u) = (false, d :: u)).
  { cbn [split_sign]. now rewrite Hm, Hp. }
  rewrite E1, E2.
  cbn [map str_eqb lit list_ascii_of_string]. rewrite Hi, Hn.
  cbn [andb orb].
  destruct (span is_digit (d :: u)) as [ip r1].
  destruct (match r1 with
            | [] => ([], r1)
            | c0 :: t0 =>
                if Ascii.eqb c0 "."%char then span is_digit t0 else ([], r1)
            end) as [fp r2].
  destruct (is_nil ip && is_nil fp); [reflexivity|].
  assert (Hsign : forall n e,
             Float.of_decimal (Ascii.eqb c "-"%char) n e
             = (if Ascii.eqb c "-"%char
                then Float.opp (Float.of_decimal false n e)
                else Float.of_decimal false n e)).
  { intros n e. destruct (Ascii.eqb c "-"%char); [|reflexivity].
    apply of_decimal_neg. }
  destruct r2 as [|c2 t2]; [cbn [option_map]; now rewrite Hsign|].
  destruct (is_exp_mark c2); [|reflexivity].
  destruct (split_sign t2) as [eneg t3].
  destruct (span is_digit t3) as [ed t4].
  destruct (is_nil ed || negb (is_nil t4)); [reflexivity|].
  cbn [option_map]. now rewrite Hsign.
Qed.

(** [float] on a text that starts with a digit, with a sign in front. *)
Lemma py_float_of_str_signed c d t :
  cls_mem sign_chars c = true -> is_digit d = true ->
  match py_float_of_str (d :: t) with
  | Ok x =>
      py_float_of_str (c :: d :: t)
      = Ok (if Ascii.eqb c "-"%char then Float.opp x else x)
  | Raise _ =>
      exists msg, py_float_of_str (c :: d :: t) = Raise (ValueError msg)
  end.
Proof.
  intros Hc Hd. unfold py_float_of_str.
  destruct (sign_not_space_underscore c Hc) as [Hsp Hun].
  assert (E : remove_underscores Ascii.zero (c :: d :: t)
              = option_map (cons c)
                  (remove_underscores Ascii.zero (d :: t))).
  { cbn [remove_underscores].
    rewrite Hun, (digit_not_underscore d Hd), Hd.
    change (Ascii.eqb Ascii.zero underscore) with false.
    cbn [andb negb]. reflexivity. }
  rewrite E.
  assert (Hhead : forall s1,
             remove_underscores Ascii.zero (d :: t) = Some s1 ->
             exists s2, s1 = d :: s2).
  { intros s1 H. cbn [remove_underscores] in H.
    rewrite (digit_not_underscore d Hd) in H.
    change (Ascii.eqb Ascii.zero underscore) with false in H.
    cbn [andb] in H.
    destruct (remove_underscores d t) as [s2|]; [|discriminate].
    injection H as <-. now exists s2. }
  destruct (remove_underscores Ascii.zero (d :: t)) as [s1|];
    cbn [option_map]; [|eauto].
  destruct (Hhead s1 eq_refl) as [s2 ->].
  destruct (strip_signed c d s2 Hsp (digit_not_space d Hd))
    as (u & -> & ->).
  rewrite (float_of_numeral_signed c d u Hc Hd).
  destruct (float_of_numeral (d :: u)); cbn [option_map]; eauto.
Qed.

Lemma scan_unsigned d t :
  is_digit d = true ->
  scan (d :: t) =
  match scan (d :: t) with
  | Some (_, a, b, x) => Some ([], a, b, x)
  | None => None
  end.
Proof.
  intros Hd. unfold scan. cbn [take_sign]. rewrite (digit_not_sign d Hd).
  destruct (take_digits12 (d :: t)) as [[a s1]|]; [|reflexivity].
  destruct (take_chr sep1_chars s1) as [s2|]; [|reflexivity].
  destruct (take_digits12 s2) as [[b s3]|]; [|reflexivity].
  destruct (take_chr sep2_chars s3) as [s4|]; [|reflexivity].
  destruct (take_seconds s4) as [[x r]|]; reflexivity.
Qed.

(** A converter on a text that starts with a digit, and on the same text
    after a sign. *)
Lemma signed_outcomes (conv : str -> result float) (scale : float -> float) :
  (forall s v, py_float_of_str s = Ok v -> conv s = Ok (py_round v 6)) ->
  (forall s msg,
     py_float_of_str s = Raise (ValueError msg) ->
     conv s = (q <- parse_sexagesimal s ;;
               Ok (py_round (scale (quadruple_value q)) 6))) ->
  (forall x, scale (Float.opp x) = Float.opp (scale x)) ->
  forall c d t,
    cls_mem sign_chars c = true -> is_digit d = true ->
    match conv (d :: t), conv (c :: d :: t) with
    | Ok x, Ok y => y = if Ascii.eqb c "-"%char then Float.opp x else x
    | Raise _, Raise _ => True
    | _, _ => False
    end.
Proof.
  intros Hnum Htext Hscale c d t Hc Hd.
  pose proof (py_float_of_str_signed c d t Hc Hd) as H.
  destruct (py_float_of_str_cases (d :: t)) as [[v Hv] | [msg Hm]].
  - rewrite Hv in H. rewrite (Hnum _ _ Hv), (Hnum _ _ H).
    destruct (Ascii.eqb c "-"%char); [apply py_round_opp | reflexivity].
  - rewrite Hm in H. destruct H as [msg' H].
    rewrite (Htext _ _ Hm), (Htext _ _ H).
    rewrite !parse_sexagesimal_scan, (scan_signed c (d :: t) Hc Hd).
    rewrite (scan_unsigned d t Hd).
    destruct (scan (d :: t)) as [[[[sg a] b] x]|]; [|exact I].
    cbn [fields_quadruple].
    destruct (py_int_of_str a) as [A|]; cbn [bind]; [|exact I].
    destruct (py_int_of_str b) as [B|]; cbn [bind]; [|exact I].
    destruct (py_float_of_str x) as [X|]; cbn [bind]; [|exact I].
    destruct (sign_chars_cases c Hc) as [-> | ->].
    + reflexivity.
    + change (Ascii.eqb "-"%char "-"%char) with true. cbn iota.
      change (sign_of [ "-"%char ]) with (-1).
      change (sign_of []) with 1.
      cbn [quadruple_value].
      now rewrite i2f_minus_one, mul_opp_l, Hscale, py_round_opp.
Qed.

Lemma hours_to_degrees_opp x :
  hours_to_degrees (Float.opp x) = Float.opp (hours_to_degrees x).
Proof. unfold hours_to_degrees. now rewrite div_opp_l, mul_opp_l. Qed.

(** X4. A sign in front of a text that starts with a digit: ['+']
    changes nothing and ['-'] changes the sign of the result, for plain
    numbers and for sexagesimal text alike; when the text without the
    sign is refused, so is the text with it. *)
Theorem leading_sign (t : str) :
  match t with d :: _ => is_digit d = true | [] => False end ->
  same_outcome (deg_to_decimal_deg t) (deg_to_decimal_deg ("+"%char :: t)) /\
  opposite_outcome (deg_to_decimal_deg t)
    (deg_to_decimal_deg ("-"%char :: t)) /\
  same_outcome (hourangle_to_decimal_deg t)
    (hourangle_to_decimal_deg ("+"%char :: t)) /\
  opposite_outcome (hourangle_to_decimal_deg t)
    (hourangle_to_decimal_deg ("-"%char :: t)).
Proof.
  destruct t as [|d t]; [contradiction|]. intros Hd.
  pose proof (signed_outcomes deg_to_decimal_deg (fun x => x)
                deg_number deg_text (fun x => eq_refl)) as Hdeg.
  pose proof (signed_outcomes hourangle_to_decimal_deg hours_to_degrees
                hourangle_number hourangle_text hours_to_degrees_opp) as Hha.
  pose proof (Hdeg "+"%char d t eq_refl Hd) as D1.
  pose proof (Hdeg "-"%char d t eq_refl Hd) as D2.
  pose proof (Hha "+"%char d t eq_refl Hd) as H1.
  pose proof (Hha "-"%char d t eq_refl Hd) as H2.
  unfold same_outcome, opposite_outcome.
  repeat split.
  - destruct (deg_to_decimal_deg (d :: t)),
      (deg_to_decimal_deg ("+"%char :: d :: t)); auto.
  - destruct (deg_to_decimal_deg (d :: t)),
      (deg_to_decimal_deg ("-"%char :: d :: t)); auto.
  - destruct (hourangle_to_decimal_deg (d :: t)),
      (hourangle_to_decimal_deg ("+"%char :: d :: t)); auto.
  - destruct (hourangle_to_decimal_deg (d :: t)),
      (hourangle_to_decimal_deg ("-"%char :: d :: t)); auto.
Qed.

Lemma leading_sign_witness :
  same_outcome (deg_to_decimal_deg (lit "45:30:00"))
    (deg_to_decimal_deg ("+"%char :: lit "45:30:00")) /\
  opposite_outcome (deg_to_decimal_deg (lit "45:30:00"))
    (deg_to_decimal_deg ("-"%char :: lit "45:30:00")) /\
  same_outcome (hourangle_to_decimal_deg (lit "45:30:00"))
    (hourangle_to_decimal_deg ("+"%char :: lit "45:30:00")) /\
  opposite_outcome (hourangle_to_decimal_deg (lit "45:30:00"))
    (hourangle_to_decimal_deg ("-"%char :: lit "45:30:00")).
Proof. apply (leading_sign (lit "45:30:00")). reflexivity. Defined.

Lemma same_outcome_refl {A : Type} (r : result A) : same_outcome r r.
Proof. destruct r; simpl; auto. Qed.

Lemma parse_any_separator sg a b rest p1 p2 q1 q2 :
  sign_opt sg -> field12 a -> field12 b ->
  cls_mem sep1_chars p1 = true -> cls_mem sep2_chars p2 = true ->
  cls_mem sep1_chars q1 = true -> cls_mem sep2_chars q2 = true ->
  same_outcome (parse_sexagesimal (sg ++ a ++ p1 :: b ++ p2 :: rest))
    (parse_sexagesimal (sg ++ a ++ q1 :: b ++ q2 :: rest)).
Proof.
  intros Hsg Ha Hb Hp1 Hp2 Hq1 Hq2.
  rewrite !parse_sexagesimal_scan.
  rewrite (scan_fields sg a p1 b p2 rest Hsg Ha Hp1 Hb Hp2).
  rewrite (scan_fields sg a q1 b q2 rest Hsg Ha Hq1 Hb Hq2).
  destruct (take_seconds rest) as [[c r]|]; [|exact I].
  apply same_outcome_refl.
Qed.

(** A converter on two texts that are parsed alike and are not numbers. *)
Lemma converter_same_outcome (conv : str -> result float)
    (scale : float -> float) s1 s2 :
  (forall s msg,
     py_float_of_str s = Raise (ValueError msg) ->
     conv s = (q <- parse_sexagesimal s ;;
               Ok (py_round (scale (quadruple_value q)) 6))) ->
  (exists msg, py_float_of_str s1 = Raise (ValueError msg)) ->
  (exists msg, py_float_of_str s2 = Raise (ValueError msg)) ->
  same_outcome (parse_sexagesimal s1) (parse_sexagesimal s2) ->
  same_outcome (conv s1) (conv s2).
Proof.
  intros Htext [m1 H1] [m2 H2] Hp.
  rewrite (Htext _ _ H1), (Htext _ _ H2).
  destruct (parse_sexagesimal s1) as [x1|], (parse_sexagesimal s2) as [x2|];
    simpl in Hp |- *; try contradiction; [now subst | exact I].
Qed.

(** X5. Which of the accepted separators stands between the fields does
    not matter: with any character of [[ :\-hH]] after the first field
    and any of [[ :\-mM]] after the second, [parse_sexagesimal] returns
    the same quadruple and both converters return the same number (or
    all of them refuse the text, when no seconds follow). *)
Theorem any_separator (sg a b rest : str) (p1 p2 q1 q2 : ascii) :
  sign_opt sg -> field12 a -> field12 b ->
  cls_mem sep1_chars p1 = true -> cls_mem sep2_chars p2 = true ->
  cls_mem sep1_chars q1 = true -> cls_mem sep2_chars q2 = true ->
  same_outcome (parse_sexagesimal (sg ++ a ++ p1 :: b ++ p2 :: rest))
    (parse_sexagesimal (sg ++ a ++ q1 :: b ++ q2 :: rest)) /\
  same_outcome (deg_to_decimal_deg (sg ++ a ++ p1 :: b ++ p2 :: rest))
    (deg_to_decimal_deg (sg ++ a ++ q1 :: b ++ q2 :: rest)) /\
  same_outcome (hourangle_to_decimal_deg (sg ++ a ++ p1 :: b ++ p2 :: rest))
    (hourangle_to_decimal_deg (sg ++ a ++ q1 :: b ++ q2 :: rest)).
Proof.
  intros Hsg Ha Hb Hp1 Hp2 Hq1 Hq2.
  pose proof (parse_any_separator sg a b rest p1 p2 q1 q2
                Hsg Ha Hb Hp1 Hp2 Hq1 Hq2) as Hp.
  destruct (field12_head b Hb) as (d & b' & -> & Hd).
  assert (N1 := separator_prefix_not_number sg a p1 d (b' ++ p2 :: rest)
                  Hsg Ha Hp1 Hd).
  assert (N2 := separator_prefix_not_number sg a q1 d (b' ++ q2 :: rest)
                  Hsg Ha Hq1 Hd).
  split; [exact Hp|]. split.
  - exact (converter_same_outcome deg_to_decimal_deg (fun x => x) _ _
             deg_text N1 N2 Hp).
  - exact (converter_same_outcome hourangle_to_decimal_deg hours_to_degrees
             _ _ hourangle_text N1 N2 Hp).
Qed.

Lemma any_separator_witness :
  same_outcome (parse_sexagesimal (lit "-12h30m15.5s"))
    (parse_sexagesimal (lit "-12:30 15.5s")) /\
  same_outcome (deg_to_decimal_deg (lit "-12h30m15.5s"))
    (deg_to_decimal_deg (lit "-12:30 15.5s")) /\
  same_outcome (hourangle_to_decimal_deg (lit "-12h30m15.5s"))
    (hourangle_to_decimal_deg (lit "-12:30 15.5s")).
Proof.
  apply (any_separator (lit "-") (lit "12") (lit "30") (lit "15.5s")
           "h"%char "m"%char ":"%char " "%char);
    try reflexivity.
  - right. exists "-"%char. split; reflexivity.
  - split; [reflexivity | right; reflexivity].
  - split; [reflexivity | right; reflexivity].
Defined.

(** ** Values and separators that cannot be written *)






(** ** The shape of the text written with the defaults *)

(** Two digits, a colon, two digits at most 59, a colon, and seconds
    with two digits before and three after the dot, at most 60.000. *)
Definition written_fields (text : str) : Prop :=
  exists a b ip fp,
    text = a ++ colon :: b ++ colon :: ip ++ dot :: fp /\
    forallb is_digit (a ++ b ++ ip ++ fp) = true /\
    length a = 2%nat /\ length b = 2%nat /\
    length ip = 2%nat /\ length fp = 3%nat /\
    digits_value b <= 59 /\ digits_value (ip ++ fp) <= 60000.

Lemma written_fields_of h f0 :
  good h -> (F2R h < 100)%R ->
  exists text,
    fields_text h f0 default_sep 3 = Ok (f0 ++ text) /\ written_fields text.
Proof.
  intros Hh Hlt.
  destruct (magnitude_fields h Hh Hlt)
    as (m & s & K & Mi & ip & fp & Em & Es & EK & EM & Ess & HK & HM
        & [Dip _] & Hfp & Lip & Lfp & HN & _ & _).
  destruct (format_02d_field K ltac:(lia)) as [[DK _] VK].
  destruct (format_02d_field Mi ltac:(lia)) as [[DM _] VM].
  exists (format_02d K ++ colon :: format_02d Mi ++ colon :: ip ++ dot :: fp).
  split.
  - exact (fields_text_default h f0 m s K Mi _ Em Es EK EM Ess).
  - exists (format_02d K), (format_02d Mi), ip, fp.
    split; [reflexivity|]. split.
    { rewrite !forallb_app, DK, DM, Dip, Hfp. reflexivity. }
    split; [apply format_02d_length; lia|].
    split; [apply format_02d_length; lia|].
    split; [exact Lip|]. split; [exact Lfp|]. lia.
Qed.

Lemma written_fields_zero s f0 :
  exists text,
    fields_text (S754_zero s) f0 default_sep 3 = Ok (f0 ++ text) /\
    written_fields text.
Proof.
  exists (lit "00:00:00.000"). split.
  - rewrite fields_text_zero.
    apply (fields_text_default (S754_zero false) f0
             (S754_zero false) (S754_zero false) 0 0 (lit "00.000"));
      vm_compute; reflexivity.
  - exists (lit "00"), (lit "00"), (lit "00"), (lit "000").
    repeat split; vm_compute; congruence.
Qed.

Lemma Rabs_F2R s m e :
  Rabs (F2R (S754_finite s m e)) = F2R (S754_finite false m e).
Proof.
  pose proof (F2R_nonneg (S754_finite false m e) I) as H.
  destruct s; cbn [F2R] in *.
  - rewrite Rabs_Ropp. now apply Rabs_pos_eq.
  - now apply Rabs_pos_eq.
Qed.

(** X8. With the default separator and precision every finite value is
    written, after the sign when asked for, as [DD:MM:SS.sss]: two
    digits, two digits, two digits, a dot and three digits. This holds
    for degrees up to 99 in absolute value and for hour angles of up to
    1440 degrees. The minutes are at most 59; the seconds are at most
    60.000, which they reach when they round up. *)
Theorem written_text_shape (d : float) (sign : bool) :
  Float.is_finite d = true ->
  ((Rabs (F2R d) <= 99)%R ->
   exists text,
     to_degminsec_sexagesimal d default_sep sign default_precision
       = Ok (sign_text sign d ++ text) /\
     written_fields text) /\
  ((Rabs (F2R d) <= 1440)%R ->
   exists text,
     to_hourangle_sexagesimal d default_sep sign default_precision
       = Ok (sign_text sign d ++ text) /\
     written_fields text).
Proof.
  intros Hfin. unfold default_precision.
  unfold to_degminsec_sexagesimal, to_hourangle_sexagesimal.
  fold hour_multiplier. rewrite !format_sexagesimal_fields.
  pose proof eps_small as Heps. pose proof eps_pos as Hpos.
  destruct d as [s|s| |s m e]; try discriminate Hfin.
  - split; intros _.
    + replace (magnitude (S754_zero s) (i2f 1)) with (S754_zero (negb s))
        by (destruct s; vm_compute; reflexivity).
      apply written_fields_zero.
    + rewrite hour_magnitude_zero. apply written_fields_zero.
  - rewrite Rabs_F2R. set (dp := S754_finite false m e).
    split; intros Hd.
    + rewrite degree_magnitude. fold dp.
      assert (He : expo dp <= 13).
      { apply (expo_small m e). unfold dp in Hd. cbn [F2R] in Hd. lra. }
      destruct (mul_one_good dp I He ltac:(lra)) as [Gh Eh].
      apply Rabs_le_inv in Eh.
      apply written_fields_of; [exact Gh | lra].
    + assert (Emag : magnitude (S754_finite s m e) hour_multiplier
                     = (hour_multiplier * dp)%float).
      { destruct s; [|apply hour_magnitude].
        change (S754_finite true m e) with (Float.opp dp).
        rewrite (magnitude_opp dp hour_multiplier I). apply hour_magnitude. }
      rewrite Emag.
      assert (He : expo dp <= 13).
      { apply (expo_small m e). unfold dp in Hd. cbn [F2R] in Hd. lra. }
      pose proof (F2R_nonneg dp I) as Hd0.
      pose proof F2R_hour_multiplier as EM. apply Rabs_le_inv in EM.
      assert (Hprod : (F2R hour_multiplier * F2R dp <= 97)%R) by nra.
      pose proof (mul_good hour_multiplier dp) as Hmul.
      rewrite hour_multiplier_eq in Hmul at 1 2.
      cbn [nonneg expo] in Hmul.
      destruct (Hmul I I ltac:(lia) ltac:(lra)) as [Gh Eh].
      apply Rabs_le_inv in Eh.
      apply written_fields_of; [exact Gh | lra].
Qed.

Lemma written_text_shape_witness :
  (exists text,
     to_degminsec_sexagesimal (i2f (-12)) default_sep true default_precision
       = Ok (sign_text true (i2f (-12)) ++ text) /\
     written_fields text) /\
  (exists text,
     to_hourangle_sexagesimal (i2f 180) default_sep false default_precision
       = Ok (sign_text false (i2f 180) ++ text) /\
     written_fields text).
Proof.
  split.
  - apply (proj1 (written_text_shape (i2f (-12)) true eq_refl)).
    pose proof (proj2 (i2f_good 12 ltac:(lia))) as H.
    apply Rabs_le_inv in H. pose proof eps_small.
    change (i2f (-12)) with (Float.opp (i2f 12)).
    rewrite F2R_opp, Rabs_Ropp. apply Rabs_le. lra.
  - apply (proj2 (written_text_shape (i2f 180) false eq_refl)).
    pose proof (proj2 (i2f_good 180 ltac:(lia))) as H.
    apply Rabs_le_inv in H. pose proof eps_small.
    apply Rabs_le. lra.
Defined.

(** The seconds do reach 60.000: 0.99999999 degrees are written with 59
    minutes and 60.000 seconds. *)
Lemma seconds_reach_sixty :
  to_degminsec_sexagesimal (Float.of_decimal false 99999999 (-8))
    default_sep true default_precision
  = Ok (lit "+00:59:60.000").
Proof. vm_compute. reflexivity. Qed.

(** ** The seconds with more than three decimals *)

(** ['{:06.<p>f}'.format(s)] for [p >= 3] and [s] below 100: one or two
    digits, the dot and [p] digits, which together spell [s * 10^p]
    rounded. *)
Lemma format_06f_text_precision s p :
  good s -> 3 <= p <= INT_MAX -> Float.scaled_round s p < 100 * 10 ^ p ->
  exists ip fp,
    format_06f s p = Ok (ip ++ dot :: fp) /\
    field12 ip /\ forallb is_digit fp = true /\
    Z.of_nat (length fp) = p /\
    digits_value (ip ++ fp) = Float.scaled_round s p.
Proof.
  intros Hs Hp HN.
  destruct (scaled_round_good s p Hs ltac:(lia)) as [HN0 _].
  set (N := Float.scaled_round s p) in *.
  set (P := Z.to_nat p).
  assert (EP : Z.of_nat P = p) by (unfold P; lia).
  assert (E10 : 10 ^ Z.of_nat (P + 2) = 100 * 10 ^ p).
  { rewrite Nat2Z.inj_add, EP, Z.pow_add_r by lia. change (10 ^ Z.of_nat 2) with 100. lia. }
  pose proof (digits_length N (P + 2) ltac:(rewrite E10; lia) ltac:(lia))
    as HL.
  pose proof (digits_all N HN0) as HD.
  pose proof (digits_value_digits N HN0) as HV.
  set (ds := zfill (S P) (digits N)).
  assert (Hds : forallb is_digit ds = true) by now apply zfill_digits.
  assert (Lds : (length ds = P + 1 \/ length ds = P + 2)%nat).
  { unfold ds. rewrite zfill_length. lia. }
  assert (Vds : digits_value ds = N).
  { unfold ds. now rewrite zfill_value. }
  set (k := (length ds - P)%nat).
  assert (Efix : fixed_digits s p = firstn k ds ++ dot :: skipn k ds).
  { unfold fixed_digits. fold N. fold P. fold ds. fold k.
    replace (p =? 0) with false by (symmetry; apply Z.eqb_neq; lia).
    reflexivity. }
  assert (Ebody : format_06f s p = Ok (zfill 6 (fixed_digits s p))).
  { unfold format_06f.
    replace (p <? 0) with false by (symmetry; apply Z.ltb_ge; lia).
    replace (PY_SSIZE_T_MAX <? p) with false
      by (symmetry; apply Z.ltb_ge; unfold PY_SSIZE_T_MAX, INT_MAX in *; lia).
    replace (INT_MAX <? p) with false
      by (symmetry; apply Z.ltb_ge; unfold INT_MAX in *; lia).
    rewrite (good_sign_bit s Hs).
    destruct s as [[|]|[|]| |[|] m e]; try contradiction; reflexivity. }
  assert (Lf : length (firstn k ds) = k) by (apply firstn_length_le; lia).
  assert (Lk : length (skipn k ds) = P) by (rewrite length_skipn; lia).
  exists (repeat char_0 (6 - length (fixed_digits s p)) ++ firstn k ds),
         (skipn k ds).
  split; [|split; [|split; [|split]]].
  - rewrite Ebody. unfold zfill. rewrite Efix at 2.
    rewrite <- app_assoc. reflexivity.
  - split.
    + rewrite forallb_app, repeat_zero_digits.
      now apply forallb_firstn_.
    + rewrite length_app, repeat_length, Lf, Efix, length_app.
      cbn [length]. rewrite Lf, Lk. lia.
  - now apply forallb_skipn_.
  - rewrite Lk. exact EP.
  - rewrite <- app_assoc, digits_value_zeros, firstn_skipn. exact Vds.
Qed.

(** The fields of a magnitude [h] below 100, with precision [p >= 3]. *)
Lemma magnitude_fields_precision h p :
  3 <= p <= INT_MAX -> good h -> (F2R h < 100)%R ->
  exists m s K Mi ip fp,
    py_mod (h * i2f 60)%float (i2f 60) = Ok m /\
    py_mod (m * i2f 60)%float (i2f 60) = Ok s /\
    py_int_of_float h = Ok K /\
    py_int_of_float m = Ok Mi /\
    format_06f s p = Ok (ip ++ dot :: fp) /\
    0 <= K < 100 /\ 0 <= Mi < 60 /\
    field12 ip /\ forallb is_digit fp = true /\
    good (((numeral_value ip fp / i2f 60 + i2f Mi) / i2f 60) + i2f K)%float /\
    (Rabs (F2R (((numeral_value ip fp / i2f 60 + i2f Mi) / i2f 60)
                + i2f K)%float - F2R h) <= 3 / 10000000)%R.
Proof.
  intros Hp Hh Hlt.
  pose proof eps_small as Heps. pose proof eps_pos as Hpos.
  destruct (magnitude_remainders h Hh Hlt)
    as (m & s & K & Mi & Em & Es & EK & EM & HK & HM & Gs & Hs60 & Ehs).
  apply Rabs_le_inv in Ehs.
  pose proof (F2R_nonneg s (good_nonneg s Gs)) as Hs0.
  destruct (scaled_round_good s p Gs ltac:(lia)) as [HN0 EN].
  apply Rabs_le_inv in EN.
  set (N := Float.scaled_round s p) in *.
  assert (HT : (1000 <= IZR (10 ^ p))%R).
  { change 1000%R with (IZR (10 ^ 3)). apply IZR_le.
    apply Z.pow_le_mono_r; lia. }
  set (T := IZR (10 ^ p)) in *.
  assert (HN : N < 100 * 10 ^ p).
  { apply lt_IZR. rewrite mult_IZR. fold T. nra. }
  destruct (format_06f_text_precision s p Gs Hp HN)
    as (ip & fp & Ess & Hip & Hfp & Lfp & Vn).
  assert (Ec : numeral_value ip fp
               = Float.of_decimal false (Z.to_N N) (Z.opp p)).
  { unfold numeral_value. rewrite Vn, Lfp. reflexivity. }
  assert (Hquot : (Rabs (IZR N / T - F2R s) <= / 2000)%R).
  { assert (Eq : (IZR N / T - F2R s = (IZR N - F2R s * T) / T)%R)
      by (field; lra).
    rewrite Eq. apply Rabs_le. split.
    - apply Rle_div_r_; [lra|]. nra.
    - assert (H : ((IZR N - F2R s * T) / T <= / 2 / T)%R).
      { apply Rmult_le_compat_r; [|lra].
        left. apply Rinv_0_lt_compat. lra. }
      assert (H2 : (/ 2 / T <= / 2000)%R).
      { apply Rmult_le_reg_r with T; [lra|].
        replace (/ 2 / T * T)%R with (/ 2)%R by (field; lra). lra. }
      lra. }
  apply Rabs_le_inv in Hquot.
  assert (Hq : (IZR N / IZR (10 ^ p) < 8192)%R) by (fold T; lra).
  destruct (of_decimal_good N p HN0 ltac:(lia) Hq) as [Gc Erc].
  rewrite <- Ec in Gc, Erc. fold T in Erc.
  apply Rabs_le_inv in Erc.
  assert (Hc100 : (F2R (numeral_value ip fp) < 100)%R) by lra.
  destruct (fields_value_good K Mi _ ltac:(lia) ltac:(lia) Gc ltac:(lra))
    as [Gt Et].
  apply Rabs_le_inv in Et.
  exists m, s, K, Mi, ip, fp.
  repeat (split; [first [assumption | lia]|]).
  apply Rabs_le. lra.
Qed.

(** ** Round trips with other separators *)

Lemma fields_text_separators h f0 sep c0 c1 trail precision m s a b ss :
  separators sep = Some (c0, c1, trail) ->
  py_mod (h * i2f 60)%float (i2f 60) = Ok m ->
  py_mod (m * i2f 60)%float (i2f 60) = Ok s ->
  py_int_of_float h = Ok a ->
  py_int_of_float m = Ok b ->
  format_06f s precision = Ok ss ->
  fields_text h f0 sep precision
  = Ok (f0 ++ format_02d a ++ c0 :: format_02d b ++ c1 :: ss ++ trail).
Proof.
  intros Hsep Em Es Ea Eb Ess.
  destruct sep as [|x0 [|x1 [|x2 [|x3 rest]]]]; cbn [separators] in Hsep;
    try discriminate; injection Hsep as <- <- <-;
    unfold fields_text; cbn [length Nat.eqb app];
    rewrite Em; cbn [bind]; rewrite Es; cbn [bind]; rewrite Ea;
    cbn [bind getitem nth_error]; rewrite Eb; cbn [bind]; rewrite Ess;
    cbn [bind app]; rewrite ?app_nil_r; reflexivity.
Qed.

(** The magnitude that is written for [deg]: [|deg|] for degrees. *)
Lemma degree_fields_text d f0 sep precision :
  Float.is_finite d = true -> (Rabs (F2R d) <= 99)%R ->
  exists h,
    fields_text (magnitude d (i2f 1)) f0 sep precision
    = fields_text h f0 sep precision /\
    good h /\ (Rabs (F2R h - Rabs (F2R d)) <= eps)%R.
Proof.
  intros Hfin Hd. pose proof eps_small as Heps.
  destruct d as [s|s| |s m e]; try discriminate Hfin.
  - exists (S754_zero false). split; [|split; [exact I|]].
    + replace (magnitude (S754_zero s) (i2f 1)) with (S754_zero (negb s))
        by (destruct s; vm_compute; reflexivity).
      apply fields_text_zero.
    + cbn [F2R]. rewrite Rabs_R0. apply Rabs_zero_eps.
  - rewrite Rabs_F2R in *. rewrite degree_magnitude.
    set (dp := S754_finite false m e) in *.
    assert (He : expo dp <= 13).
    { apply (expo_small m e). unfold dp in Hd. cbn [F2R] in Hd. lra. }
    destruct (mul_one_good dp I He ltac:(lra)) as [Gh Eh].
    exists (i2f 1 * dp)%float. auto.
Qed.

(** For hour angles the magnitude is [|deg| / 15]. *)
Lemma hour_fields_text d f0 sep precision :
  Float.is_finite d = true -> (Rabs (F2R d) <= 1440)%R ->
  exists h,
    fields_text (magnitude d hour_multiplier) f0 sep precision
    = fields_text h f0 sep precision /\
    good h /\ (Rabs (F2R h - Rabs (F2R d) / 15) <= 1442 * eps)%R.
Proof.
  intros Hfin Hd. pose proof eps_small as Heps. pose proof eps_pos as Hpos.
  destruct d as [s|s| |s m e]; try discriminate Hfin.
  - exists (S754_zero false). split; [|split; [exact I|]].
    + rewrite hour_magnitude_zero. apply fields_text_zero.
    + cbn [F2R]. rewrite Rabs_R0. apply Rabs_le. lra.
  - rewrite Rabs_F2R in *.
    set (dp := S754_finite false m e) in *.
    assert (Emag : magnitude (S754_finite s m e) hour_multiplier
                   = (hour_multiplier * dp)%float).
    { destruct s; [|apply hour_magnitude].
      change (S754_finite true m e) with (Float.opp dp).
      rewrite (magnitude_opp dp hour_multiplier I). apply hour_magnitude. }
    rewrite Emag.
    assert (He : expo dp <= 13).
    { apply (expo_small m e). unfold dp in Hd. cbn [F2R] in Hd. lra. }
    pose proof (F2R_nonneg dp I) as Hd0.
    pose proof F2R_hour_multiplier as EM. apply Rabs_le_inv in EM.
    assert (Hprod : (Rabs (F2R hour_multiplier * F2R dp - F2R dp / 15)
                     <= 1440 * eps)%R) by (apply Rabs_le; nra).
    apply Rabs_le_inv in Hprod.
    pose proof (mul_good hour_multiplier dp) as Hmul.
    rewrite hour_multiplier_eq in Hmul at 1 2.
    cbn [nonneg expo] in Hmul.
    destruct (Hmul I I ltac:(lia) ltac:(lra)) as [Gh Eh].
    apply Rabs_le_inv in Eh.
    exists (hour_multiplier * dp)%float.
    split; [reflexivity|]. split; [exact Gh|]. apply Rabs_le. lra.
Qed.

(** Both converters on the text written for a magnitude [h] with the
    separators [c0] and [c1] and the text [trail] after the seconds. *)
Lemma read_back_separators h sg sep c0 c1 trail precision :
  3 <= precision <= INT_MAX ->
  good h -> (F2R h < 100)%R -> written_sign sg ->
  separators sep = Some (c0, c1, trail) ->
  cls_mem sep1_chars c0 = true -> cls_mem sep2_chars c1 = true ->
  no_numeral_head trail ->
  exists text v,
    fields_text h sg sep precision = Ok text /\
    deg_to_decimal_deg text = Ok (py_round (signed sg v) 6) /\
    hourangle_to_decimal_deg text
    = Ok (py_round (signed sg v / i2f 24 * i2f 360)%float 6) /\
    good v /\ (Rabs (F2R v - F2R h) <= 4 / 10000000)%R.
Proof.
  intros Hprec Hh Hlt Hsg Hsep Hc0 Hc1 Htrail.
  pose proof eps_small as Heps. pose proof eps_pos as Hpos.
  pose proof (F2R_nonneg h (good_nonneg h Hh)) as Hh0.
  destruct (magnitude_fields_precision h precision Hprec Hh Hlt)
    as (m & s & K & Mi & ip & fp & Em & Es & EK & EM & Ess & HK & HM
        & Hip & Hfp & Gt & Et).
  destruct (format_02d_field K ltac:(lia)) as [FK VK].
  destruct (format_02d_field Mi ltac:(lia)) as [FM VM].
  pose proof (written_sign_opt sg Hsg) as Hopt.
  set (text := sg ++ format_02d K ++ c0 :: format_02d Mi ++ c1
               :: (ip ++ dot :: fp) ++ trail).
  assert (Etext : fields_text h sg sep precision = Ok text)
    by exact (fields_text_separators h sg sep c0 c1 trail precision m s
                K Mi _ Hsep Em Es EK EM Ess).
  assert (Hnum : exists msg, py_float_of_str text = Raise (ValueError msg)).
  { destruct (field12_head _ FM) as (d & b' & Eb & Hd).
    unfold text. rewrite Eb.
    apply (separator_prefix_not_number sg (format_02d K) c0 d
             (b' ++ c1 :: (ip ++ dot :: fp) ++ trail)); auto. }
  assert (Hparse : parse_sexagesimal text
                   = Ok (sign_of sg, K, Mi, numeral_value ip fp)).
  { transitivity (@Ok quadruple
                    (sign_of sg, digits_value (format_02d K),
                     digits_value (format_02d Mi), numeral_value ip fp));
      [|now rewrite VK, VM].
    apply (parse_sexagesimal_some text sg _ _ ip (dot :: fp) fp); auto.
    - unfold text.
      rewrite (scan_fields sg _ c0 _ c1 _ Hopt FK Hc0 FM Hc1).
      rewrite (take_seconds_append _ _ _ trail
                 (take_seconds_whole ip fp Hip Hfp) Htrail).
      reflexivity.
    - split; [exact Hfp | now right]. }
  destruct Hnum as [msg Emsg].
  apply Rabs_le_inv in Et.
  pose proof (good_expo _ Gt) as Ht.
  destruct (mul_one_good _ (good_nonneg _ Gt) ltac:(lia) ltac:(lra))
    as [Gv Erv].
  apply Rabs_le_inv in Erv.
  exists text. eexists.
  split; [exact Etext|]. split; [|split; [|split]].
  - rewrite (deg_text text msg Emsg), Hparse. cbn [bind quadruple_value].
    now rewrite sign_times.
  - rewrite (hourangle_text text msg Emsg), Hparse.
    cbn [bind quadruple_value]. now rewrite sign_times.
  - exact Gv.
  - apply Rabs_le. lra.
Qed.

Lemma written_sign_text sign d : written_sign (sign_text sign d).
Proof.
  unfold sign_text, written_sign. destruct sign; [|now left].
  destruct (Float.ltb (i2f 0) d); auto.
Qed.

Lemma signed_value sg v :
  F2R (py_round (signed sg v) 6)
  = (if str_eqb sg (lit "-") then (- F2R (py_round v 6))%R
     else F2R (py_round v 6)).
Proof.
  unfold signed. destruct (str_eqb sg (lit "-")); [|reflexivity].
  now rewrite py_round_opp, F2R_opp.
Qed.

Lemma signed_hours sg v :
  (signed sg v / i2f 24 * i2f 360)%float = signed sg (hours_to_degrees v).
Proof.
  unfold signed. destruct (str_eqb sg (lit "-")); [|reflexivity].
  apply hours_to_degrees_opp.
Qed.

(** The sign text against the sign of the value written. *)
Lemma sign_text_value d :
  Float.is_finite d = true ->
  (if str_eqb (sign_text true d) (lit "-")
   then F2R d = (- Rabs (F2R d))%R else F2R d = Rabs (F2R d)).
Proof.
  intros Hfin. destruct d as [s|s| |[|] m e]; try discriminate Hfin.
  - replace (sign_text true (S754_zero s)) with (lit "-")
      by (destruct s; reflexivity).
    change (str_eqb (lit "-") (lit "-")) with true. cbn iota.
    cbn [F2R]. rewrite Rabs_R0. lra.
  - change (sign_text true (S754_finite true m e)) with (lit "-").
    change (str_eqb (lit "-") (lit "-")) with true. cbn iota.
    rewrite Rabs_F2R. cbn [F2R]. lra.
  - change (sign_text true (S754_finite false m e)) with (lit "+").
    change (str_eqb (lit "+") (lit "-")) with false. cbn iota.
    rewrite Rabs_F2R. reflexivity.
Qed.

(** X9. The round trips hold for every separator that the pattern
    accepts: a first character of [[ :\-hH]], a second of [[ :\-mM]]
    (for a separator of one character, that character in both places)
    and after the seconds nothing or a character that is neither a digit
    nor a dot, and for every precision from 3 up to a million (a
    binary64 has only zeros after its first 1074 decimals). Degrees up
    to 99 in
    absolute value, written with their sign, are read back as a finite
    float within [1e-6]; hour angles between 0 and 1440 degrees, written
    with or without sign, within [1e-5]. *)
Theorem round_trip_separators (d : float) (sep : str) (c0 c1 : ascii)
    (trail : str) (precision : Z) :
  Float.is_finite d = true -> 3 <= precision <= 1000000 ->
  separators sep = Some (c0, c1, trail) ->
  cls_mem sep1_chars c0 = true -> cls_mem sep2_chars c1 = true ->
  no_numeral_head trail ->
  ((Rabs (F2R d) <= 99)%R ->
   exists text r,
     to_degminsec_sexagesimal d sep true precision = Ok text /\
     deg_to_decimal_deg text = Ok r /\
     Float.is_finite r = true /\
     (Rabs (F2R r - F2R d) <= / 1000000)%R) /\
  ((0 <= F2R d <= 1440)%R ->
   forall sign,
   exists text r,
     to_hourangle_sexagesimal d sep sign precision = Ok text /\
     hourangle_to_decimal_deg text = Ok r /\
     Float.is_finite r = true /\
     (Rabs (F2R r - F2R d) <= / 100000)%R).
Proof.
  intros Hfin Hmillion Hsep Hc0 Hc1 Htrail.
  assert (Hprec : 3 <= precision <= INT_MAX) by (unfold INT_MAX; lia).
  pose proof eps_small as Heps. pose proof eps_pos as Hpos.
  unfold to_degminsec_sexagesimal, to_hourangle_sexagesimal.
  fold hour_multiplier. split.
  - intros Hd. rewrite format_sexagesimal_fields.
    destruct (degree_fields_text d (sign_text true d) sep precision Hfin Hd)
      as (h & -> & Gh & Eh).
    apply Rabs_le_inv in Eh.
    destruct (read_back_separators h _ sep c0 c1 trail precision Hprec Gh
                ltac:(lra)
                (written_sign_text true d) Hsep Hc0 Hc1 Htrail)
      as (text & v & Etext & Edeg & _ & Gv & Ev).
    apply Rabs_le_inv in Ev.
    destruct (py_round_good v Gv ltac:(lra)) as [Gr Er].
    apply Rabs_le_inv in Er.
    exists text. eexists. split; [exact Etext|]. split; [exact Edeg|].
    split; [now apply signed_round_finite|].
    rewrite signed_value. pose proof (sign_text_value d Hfin) as Hs.
    destruct (str_eqb (sign_text true d) (lit "-")); rewrite Hs;
      apply Rabs_le; lra.
  - intros Hd sign. rewrite format_sexagesimal_fields.
    assert (Habs : Rabs (F2R d) = F2R d) by (apply Rabs_pos_eq; lra).
    destruct (hour_fields_text d (sign_text sign d) sep precision Hfin
                ltac:(rewrite Habs; lra))
      as (h & -> & Gh & Eh).
    rewrite Habs in Eh. apply Rabs_le_inv in Eh.
    destruct (read_back_separators h _ sep c0 c1 trail precision Hprec Gh
                ltac:(lra)
                (written_sign_text sign d) Hsep Hc0 Hc1 Htrail)
      as (text & v & Etext & _ & Ehour & Gv & Ev).
    apply Rabs_le_inv in Ev.
    destruct (div24_good v (good_nonneg v Gv) ltac:(lra)) as [G1 E1].
    apply Rabs_le_inv in E1.
    destruct (mul360_good _ G1 ltac:(lra)) as [G2 E2].
    apply Rabs_le_inv in E2.
    destruct (py_round_good _ G2 ltac:(lra)) as [Gr Er].
    apply Rabs_le_inv in Er.
    exists text. eexists. split; [exact Etext|]. split; [exact Ehour|].
    rewrite signed_hours.
    split; [now apply signed_round_finite|].
    rewrite signed_value. unfold hours_to_degrees.
    destruct sign.
    + pose proof (sign_text_value d Hfin) as Hs.
      destruct (str_eqb (sign_text true d) (lit "-")).
      * rewrite Habs in Hs. apply Rabs_le. lra.
      * apply Rabs_le. lra.
    + change (str_eqb (sign_text false d) (lit "-")) with false.
      apply Rabs_le. lra.
Qed.

Lemma round_trip_separators_witness :
  (exists text r,
     to_degminsec_sexagesimal (i2f (-12)) (lit "hms") true 5 = Ok text /\
     deg_to_decimal_deg text = Ok r /\
     Float.is_finite r = true /\
     (Rabs (F2R r - F2R (i2f (-12))) <= / 1000000)%R) /\
  (forall sign,
   exists text r,
     to_hourangle_sexagesimal (i2f 180) (lit "hms") sign 5 = Ok text /\
     hourangle_to_decimal_deg text = Ok r /\
     Float.is_finite r = true /\
     (Rabs (F2R r - F2R (i2f 180)) <= / 100000)%R).
Proof.
  split.
  - apply (proj1 (round_trip_separators (i2f (-12)) (lit "hms")
                    "h"%char "m"%char (lit "s") 5
                    eq_refl ltac:(lia)
                    eq_refl eq_refl eq_refl eq_refl)).
    pose proof (proj2 (i2f_good 12 ltac:(lia))) as H.
    apply Rabs_le_inv in H. pose proof eps_small.
    change (i2f (-12)) with (Float.opp (i2f 12)).
    rewrite F2R_opp, Rabs_Ropp. apply Rabs_le. lra.
  - apply (proj2 (round_trip_separators (i2f 180) (lit "hms")
                    "h"%char "m"%char (lit "s") 5
                    eq_refl ltac:(lia)
                    eq_refl eq_refl eq_refl eq_refl)).
    pose proof (proj2 (i2f_good 180 ltac:(lia))) as H.
    apply Rabs_le_inv in H. pose proof eps_small. lra.
Defined.

(** ** A separator that the pattern does not know *)

Lemma scan_foreign sg a c0 rest :
  sign_opt sg -> field12 a ->
  cls_mem sep1_chars c0 = false -> is_digit c0 = false ->
  scan (sg ++ a ++ c0 :: rest) = None.
Proof.
  intros Hsg Ha Hc0 Hnd. unfold scan.
  rewrite (take_sign_app sg a _ Hsg Ha).
  rewrite (take_digits12_app a c0 _ Ha Hnd).
  cbn [take_chr]. now rewrite Hc0.
Qed.

Lemma written_refused h sg sep c0 c1 trail :
  good h -> (F2R h < 100)%R -> written_sign sg ->
  separators sep = Some (c0, c1, trail) ->
  cls_mem sep1_chars c0 = false -> not_in_numeral c0 ->
  exists text,
    fields_text h sg sep 3 = Ok text /\
    deg_to_decimal_deg text = Raise (parse_error text) /\
    hourangle_to_decimal_deg text = Raise (parse_error text).
Proof.
  intros Hh Hlt Hsg Hsep Hc0 Hnum.
  destruct (magnitude_fields h Hh Hlt)
    as (m & s & K & Mi & ip & fp & Em & Es & EK & EM & Ess & HK & HM & _).
  destruct (format_02d_field K ltac:(lia)) as [FK _].
  destruct (format_02d_field Mi ltac:(lia)) as [FM _].
  pose proof (written_sign_opt sg Hsg) as Hopt.
  set (text := sg ++ format_02d K ++ c0 :: format_02d Mi ++ c1
               :: (ip ++ dot :: fp) ++ trail).
  assert (Etext : fields_text h sg sep 3 = Ok text)
    by exact (fields_text_separators h sg sep c0 c1 trail 3 m s K Mi _
                Hsep Em Es EK EM Ess).
  assert (Hfloat : exists msg, py_float_of_str text = Raise (ValueError msg)).
  { destruct (field12_head _ FM) as (d & b' & Eb & Hd).
    unfold text. rewrite Eb.
    apply (break_prefix_not_number sg (format_02d K) c0 d
             (b' ++ c1 :: (ip ++ dot :: fp) ++ trail)); auto. }
  destruct Hfloat as [msg Emsg].
  assert (Hscan : scan text = None).
  { apply scan_foreign; auto. apply Hnum. }
  exists text. split; [exact Etext|].
  rewrite (deg_text text msg Emsg), (hourangle_text text msg Emsg).
  rewrite (parse_sexagesimal_none text Hscan). auto.
Qed.

(** X10. Text written with a first separator that is not one of
    [[ :\-hH]] (and is not a digit, a dot, an underscore or an exponent
    mark) is refused by both converters: ['dms'], the separator for
    degrees, gives text that [deg_to_decimal_deg] cannot read. *)
Theorem foreign_separator_refused (d : float) (sep : str) (c0 c1 : ascii)
    (trail : str) (sign : bool) :
  Float.is_finite d = true ->
  separators sep = Some (c0, c1, trail) ->
  cls_mem sep1_chars c0 = false -> not_in_numeral c0 ->
  ((Rabs (F2R d) <= 99)%R ->
   exists text,
     to_degminsec_sexagesimal d sep sign default_precision = Ok text /\
     deg_to_decimal_deg text = Raise (parse_error text) /\
     hourangle_to_decimal_deg text = Raise (parse_error text)) /\
  ((Rabs (F2R d) <= 1440)%R ->
   exists text,
     to_hourangle_sexagesimal d sep sign default_precision = Ok text /\
     deg_to_decimal_deg text = Raise (parse_error text) /\
     hourangle_to_decimal_deg text = Raise (parse_error text)).
Proof.
  intros Hfin Hsep Hc0 Hnum. unfold default_precision.
  pose proof eps_small as Heps. pose proof eps_pos as Hpos.
  unfold to_degminsec_sexagesimal, to_hourangle_sexagesimal.
  fold hour_multiplier. split; intros Hd; rewrite format_sexagesimal_fields.
  - destruct (degree_fields_text d (sign_text sign d) sep 3 Hfin Hd)
      as (h & -> & Gh & Eh).
    apply Rabs_le_inv in Eh.
    apply (written_refused h _ sep c0 c1 trail Gh ltac:(lra)
             (written_sign_text sign d) Hsep Hc0 Hnum).
  - destruct (hour_fields_text d (sign_text sign d) sep 3 Hfin Hd)
      as (h & -> & Gh & Eh).
    apply Rabs_le_inv in Eh.
    apply (written_refused h _ sep c0 c1 trail Gh ltac:(lra)
             (written_sign_text sign d) Hsep Hc0 Hnum).
Qed.

Lemma foreign_separator_refused_witness :
  exists text,
    to_degminsec_sexagesimal (i2f (-12)) (lit "dms") true default_precision
      = Ok text /\
    deg_to_decimal_deg text = Raise (parse_error text) /\
    hourangle_to_decimal_deg text = Raise (parse_error text).
Proof.
  apply (proj1 (foreign_separator_refused (i2f (-12)) (lit "dms")
                  "d"%char "m"%char (lit "s") true
                  eq_refl eq_refl eq_refl
                  (conj eq_refl (conj eq_refl (conj eq_refl eq_refl))))).
  pose proof (proj2 (i2f_good 12 ltac:(lia))) as H.
  apply Rabs_le_inv in H. pose proof eps_small.
  change (i2f (-12)) with (Float.opp (i2f 12)).
  rewrite F2R_opp, Rabs_Ropp. apply Rabs_le. lra.
Defined.

(** ** Fewer than two decimals *)

Lemma zfill_two_zeros body b0 b' :
  body = b0 :: b' -> is_digit b0 = true -> (length body <= 4)%nat ->
  exists d rest,
    zfill 6 body = char_0 :: char_0 :: d :: rest /\ is_digit d = true.
Proof.
  intros -> Hb Hl. unfold zfill.
  destruct (6 - length (b0 :: b'))%nat as [|[|[|n]]] eqn:E;
    try (cbn [length] in *; lia).
  - exists b0, b'. split; [reflexivity | exact Hb].
  - exists char_0. eexists. split; [reflexivity | reflexivity].
Qed.

(** With precision 0 or 1 the seconds field, still six characters wide,
    starts with two zeros and a third digit. *)
Lemma format_06f_low s p :
  good s -> (F2R s < 60)%R -> p = 0 \/ p = 1 ->
  exists d rest,
    format_06f s p = Ok (char_0 :: char_0 :: d :: rest) /\
    is_digit d = true.
Proof.
  intros Hs Hlt Hp.
  pose proof (F2R_nonneg s (good_nonneg s Hs)) as Hs0.
  assert (Ebody : format_06f s p = Ok (zfill 6 (fixed_digits s p))).
  { unfold format_06f.
    replace (p <? 0) with false by (symmetry; apply Z.ltb_ge; lia).
    replace (PY_SSIZE_T_MAX <? p) with false
      by (symmetry; apply Z.ltb_ge; unfold PY_SSIZE_T_MAX, INT_MAX in *; lia).
    replace (INT_MAX <? p) with false
      by (symmetry; apply Z.ltb_ge; unfold INT_MAX in *; lia).
    rewrite (good_sign_bit s Hs).
    destruct s as [[|]|[|]| |[|] m e]; try contradiction; reflexivity. }
  destruct (scaled_round_good s p Hs ltac:(lia)) as [HN0 EN].
  apply Rabs_le_inv in EN.
  set (N := Float.scaled_round s p) in *.
  pose proof (digits_all N HN0) as HD.
  destruct (digits_head N HN0) as (d0 & r0 & Ed & Hd0).
  rewrite Ebody.
  destruct Hp as [-> | ->].
  - change (10 ^ 0) with 1 in EN.
    assert (HN : N < 100) by (apply lt_IZR; lra).
    pose proof (digits_length N 2
                  ltac:(change (10 ^ Z.of_nat 2) with 100; lia) ltac:(lia))
      as HL.
    assert (Efix : fixed_digits s 0 = digits N).
    { unfold fixed_digits. fold N. change (Z.to_nat 0) with 0%nat.
      change (0 =? 0) with true. cbn iota. unfold zfill.
      replace (1 - length (digits N))%nat with 0%nat by lia. reflexivity. }
    rewrite Efix.
    destruct (zfill_two_zeros (digits N) d0 r0 Ed Hd0 ltac:(lia))
      as (d & rest & -> & Hd).
    now exists d, rest.
  - change (10 ^ 1) with 10 in EN.
    assert (HN : N < 1000) by (apply lt_IZR; lra).
    pose proof (digits_length N 3
                  ltac:(change (10 ^ Z.of_nat 3) with 1000; lia) ltac:(lia))
      as HL.
    set (ds := zfill 2 (digits N)).
    assert (Hds : forallb is_digit ds = true) by now apply zfill_digits.
    assert (Lds : (length ds = 2 \/ length ds = 3)%nat).
    { unfold ds. rewrite zfill_length. lia. }
    set (k := (length ds - 1)%nat).
    assert (Efix : fixed_digits s 1 = firstn k ds ++ dot :: skipn k ds).
    { unfold fixed_digits. fold N. change (Z.to_nat 1) with 1%nat.
      fold ds. fold k. reflexivity. }
    rewrite Efix.
    assert (Lf : length (firstn k ds) = k) by (apply firstn_length_le; lia).
    assert (Lk : length (skipn k ds) = 1%nat) by (rewrite length_skipn; lia).
    pose proof (forallb_firstn_ is_digit k ds Hds) as Hf.
    destruct (firstn k ds) as [|b0 b'] eqn:Ef; [cbn [length] in Lf; lia|].
    cbn [forallb] in Hf. apply andb_true_iff in Hf as [Hb0 _].
    destruct (zfill_two_zeros ((b0 :: b') ++ dot :: skipn k ds) b0
                (b' ++ dot :: skipn k ds) eq_refl Hb0)
      as (d & rest & -> & Hd).
    { rewrite length_app. cbn [length]. cbn [length] in Lf. lia. }
    now exists d, rest.
Qed.

Lemma take_seconds_zeros d rest :
  is_digit d = true ->
  take_seconds (char_0 :: char_0 :: d :: rest)
  = Some ([char_0; char_0], d :: rest).
Proof.
  intros Hd. unfold take_seconds. cbn [take_digits12].
  change (is_digit char_0) with true. cbn iota.
  cbn [take_fraction]. rewrite (digit_not_dot_char d Hd). reflexivity.
Qed.

Lemma written_without_seconds h sg sep c0 c1 trail p :
  p = 0 \/ p = 1 ->
  good h -> (F2R h < 100)%R -> written_sign sg ->
  separators sep = Some (c0, c1, trail) ->
  cls_mem sep1_chars c0 = true -> cls_mem sep2_chars c1 = true ->
  exists text a b,
    fields_text h sg sep p = Ok text /\
    py_int_of_float h = Ok a /\
    parse_sexagesimal text = Ok (sign_of sg, a, b, S754_zero false).
Proof.
  intros Hp Hh Hlt Hsg Hsep Hc0 Hc1.
  destruct (magnitude_remainders h Hh Hlt)
    as (m & s & K & Mi & Em & Es & EK & EM & HK & HM & Gs & Hs60 & _).
  destruct (format_06f_low s p Gs Hs60 Hp) as (d & rest & Ess & Hd).
  destruct (format_02d_field K ltac:(lia)) as [FK VK].
  destruct (format_02d_field Mi ltac:(lia)) as [FM VM].
  pose proof (written_sign_opt sg Hsg) as Hopt.
  exists (sg ++ format_02d K ++ c0 :: format_02d Mi ++ c1
          :: (char_0 :: char_0 :: d :: rest) ++ trail), K, Mi.
  split; [|split; [exact EK|]].
  - exact (fields_text_separators h sg sep c0 c1 trail p m s K Mi _
             Hsep Em Es EK EM Ess).
  - transitivity (@Ok quadruple
                    (sign_of sg, digits_value (format_02d K),
                     digits_value (format_02d Mi),
                     numeral_value [char_0; char_0] []));
      [|rewrite VK, VM; reflexivity].
    apply (parse_sexagesimal_some _ sg _ _ [char_0; char_0] [] []); auto.
    + rewrite (scan_fields sg _ c0 _ c1 _ Hopt FK Hc0 FM Hc1).
      cbn [app]. rewrite (take_seconds_zeros d _ Hd). reflexivity.
    + split; [reflexivity | right; reflexivity].
    + split; [reflexivity | now left].
Qed.

(** X11. With precision 0 or 1 the seconds do not survive the round
    trip: the seconds field keeps its width of six characters, so it
    starts with two padding zeros, and the pattern reads those two as
    the seconds. Whatever the value, the text is parsed with the integer
    part of the magnitude as first field and [0.0] as seconds. *)
Theorem low_precision_drops_seconds (d : float) (sep : str) (c0 c1 : ascii)
    (trail : str) (sign : bool) (p : Z) :
  Float.is_finite d = true -> p = 0 \/ p = 1 ->
  separators sep = Some (c0, c1, trail) ->
  cls_mem sep1_chars c0 = true -> cls_mem sep2_chars c1 = true ->
  ((Rabs (F2R d) <= 99)%R ->
   exists text a b,
     to_degminsec_sexagesimal d sep sign p = Ok text /\
     parse_sexagesimal text
     = Ok (sign_of (sign_text sign d), a, b, S754_zero false)) /\
  ((Rabs (F2R d) <= 1440)%R ->
   exists text a b,
     to_hourangle_sexagesimal d sep sign p = Ok text /\
     parse_sexagesimal text
     = Ok (sign_of (sign_text sign d), a, b, S754_zero false)).
Proof.
  intros Hfin Hp Hsep Hc0 Hc1.
  pose proof eps_small as Heps. pose proof eps_pos as Hpos.
  unfold to_degminsec_sexagesimal, to_hourangle_sexagesimal.
  fold hour_multiplier. split; intros Hd; rewrite format_sexagesimal_fields.
  - destruct (degree_fields_text d (sign_text sign d) sep p Hfin Hd)
      as (h & -> & Gh & Eh).
    apply Rabs_le_inv in Eh.
    destruct (written_without_seconds h _ sep c0 c1 trail p Hp Gh
                ltac:(lra) (written_sign_text sign d) Hsep Hc0 Hc1)
      as (text & a & b & Et & _ & Ep).
    now exists text, a, b.
  - destruct (hour_fields_text d (sign_text sign d) sep p Hfin Hd)
      as (h & -> & Gh & Eh).
    apply Rabs_le_inv in Eh.
    destruct (written_without_seconds h _ sep c0 c1 trail p Hp Gh
                ltac:(lra) (written_sign_text sign d) Hsep Hc0 Hc1)
      as (text & a & b & Et & _ & Ep).
    now exists text, a, b.
Qed.

Lemma low_precision_drops_seconds_witness :
  exists text a b,
    to_hourangle_sexagesimal (i2f 181) default_sep false 1 = Ok text /\
    parse_sexagesimal text
    = Ok (sign_of (sign_text false (i2f 181)), a, b, S754_zero false).
Proof.
  apply (proj2 (low_precision_drops_seconds (i2f 181) default_sep
                  ":"%char ":"%char [] false 1
                  eq_refl (or_intror eq_refl) eq_refl eq_refl eq_refl)).
  pose proof (proj2 (i2f_good 181 ltac:(lia))) as H.
  apply Rabs_le_inv in H. pose proof eps_small.
  apply Rabs_le. lra.
Defined.

(** 181 degrees are 12 h 4 min: with one decimal the text is
    ["12:04:0000.0"], and with precision 1 a value of 12 h 4 min 36 s
    is written ["12:04:0036.0"], which is read as 12 h 4 min 0 s. *)
Lemma seconds_dropped_example :
  to_hourangle_sexagesimal (Float.of_decimal false 18115 (-2))
    default_sep false 1 = Ok (lit "12:04:0036.0") /\
  parse_sexagesimal (lit "12:04:0036.0") = Ok (1, 12, 4, S754_zero false).
Proof. split; vm_compute; reflexivity. Qed.

(** ** The number that sexagesimal text denotes *)

(** The seconds [ip.fp] as a real number. *)
Definition seconds_real (ip fp : str) : R :=
  (IZR (digits_value (ip ++ fp)) / IZR (10 ^ Z.of_nat (length fp)))%R.

(** The real number that the fields denote: the sign times
    [a + b / 60 + seconds / 3600]. *)
Definition sexagesimal_real (sg a b ip fp : str) : R :=
  (IZR (sign_of sg)
   * (IZR (digits_value a)
      + (IZR (digits_value b) + seconds_real ip fp / 60) / 60))%R.

Lemma take_seconds_exact ip fr fp :
  field12 ip -> fraction fr fp ->
  take_seconds (ip ++ fr) = Some (ip ++ fr, []).
Proof.
  intros Hip [Hfp [[-> ->] | ->]].
  - rewrite app_nil_r. destruct Hip as [Hd Hl].
    destruct ip as [|d1 [|d2 [|d3 ip]]]; simpl in Hl;
      try (destruct Hl; discriminate); simpl in Hd.
    + rewrite andb_true_r in Hd. unfold take_seconds. cbn [take_digits12].
      rewrite Hd. reflexivity.
    + apply andb_true_iff in Hd as [H1 H2]. rewrite andb_true_r in H2.
      unfold take_seconds. cbn [take_digits12]. rewrite H1, H2. reflexivity.
  - now apply take_seconds_whole.
Qed.

(** The float of the seconds is within one rounding of their value. *)
Lemma numeral_value_good ip fp :
  field12 ip -> forallb is_digit fp = true ->
  good (numeral_value ip fp) /\
  (Rabs (F2R (numeral_value ip fp) - seconds_real ip fp) <= eps)%R /\
  (0 <= seconds_real ip fp < 100)%R.
Proof.
  intros Hip Hfp.
  pose proof (field12_value ip Hip) as Hv.
  pose proof (digits_value_bound fp Hfp) as Hf.
  pose proof (digits_value_app ip fp) as EN.
  set (k := Z.of_nat (length fp)) in *.
  assert (Hk : 0 <= k) by (unfold k; lia).
  pose proof (pow10_pos k Hk) as H10.
  assert (HN : 0 <= digits_value (ip ++ fp) < 100 * 10 ^ k) by nia.
  assert (HT : (0 < IZR (10 ^ k))%R) by now apply IZR_lt.
  assert (Hreal : (0 <= seconds_real ip fp < 100)%R).
  { unfold seconds_real. fold k. split.
    - apply Rle_div_r_; [exact HT|]. rewrite Rmult_0_l. apply IZR_le. lia.
    - apply Rlt_div_l_; [exact HT|]. rewrite <- mult_IZR. apply IZR_lt. lia. }
  destruct fp as [|c fp].
  - assert (E : numeral_value ip [] = i2f (digits_value (ip ++ []))).
    { unfold numeral_value, Float.of_decimal, i2f, Float.of_Z.
      destruct (digits_value (ip ++ [])) as [|q|q]; try lia; [reflexivity|].
      cbn [Z.to_N length Z.of_nat Z.opp].
      change (0 <=? 0) with true. cbv iota.
      change (10 ^ 0) with 1. rewrite Z.mul_1_r. reflexivity. }
    rewrite E.
    destruct (i2f_good (digits_value (ip ++ []))) as [G Er].
    { change (10 ^ k) with 1 in HN. lia. }
    split; [exact G|]. split; [|exact Hreal].
    unfold seconds_real. change (10 ^ Z.of_nat (length (@nil ascii))) with 1.
    replace (IZR (digits_value (ip ++ [])) / 1)%R
      with (IZR (digits_value (ip ++ []))) by field.
    exact Er.
  - assert (Hkpos : 0 < k) by (unfold k; cbn [length]; lia).
    destruct (of_decimal_good (digits_value (ip ++ c :: fp)) k
                ltac:(lia) Hkpos) as [G Er].
    { unfold seconds_real in Hreal. fold k in Hreal. lra. }
    unfold numeral_value, seconds_real. fold k. auto.
Qed.

(** X12. The converters compute the number that the text denotes. For
    text made of an optional sign, two fields of one or two digits, each
    followed by an accepted separator, and seconds of one or two digits
    with an optional fraction, followed by nothing that could continue
    the seconds, [deg_to_decimal_deg] returns a finite float within
    [1e-6] of [sign * (a + b / 60 + seconds / 3600)] and
    [hourangle_to_decimal_deg] one within [1e-6] of 15 times that. *)
Theorem converters_accuracy (sg a b ip fr fp t : str) (p1 p2 : ascii) :
  sign_opt sg -> field12 a -> cls_mem sep1_chars p1 = true ->
  field12 b -> cls_mem sep2_chars p2 = true ->
  field12 ip -> fraction fr fp -> no_numeral_head t ->
  exists r1 r2,
    deg_to_decimal_deg (sg ++ a ++ p1 :: b ++ p2 :: (ip ++ fr) ++ t)
      = Ok r1 /\
    hourangle_to_decimal_deg (sg ++ a ++ p1 :: b ++ p2 :: (ip ++ fr) ++ t)
      = Ok r2 /\
    Float.is_finite r1 = true /\ Float.is_finite r2 = true /\
    (Rabs (F2R r1 - sexagesimal_real sg a b ip fp) <= / 1000000)%R /\
    (Rabs (F2R r2 - 15 * sexagesimal_real sg a b ip fp) <= / 1000000)%R.
Proof.
  intros Hsg Ha Hp1 Hb Hp2 Hip Hfr Ht.
  pose proof eps_small as Heps. pose proof eps_pos as Hpos.
  set (s := sg ++ a ++ p1 :: b ++ p2 :: (ip ++ fr) ++ t).
  assert (Hnum : exists msg, py_float_of_str s = Raise (ValueError msg)).
  { destruct (field12_head b Hb) as (d & b' & Eb & Hd).
    unfold s. rewrite Eb.
    apply (separator_prefix_not_number sg a p1 d
             (b' ++ p2 :: (ip ++ fr) ++ t)); auto. }
  destruct Hnum as [msg Emsg].
  assert (Hparse : parse_sexagesimal s
                   = Ok (sign_of sg, digits_value a, digits_value b,
                         numeral_value ip fp)).
  { apply (parse_sexagesimal_some s sg a b ip fr fp); auto.
    unfold s. rewrite (scan_fields sg a p1 b p2 _ Hsg Ha Hp1 Hb Hp2).
    rewrite (take_seconds_append _ _ _ t
               (take_seconds_exact ip fr fp Hip Hfr) Ht).
    reflexivity. }
  pose proof (field12_value a Ha) as HA.
  pose proof (field12_value b Hb) as HB.
  destruct (numeral_value_good ip fp Hip (proj1 Hfr)) as (Gc & Ec & Hreal).
  apply Rabs_le_inv in Ec.
  destruct (fields_value_good (digits_value a) (digits_value b) _
              ltac:(lia) ltac:(lia) Gc ltac:(lra)) as [Gt Et].
  apply Rabs_le_inv in Et.
  assert (BA : (0 <= IZR (digits_value a) <= 99)%R)
    by (split; apply IZR_le; lia).
  assert (BB : (0 <= IZR (digits_value b) <= 99)%R)
    by (split; apply IZR_le; lia).
  pose proof (good_expo _ Gt) as Hexp.
  destruct (mul_one_good _ (good_nonneg _ Gt) ltac:(lia) ltac:(lra))
    as [Gv Ev].
  apply Rabs_le_inv in Ev.
  set (v := (i2f 1 * (((numeral_value ip fp / i2f 60
                        + i2f (digits_value b)) / i2f 60)
                      + i2f (digits_value a)))%float) in *.
  destruct (py_round_good v Gv ltac:(lra)) as [Gr1 Er1].
  apply Rabs_le_inv in Er1.
  destruct (div24_good v (good_nonneg v Gv) ltac:(lra)) as [G1 E1].
  apply Rabs_le_inv in E1.
  destruct (mul360_good _ G1 ltac:(lra)) as [G2 E2].
  apply Rabs_le_inv in E2.
  destruct (py_round_good _ G2 ltac:(lra)) as [Gr2 Er2].
  apply Rabs_le_inv in Er2.
  exists (py_round (signed sg v) 6),
         (py_round (signed sg (hours_to_degrees v)) 6).
  split; [|split; [|split; [|split]]].
  - rewrite (deg_text s msg Emsg), Hparse. cbn [bind quadruple_value].
    now rewrite sign_times.
  - rewrite (hourangle_text s msg Emsg), Hparse.
    cbn [bind quadruple_value]. now rewrite sign_times, signed_hours.
  - now apply signed_round_finite.
  - now apply signed_round_finite.
  - rewrite !signed_value. unfold sexagesimal_real, sign_of, hours_to_degrees.
    destruct (str_eqb sg (lit "-")); split; apply Rabs_le; lra.
Qed.

Lemma converters_accuracy_witness :
  exists r1 r2,
    deg_to_decimal_deg (lit "-12h30m15.5s") = Ok r1 /\
    hourangle_to_decimal_deg (lit "-12h30m15.5s") = Ok r2 /\
    Float.is_finite r1 = true /\ Float.is_finite r2 = true /\
    (Rabs (F2R r1 - sexagesimal_real (lit "-") (lit "12") (lit "30")
                      (lit "15") (lit "5")) <= / 1000000)%R /\
    (Rabs (F2R r2 - 15 * sexagesimal_real (lit "-") (lit "12") (lit "30")
                           (lit "15") (lit "5")) <= / 1000000)%R.
Proof.
  apply (converters_accuracy (lit "-") (lit "12") (lit "30") (lit "15")
           (lit ".5") (lit "5") (lit "s") "h"%char "m"%char);
    try reflexivity.
  - right. exists "-"%char. split; reflexivity.
  - split; [reflexivity | right; reflexivity].
  - split; [reflexivity | right; reflexivity].
  - split; [reflexivity | right; reflexivity].
  - split; [reflexivity | right; reflexivity].
Defined.
